(** * Meow CLI: session store, tool executor, agent loop and autopilot

    A shallow embedding of the three programs of the repository:
    - [src/index.js], first program: named chat sessions, seven tools
      dispatched by [executeTool], confirmation with a ten second timer;
    - [src/index.js], second program: the autopilot ([sendToAssistant],
      [runAutopilot]);
    - [src/unnamed/part_000]: the earlier tool-chain program; its
      handlers have the bodies of the first program under other message
      texts, its prompt has no timer, and it dispatches inside
      [handleTools] and [toolChain].

    JavaScript values are JSON values; [option json] is a value that may be
    [undefined].  Effects are threaded through the [Machine]: the file
    system, the pending answers of the person at the terminal, the scripted
    outcomes of the remote endpoint, the record of confirmation prompts and
    the conversation array.  A thrown exception leaves the machine as the
    throwing statement left it, as in JavaScript.

    Modelling scope.  Numbers are integers.  A character of a string is one
    UTF-16 code unit of the source; the message texts are written out as
    they are in the source, and no length is taken of them.  The [chats]
    member of the history state
    is a plain object whose values are message arrays.  A name that every
    object inherits ([constructor], [toString], ...) passes the tests
    [chats[name]] of startup, [/chat new], [/chat use] and [/chat delete]
    as it does in JavaScript; [/import] is modelled for stores whose
    current chat is no such name.  Library functions of the runtime
    ([JSON.stringify], [JSON.parse], [path.resolve], the hunks of
    [createTwoFilesPatch], [child_process.exec], [fetch], ...) are the fields
    of a [Runtime] record over which every definition is parametric. *)

From Stdlib Require Import String Ascii List ZArith NArith Lia Bool.
From Stdlib Require Import DecimalString DecimalNat Sorted Permutation.
From stdpp Require Import gmap strings list.
Import ListNotations.
Open Scope string_scope.

Set Warnings "-abstract-large-number,-register-all".

#[global] Arguments String.append : simpl nomatch.

(** ** Strings *)

Definition nl : string := String (ascii_of_nat 10) EmptyString.
Definition tab : string := String (ascii_of_nat 9) EmptyString.

Definition string_of_nat (n : nat) : string :=
  NilEmpty.string_of_uint (Nat.to_uint n).

Definition string_of_Z (z : Z) : string :=
  match z with
  | Z0 => "0"
  | Zpos p => string_of_nat (Pos.to_nat p)
  | Zneg p => "-" ++ string_of_nat (Pos.to_nat p)
  end.

(** [s.slice(0, n)] *)
Fixpoint str_take (n : nat) (s : string) : string :=
  match n, s with
  | S n', String c r => String c (str_take n' r)
  | _, _ => EmptyString
  end.

(** [s.includes(t)] *)
Fixpoint includes (s t : string) : bool :=
  String.prefix t s ||
  match s with
  | EmptyString => false
  | String _ r => includes r t
  end.

(** [s.replace(/^p/, "")]: one leading occurrence of [p] is removed. *)
Fixpoint strip_prefix (p s : string) : option string :=
  match p, s with
  | EmptyString, _ => Some s
  | String a p', String b s' =>
      if Ascii.eqb a b then strip_prefix p' s' else None
  | String _ _, EmptyString => None
  end.

Definition replace_prefix (p s : string) : string :=
  match strip_prefix p s with Some r => r | None => s end.

(** White space for [trim] and for [\s], among the code units below
    256: the white space of ASCII and the no-break space. *)
Definition is_space (c : ascii) : bool :=
  let n := nat_of_ascii c in
  (n =? 32)%nat || ((9 <=? n)%nat && (n <=? 13)%nat) || (n =? 160)%nat.

Fixpoint trim_start (s : string) : string :=
  match s with
  | String c r => if is_space c then trim_start r else s
  | EmptyString => EmptyString
  end.

Fixpoint str_rev_onto (s acc : string) : string :=
  match s with
  | EmptyString => acc
  | String c r => str_rev_onto r (String c acc)
  end.

Definition str_rev (s : string) : string := str_rev_onto s EmptyString.

(** [s.trim()] *)
Definition js_trim (s : string) : string :=
  str_rev (trim_start (str_rev (trim_start s))).

Definition lower (c : ascii) : ascii :=
  let n := nat_of_ascii c in
  if ((65 <=? n)%nat && (n <=? 90)%nat) then ascii_of_nat (n + 32) else c.

Fixpoint toLowerCase (s : string) : string :=
  match s with
  | EmptyString => EmptyString
  | String c r => String (lower c) (toLowerCase r)
  end.

(** [parts.join(sep)] *)
Fixpoint join (sep : string) (parts : list string) : string :=
  match parts with
  | [] => EmptyString
  | [p] => p
  | p :: rest => p ++ sep ++ join sep rest
  end.

(** [list.sort()] on strings: insertion sort by code unit order. *)
Fixpoint insert_sorted (x : string) (l : list string) : list string :=
  match l with
  | [] => [x]
  | y :: r => if String.leb x y then x :: l else y :: insert_sorted x r
  end.

Definition sort_strings (l : list string) : list string :=
  fold_right insert_sorted [] l.

(** ** JSON values *)

Inductive json : Type :=
| JNull
| JBool (b : bool)
| JNum (n : Z)
| JStr (s : string)
| JArr (items : list json)
| JObj (fields : list (string * json)).

(** Truthiness of a value, as [if (v)], [!v] and [v || d] test it. *)
Definition truthy (v : json) : bool :=
  match v with
  | JNull => false
  | JBool b => b
  | JNum n => negb (n =? 0)%Z
  | JStr s => negb (s =? "")
  | JArr _ | JObj _ => true
  end.

Definition truthy_opt (v : option json) : bool :=
  match v with Some v => truthy v | None => false end.

(** [v || d] *)
Definition or_else (v : option json) (d : json) : json :=
  match v with
  | Some v => if truthy v then v else d
  | None => d
  end.

(** The text a template literal or a string concatenation gives a value. *)
Fixpoint js_to_string (v : json) : string :=
  match v with
  | JNull => "null"
  | JBool true => "true"
  | JBool false => "false"
  | JNum n => string_of_Z n
  | JStr s => s
  | JArr items =>
      join "," (List.map (fun x => match x with
                                   | JNull => EmptyString
                                   | _ => js_to_string x
                                   end) items)
  | JObj _ => "[object Object]"
  end.

Definition js_to_string_opt (v : option json) : string :=
  match v with Some v => js_to_string v | None => "undefined" end.

Fixpoint list_max_nat (l : list nat) : nat :=
  match l with [] => 0 | x :: r => Nat.max x (list_max_nat r) end.

(** Nesting depth; the tool executor recurses on it. *)
Fixpoint json_depth (v : json) : nat :=
  match v with
  | JArr items => S (list_max_nat (List.map json_depth items))
  | JObj fields =>
      S (list_max_nat (List.map (fun kv => json_depth (snd kv)) fields))
  | _ => 0
  end.

(** ** Objects: own properties in insertion order *)

Section Objects.
Context {A : Type}.

Fixpoint obj_get (o : list (string * A)) (k : string) : option A :=
  match o with
  | [] => None
  | (k', v) :: r => if k' =? k then Some v else obj_get r k
  end.

(** [o[k] = v]: an existing property keeps its place. *)
Fixpoint obj_set (o : list (string * A)) (k : string) (v : A)
  : list (string * A) :=
  match o with
  | [] => [(k, v)]
  | (k', v') :: r =>
      if k' =? k then (k', v) :: r else (k', v') :: obj_set r k v
  end.

(** [delete o[k]] *)
Fixpoint obj_delete (o : list (string * A)) (k : string)
  : list (string * A) :=
  match o with
  | [] => []
  | (k', v') :: r =>
      if k' =? k then obj_delete r k else (k', v') :: obj_delete r k
  end.

Definition obj_has (o : list (string * A)) (k : string) : bool :=
  match obj_get o k with Some _ => true | None => false end.
End Objects.

(** The members every object has from [Object.prototype]: functions, and
    under [__proto__] the prototype itself. *)
Definition inherited_names : list string :=
  ["constructor"; "toString"; "toLocaleString"; "valueOf";
   "hasOwnProperty"; "isPrototypeOf"; "propertyIsEnumerable"; "__proto__";
   "__defineGetter__"; "__defineSetter__"; "__lookupGetter__";
   "__lookupSetter__"].

Definition inherited (k : string) : bool :=
  existsb (String.eqb k) inherited_names.

(** [o[k]] is truthy, for an object whose own values are: the member is
    its own or an inherited one. *)
Definition has_member {A : Type} (o : list (string * A)) (k : string)
  : bool :=
  obj_has o k || inherited k.

(** An array index is a canonical decimal numeral below [2^32 - 1]. *)
Definition digit_of (c : ascii) : option N :=
  let n := N_of_ascii c in
  if ((48 <=? n) && (n <=? 57))%N then Some (n - 48)%N else None.

Fixpoint digits_value (s : string) (acc : N) : option N :=
  match s with
  | EmptyString => Some acc
  | String c r =>
      match digit_of c with
      | Some d => digits_value r (acc * 10 + d)%N
      | None => None
      end
  end.

Definition array_index (s : string) : option N :=
  match s with
  | EmptyString => None
  | String c r =>
      if Ascii.eqb c "0"%char
      then (if r =? "" then Some 0%N else None)
      else match digits_value s 0%N with
           | Some n => if (n <? 4294967295)%N then Some n else None
           | None => None
           end
  end.

Fixpoint insert_index (x : N * string) (l : list (N * string))
  : list (N * string) :=
  match l with
  | [] => [x]
  | y :: r => if (fst x <=? fst y)%N then x :: l else y :: insert_index x r
  end.

Definition index_keys (ks : list string) : list (N * string) :=
  fold_right insert_index []
    (omap (fun k => match array_index k with
                    | Some n => Some (n, k)
                    | None => None
                    end) ks).

Definition name_keys (ks : list string) : list string :=
  List.filter (fun k => match array_index k with
                        | Some _ => false
                        | None => true
                        end) ks.

(** [Object.keys(o)]: array indices in ascending order, then the other
    names in the order of their creation. *)
Definition Object_keys {A : Type} (o : list (string * A)) : list string :=
  let ks := List.map fst o in
  List.map snd (index_keys ks) ++ name_keys ks.

(** ** The machine and the runtime *)

Inductive Node : Type :=
| File (readable writable : bool) (content : string)
| Dir.

(** What ends a confirmation prompt: a line typed at the terminal, or the
    ten second timer of the first program. *)
Inductive Decision : Type :=
| Typed (line : string)
| TimerFired.

Record GateCall : Type := mkGateCall {
  gate_action : string;
  gate_detail : option json;
  gate_auto : bool
}.

(** What one request to the chat-completions endpoint comes to. *)
Inductive ApiOutcome : Type :=
| ApiReply (data : json)
| ApiStatus (status : Z) (body : string)
| ApiUnreachable (message : string).

Record Machine : Type := mkMachine {
  fs : gmap string Node;
  decisions : list Decision;
  remote : list ApiOutcome;
  gate : list GateCall;
  conv : list json;
  clock : nat
}.

Definition set_fs (f : gmap string Node) (m : Machine) : Machine :=
  mkMachine f (decisions m) (remote m) (gate m) (conv m) (clock m).
Definition set_decisions (d : list Decision) (m : Machine) : Machine :=
  mkMachine (fs m) d (remote m) (gate m) (conv m) (clock m).
Definition set_remote (r : list ApiOutcome) (m : Machine) : Machine :=
  mkMachine (fs m) (decisions m) r (gate m) (conv m) (clock m).
Definition set_gate (g : list GateCall) (m : Machine) : Machine :=
  mkMachine (fs m) (decisions m) (remote m) g (conv m) (clock m).
Definition set_conv (c : list json) (m : Machine) : Machine :=
  mkMachine (fs m) (decisions m) (remote m) (gate m) c (clock m).
Definition tick (m : Machine) : Machine :=
  mkMachine (fs m) (decisions m) (remote m) (gate m) (conv m) (S (clock m)).

Record JsError : Type := mkError { err_name : string; err_message : string }.

Definition TypeError (msg : string) : JsError := mkError "TypeError" msg.
Definition SystemError (msg : string) : JsError := mkError "Error" msg.

(** What spreading a value that is no array throws. *)
Definition not_iterable (what : string) : JsError :=
  TypeError (what ++ " is not iterable").

Record ExecResult : Type := mkExec {
  exec_stdout : string;
  exec_stderr : string;
  exec_code : option string
}.

Record FetchRequest : Type := mkRequest {
  req_url : json;
  req_method : json;
  req_headers : json;
  req_body : option json
}.

Inductive FetchOutcome : Type :=
| FetchResponse (status : Z) (statusText : string)
    (headers : list (string * string)) (body : string)
| FetchError (e : JsError).

Record Runtime : Type := mkRuntime {
  stringify : json -> string;
  parse : string -> option json;
  resolve : string -> string;
  dirname : string -> string;
  basename : string -> string;
  path_join : string -> string -> string;
  hunks : string -> string -> string;
  exec : string -> gmap string Node -> ExecResult * gmap string Node;
  fetch : FetchRequest -> nat -> FetchOutcome;
  encodeURIComponent : string -> string;
  to_number : json -> option Z;
  result_links : string -> list json;
  HIST_FILE : string
}.

(** ** Computations that may throw *)

Inductive Outcome (A : Type) : Type :=
| Ok (a : A)
| Throw (e : JsError)
| Stall.
Arguments Ok {A} a.
Arguments Throw {A} e.
Arguments Stall {A}.

Definition M (A : Type) : Type := Machine -> Outcome A * Machine.

Definition ret {A : Type} (a : A) : M A := fun m => (Ok a, m).

Definition throw {A : Type} (e : JsError) : M A := fun m => (Throw e, m).

Definition bind {A B : Type} (c : M A) (k : A -> M B) : M B :=
  fun m =>
    match c m with
    | (Ok a, m') => k a m'
    | (Throw e, m') => (Throw e, m')
    | (Stall, m') => (Stall, m')
    end.

(** [try { c } catch (e) { h e }] *)
Definition try_catch {A : Type} (c : M A) (h : JsError -> M A) : M A :=
  fun m =>
    match c m with
    | (Throw e, m') => h e m'
    | r => r
    end.

Definition lift {A : Type} (o : Outcome A) : M A := fun m => (o, m).

Definition modify (f : Machine -> Machine) : M unit := fun m => (Ok tt, f m).

Definition inspect {A : Type} (f : Machine -> A) : M A := fun m => (Ok (f m), m).

(** A computation that is never left waiting for input, and one that
    moreover takes no outcome of the endpoint. *)
Definition settles {A : Type} (c : M A) : Prop :=
  forall m, fst (c m) <> Stall.

Definition quiet {A : Type} (c : M A) : Prop :=
  forall m, fst (c m) <> Stall /\ remote (snd (c m)) = remote m.

Declare Scope js_scope.
Delimit Scope js_scope with js.
Notation "'let*' x ':=' c 'in' k" := (bind c (fun x => k))
  (at level 10, x name, c at level 100, k at level 200) : js_scope.
Notation "'run' c 'in' k" := (bind c (fun _ => k))
  (at level 10, c at level 100, k at level 200) : js_scope.
Open Scope js_scope.

(** ** Reading properties *)

Definition dq : string := String (ascii_of_nat 34) EmptyString.

(** [v.k] for the member names this program reads; [null.k] throws. *)
Definition js_prop (v : json) (k : string) : Outcome (option json) :=
  match v with
  | JNull =>
      Throw (TypeError ("Cannot read properties of null (reading '"
                          ++ k ++ "')"))
  | JObj fields => Ok (obj_get fields k)
  | _ => Ok None
  end.

Definition js_prop_opt (v : option json) (k : string)
  : Outcome (option json) :=
  match v with
  | None =>
      Throw (TypeError ("Cannot read properties of undefined (reading '"
                          ++ k ++ "')"))
  | Some v => js_prop v k
  end.

(** [v[0]] *)
Definition js_first (v : option json) : Outcome (option json) :=
  match v with
  | None =>
      Throw (TypeError "Cannot read properties of undefined (reading '0')")
  | Some JNull =>
      Throw (TypeError "Cannot read properties of null (reading '0')")
  | Some (JArr (x :: _)) => Ok (Some x)
  | Some (JObj fields) => Ok (obj_get fields "0")
  | Some (JStr (String c _)) => Ok (Some (JStr (String c EmptyString)))
  | Some _ => Ok None
  end.

(** How Node names an argument of the wrong type. *)
Definition received (v : option json) : string :=
  match v with
  | None => "undefined"
  | Some JNull => "null"
  | Some (JBool b) => "type boolean (" ++ js_to_string (JBool b) ++ ")"
  | Some (JNum n) => "type number (" ++ string_of_Z n ++ ")"
  | Some (JStr s) => "type string ('" ++ s ++ "')"
  | Some (JArr _) => "an instance of Array"
  | Some (JObj _) => "an instance of Object"
  end.

Definition not_a_string (arg : string) (v : option json) : JsError :=
  TypeError ("The " ++ dq ++ arg ++ dq
               ++ " argument must be of type string. Received "
               ++ received v).

(** ** The file system *)

Definition ENOENT (op p : string) : JsError :=
  SystemError ("ENOENT: no such file or directory, " ++ op ++ " '" ++ p ++ "'").
Definition EACCES (op p : string) : JsError :=
  SystemError ("EACCES: permission denied, " ++ op ++ " '" ++ p ++ "'").
(** Reading a directory fails at the read, which names no path. *)
Definition EISDIR_read : JsError :=
  SystemError "EISDIR: illegal operation on a directory, read".
Definition EISDIR (op p : string) : JsError :=
  SystemError ("EISDIR: illegal operation on a directory, "
                 ++ op ++ " '" ++ p ++ "'").
Definition ENOTDIR (op p : string) : JsError :=
  SystemError ("ENOTDIR: not a directory, " ++ op ++ " '" ++ p ++ "'").
Definition EEXIST (op p : string) : JsError :=
  SystemError ("EEXIST: file already exists, " ++ op ++ " '" ++ p ++ "'").

Definition existsSync (p : string) : M bool :=
  inspect (fun m => match fs m !! p with Some _ => true | None => false end).

Definition statSync (p : string) : M Node :=
  fun m =>
    match fs m !! p with
    | Some n => (Ok n, m)
    | None => (Throw (ENOENT "stat" p), m)
    end.

Definition isFile (n : Node) : bool :=
  match n with File _ _ _ => true | Dir => false end.
Definition isDirectory (n : Node) : bool :=
  match n with File _ _ _ => false | Dir => true end.

Definition readFileSync (p : string) : M string :=
  fun m =>
    match fs m !! p with
    | Some (File true _ c) => (Ok c, m)
    | Some (File false _ _) => (Throw (EACCES "open" p), m)
    | Some Dir => (Throw EISDIR_read, m)
    | None => (Throw (ENOENT "open" p), m)
    end.

Section FileSystem.
Context (rt : Runtime).

(** A new file needs its directory; an existing one keeps its modes. *)
Definition writeFileSync (p data : string) : M unit :=
  fun m =>
    match fs m !! p with
    | Some Dir => (Throw (EISDIR "open" p), m)
    | Some (File _ false _) => (Throw (EACCES "open" p), m)
    | Some (File r true _) =>
        (Ok tt, set_fs (<[p := File r true data]> (fs m)) m)
    | None =>
        match fs m !! dirname rt p with
        | Some Dir => (Ok tt, set_fs (<[p := File true true data]> (fs m)) m)
        | _ => (Throw (ENOENT "open" p), m)
        end
    end.

(** [fs.mkdirSync(d, { recursive: true })] *)
Definition mkdirSync (d : string) : M unit :=
  fun m =>
    match fs m !! d with
    | Some Dir => (Ok tt, m)
    | Some (File _ _ _) => (Throw (EEXIST "mkdir" d), m)
    | None => (Ok tt, set_fs (<[d := Dir]> (fs m)) m)
    end.

Definition readdirSync (d : string) : M (list string) :=
  fun m =>
    match fs m !! d with
    | Some Dir =>
        (Ok (List.map (basename rt)
               (List.filter
                  (fun k => (dirname rt k =? d) && negb (k =? d))
                  (List.map fst (map_to_list (fs m))))), m)
    | Some (File _ _ _) => (Throw (ENOTDIR "scandir" d), m)
    | None => (Throw (ENOENT "scandir" d), m)
    end.

(** [path.resolve(p)] throws on anything but a string. *)
Definition path_resolve (p : option json) : M string :=
  match p with
  | Some (JStr s) => ret (resolve rt s)
  | _ => throw (not_a_string "paths[0]" p)
  end.
End FileSystem.

(** ** The confirmation gate *)

Definition log_gate (action : string) (detail : option json) (auto : bool)
  : M unit :=
  modify (fun m => set_gate (mkGateCall action detail auto :: gate m) m).

Definition is_yes (line : string) : bool :=
  toLowerCase (js_trim line) =? "y".

(** The dialog of the first program shows [detail.slice(0, 500)] and reads
    [detail.length]: a detail without [slice] makes the dialog throw. *)
Definition dialog_text (detail : option json) : Outcome unit :=
  match detail with
  | Some (JStr _) | Some (JArr _) => Ok tt
  | None =>
      Throw (TypeError "Cannot read properties of undefined (reading 'slice')")
  | Some JNull =>
      Throw (TypeError "Cannot read properties of null (reading 'slice')")
  | Some _ => Throw (TypeError "detail.slice is not a function")
  end.

(** First program: a typed line decides, [y] approves; when nothing is
    typed the timer approves. *)
Definition await_decision : M bool :=
  fun m =>
    match decisions m with
    | [] => (Ok true, m)
    | TimerFired :: rest => (Ok true, set_decisions rest m)
    | Typed line :: rest => (Ok (is_yes line), set_decisions rest m)
    end.

Definition confirm (action : string) (detail : option json) (auto_yes : bool)
  : M bool :=
  run log_gate action detail auto_yes in
  if auto_yes then ret true
  else run lift (dialog_text detail) in await_decision.

(** The other two programs have no timer: the prompt waits for a line. *)
Fixpoint next_line (ds : list Decision) : option (string * list Decision) :=
  match ds with
  | [] => None
  | Typed line :: rest => Some (line, rest)
  | TimerFired :: rest => next_line rest
  end.

Definition await_line : M bool :=
  fun m =>
    match next_line (decisions m) with
    | Some (line, rest) => (Ok (is_yes line), set_decisions rest m)
    | None => (Stall, m)
    end.

Definition confirm_waiting (action : string) (detail : option json)
  (auto_yes : bool) : M bool :=
  run log_gate action detail auto_yes in
  if auto_yes then ret true else await_line.

(** ** Configuration and message texts *)

Record Config : Type := mkConfig {
  api_key : string;
  auto_yes : bool;
  system_prompt : string;
  autopilot : bool;
  autopilot_steps : Z;
  autopilot_done_tag : string
}.

(** The three programs word their messages differently. *)
Record Texts : Type := mkTexts {
  tx_dir_missing : string;
  tx_dir_error : string;
  tx_file_missing : string;
  tx_truncated : nat -> string;
  tx_read_error : string;
  tx_write_action : string -> string;
  tx_write_cancelled : string;
  tx_create_action : string;
  tx_create_cancelled : string;
  tx_written : string -> nat -> string;
  tx_write_error : string;
  tx_shell_action : string;
  tx_shell_cancelled : string;
  tx_shell_done : string;
  tx_url_required : string;
  tx_http_action : string;
  tx_http_cancelled : string;
  tx_http_truncated : nat -> string;
  tx_http_content_type : bool;
  tx_http_error : string;
  tx_query_required : string;
  tx_search_action : string;
  tx_search_detail : json -> json;
  tx_search_cancelled : string;
  tx_no_results : string;
  tx_search_error : string;
  tx_steps_empty : string;
  tx_unknown_step : nat -> string;
  tx_unknown_tool : string;
  tx_no_key : string;
  tx_api_status : Z -> string -> string;
  tx_network : string
}.

Definition READ_LIMIT : nat := 50000.
Arguments READ_LIMIT : simpl never.

(** ** Tool handlers *)

(** The [diff] package is not part of the repository.  Its [formatPatch]
    writes this header before the hunks whether or not the two texts
    differ; the hunks themselves are left to the runtime. *)
Definition patch_rule : string :=
  "===================================================================".

Definition createTwoFilesPatch (rt : Runtime)
  (oldFileName newFileName oldStr newStr oldHeader newHeader : string)
  : string :=
  (if oldFileName =? newFileName
   then "Index: " ++ oldFileName ++ nl else EmptyString)
  ++ patch_rule ++ nl
  ++ "--- " ++ oldFileName ++ tab ++ oldHeader ++ nl
  ++ "+++ " ++ newFileName ++ tab ++ newHeader ++ nl
  ++ hunks rt oldStr newStr.

(** The package splits both texts into lines: anything but a string has no
    [split]. *)
Definition diff_input (v : option json) : Outcome string :=
  match v with
  | Some (JStr s) => Ok s
  | None =>
      Throw (TypeError "Cannot read properties of undefined (reading 'split')")
  | Some JNull =>
      Throw (TypeError "Cannot read properties of null (reading 'split')")
  | Some _ => Throw (TypeError "value.split is not a function")
  end.

(** [x === "s"] *)
Definition is_str (v : json) (s : string) : bool :=
  match v with JStr t => t =? s | _ => false end.

(** A parameter default applies to [undefined] only. *)
Definition default_to (v : option json) (d : json) : json :=
  match v with Some v => v | None => d end.

Section Handlers.
Context (rt : Runtime) (tx : Texts).
Context (ask : string -> option json -> bool -> M bool).

Definition listDir (p : option json) : M string :=
  try_catch
    (let* dir := path_resolve rt p in
     let* present := existsSync dir in
     if negb present then ret (tx_dir_missing tx ++ dir) else
     let* st := statSync dir in
     if negb (isDirectory st) then ret (tx_dir_missing tx ++ dir) else
     let* names := readdirSync rt dir in
     let* files := inspect fs in
     ret (join nl
            (sort_strings
               (List.map
                  (fun n => match files !! path_join rt dir n with
                            | Some Dir => n ++ "/"
                            | _ => n
                            end) names))))
    (fun e => ret (tx_dir_error tx ++ err_message e)).

Definition readFile (p : option json) : M string :=
  try_catch
    (let* file := path_resolve rt p in
     let* present := existsSync file in
     if negb present then ret (tx_file_missing tx ++ file) else
     let* st := statSync file in
     if negb (isFile st) then ret (tx_file_missing tx ++ file) else
     let* data := readFileSync file in
     ret (if (READ_LIMIT <? String.length data)%nat
          then str_take READ_LIMIT data
                 ++ tx_truncated tx (String.length data)
          else data))
    (fun e => ret (tx_read_error tx ++ err_message e)).

Definition writeFile (p content : option json) (auto : bool) : M string :=
  try_catch
    (let* file := path_resolve rt p in
     let* present := existsSync file in
     let* old := (if present then readFileSync file else ret EmptyString) in
     let* text := lift (diff_input content) in
     let diff := createTwoFilesPatch rt file file old text "Old" "New" in
     let* refusal :=
       (if negb (js_trim diff =? "") && (100 <? String.length diff)%nat
        then
          let* ok := ask (tx_write_action tx file)
                       (Some (JStr (str_take 3000 diff))) auto in
          ret (if ok then None else Some (tx_write_cancelled tx))
        else
          let* still := existsSync file in
          if negb still
          then
            let* ok := ask (tx_create_action tx) (Some (JStr file)) auto in
            ret (if ok then None else Some (tx_create_cancelled tx))
          else ret None) in
     match refusal with
     | Some msg => ret msg
     | None =>
         run mkdirSync (dirname rt file) in
         run writeFileSync rt file text in
         ret (tx_written tx file (String.length text))
     end)
    (fun e => ret (tx_write_error tx ++ err_message e)).

Definition shell_output (r : ExecResult) : string :=
  let out :=
    List.app
      (if exec_stdout r =? "" then []
       else ["STDOUT:" ++ nl ++ js_trim (exec_stdout r)])
      (List.app
         (if exec_stderr r =? "" then []
          else ["STDERR:" ++ nl ++ js_trim (exec_stderr r)])
         (match exec_code r with
          | Some c => ["EXIT CODE: " ++ c]
          | None => []
          end)) in
  let text := join (nl ++ nl) out in
  if text =? "" then tx_shell_done tx else text.

(** [exec] validates its command: anything but a string throws. *)
Definition run_exec (cmd : option json) : M ExecResult :=
  match cmd with
  | Some (JStr c) =>
      fun m => let (r, f) := exec rt c (fs m) in (Ok r, tick (set_fs f m))
  | _ => throw (not_a_string "command" cmd)
  end.

Definition runShell (cmd : option json) (auto : bool) : M string :=
  let* ok := ask (tx_shell_action tx) cmd auto in
  if negb ok then ret (tx_shell_cancelled tx) else
  let* r := run_exec cmd in
  ret (shell_output r).

Definition do_fetch (req : FetchRequest) : M FetchOutcome :=
  fun m => (Ok (fetch rt req (clock m)), tick m).

Definition httpRequest (args : json) (auto : bool) : M string :=
  let* url := lift (js_prop args "url") in
  let* method_ := lift (js_prop args "method") in
  let* headers := lift (js_prop args "headers") in
  let* body := lift (js_prop args "body") in
  let method_ := default_to method_ (JStr "GET") in
  let headers := default_to headers (JObj []) in
  let body := default_to body (JStr EmptyString) in
  match url with
  | None => ret (tx_url_required tx)
  | Some url =>
      if negb (truthy url) then ret (tx_url_required tx) else
      let* ok := ask (tx_http_action tx)
                   (Some (JStr (js_to_string method_ ++ " "
                                  ++ js_to_string url))) auto in
      if negb ok then ret (tx_http_cancelled tx) else
      let* res :=
        do_fetch (mkRequest url method_ headers
                    (if truthy body && negb (is_str method_ "GET")
                        && negb (is_str method_ "HEAD")
                     then Some body else None)) in
      match res with
      | FetchResponse status statusText hs data =>
          let data :=
            if (READ_LIMIT <? String.length data)%nat
            then str_take READ_LIMIT data
                   ++ tx_http_truncated tx (String.length data)
            else data in
          ret (join (nl ++ nl)
                 (List.app
                    ["STATUS: " ++ string_of_Z status ++ " " ++ statusText;
                     "HEADERS: "
                       ++ stringify rt
                            (JObj (List.map
                                     (fun kv => (fst kv, JStr (snd kv)))
                                     hs))]
                    (List.app
                       (if tx_http_content_type tx
                        then ["CONTENT-TYPE: "
                                ++ match obj_get hs "content-type" with
                                   | Some t => t
                                   | None => EmptyString
                                   end]
                        else [])
                       ["BODY:" ++ nl ++ data])))
      | FetchError e =>
          ret (tx_http_error tx
                 ++ (if err_name e =? "AbortError" then "Timeout"
                     else err_message e))
      end
  end.

(** [results.length >= max_results] *)
Definition limit_reached (count : nat) (max_results : json) : bool :=
  match max_results with
  | JNum z => (z <=? Z.of_nat count)%Z
  | v => match to_number rt v with
         | Some z => (z <=? Z.of_nat count)%Z
         | None => false
         end
  end.

(** The scan of the result page stops once the limit is reached, which
    is tested after a link has been kept. *)
Fixpoint keep_links (max_results : json) (links : list json) (kept : nat)
  : list json :=
  match links with
  | [] => []
  | l :: rest =>
      l :: (if limit_reached (S kept) max_results then []
            else keep_links max_results rest (S kept))
  end.

Definition webSearch (args : json) (auto : bool) : M string :=
  let* query := lift (js_prop args "query") in
  let* max_results := lift (js_prop args "max_results") in
  let max_results := default_to max_results (JNum 5) in
  match query with
  | None => ret (tx_query_required tx)
  | Some query =>
      if negb (truthy query) then ret (tx_query_required tx) else
      let url := "https://duckduckgo.com/html/?q="
                   ++ encodeURIComponent rt (js_to_string query) in
      let* ok := ask (tx_search_action tx)
                   (Some (tx_search_detail tx query)) auto in
      if negb ok then ret (tx_search_cancelled tx) else
      let* res :=
        do_fetch (mkRequest (JStr url) (JStr "GET")
                    (JObj [("User-Agent", JStr "meowcli/1.0")]) None) in
      match res with
      | FetchResponse _ _ _ html =>
          let results := keep_links max_results (result_links rt html) 0 in
          ret (match results with
               | [] => tx_no_results tx
               | _ => stringify rt (JArr results)
               end)
      | FetchError e => ret (tx_search_error tx ++ err_message e)
      end
  end.
End Handlers.

(** ** Shared pieces of the three programs *)

Definition user_message (input : string) : json :=
  JObj [("role", JStr "user"); ("content", JStr input)].

Definition system_message (cfg : Config) : json :=
  JObj [("role", JStr "system"); ("content", JStr (system_prompt cfg))].

(** [{ role: "tool", tool_call_id: id, content: result }]; a member whose
    value is [undefined] is not part of the JSON text of the message. *)
Definition tool_message (id : option json) (result : string) : json :=
  JObj (List.app [("role", JStr "tool")]
          (List.app
             (match id with Some i => [("tool_call_id", i)] | None => [] end)
             [("content", JStr result)])).

(** [{ step: i, tool, result }] *)
Definition chain_entry (i : nat) (tool : option json) (result : string)
  : json :=
  JObj (List.app [("step", JNum (Z.of_nat i))]
          (List.app
             (match tool with Some t => [("tool", t)] | None => [] end)
             [("result", JStr result)])).

Definition push (msg : json) : M unit :=
  modify (fun m => set_conv (List.app (conv m) [msg]) m).

(** [messages.pop()] *)
Definition pop : M unit :=
  modify (fun m => set_conv (removelast (conv m)) m).

(** [msg.tool_calls.length], and [msg.tool_calls[i]]. *)
Definition js_length (v : json) : option json :=
  match v with
  | JArr items => Some (JNum (Z.of_nat (List.length items)))
  | JStr s => Some (JNum (Z.of_nat (String.length s)))
  | JObj fields => obj_get fields "length"
  | _ => None
  end.

Definition js_item (v : json) (i : nat) : option json :=
  match v with
  | JArr items => nth_error items i
  | JStr s =>
      match String.get i s with
      | Some c => Some (JStr (String c EmptyString))
      | None => None
      end
  | JObj fields => obj_get fields (string_of_nat i)
  | _ => None
  end.

(** [renderMD(msg.content || "").trim()], as far as the text goes: a
    content that is truthy and no string comes back from [renderMD] as it
    is, and has no [trim]. *)
Definition content_text (msg : option json) : Outcome string :=
  match js_prop_opt msg "content" with
  | Ok (Some (JStr s)) => Ok s
  | Ok (Some v) =>
      if truthy v
      then Throw (TypeError "renderMD(...).trim is not a function")
      else Ok EmptyString
  | Ok None => Ok EmptyString
  | Throw e => Throw e
  | Stall => Stall
  end.

Section Protocol.
Context (rt : Runtime) (tx : Texts).

(** [for (i = 0; i < v.length; i++)]: how many times the body runs. *)
Definition loop_count (v : json) : nat :=
  match js_length v with
  | Some (JNum n) => Z.to_nat n
  | Some w => match to_number rt w with
              | Some n => Z.to_nat n
              | None => 0
              end
  | None => 0
  end.

(** [try { args = JSON.parse(text) } catch { args = {} }] *)
Definition decode_arguments (text : option json) : json :=
  match parse rt (js_to_string_opt text) with
  | Some v => v
  | None => JObj []
  end.

(** A request takes the next outcome of the script of the endpoint.  The
    script is finite, and a request made after its end fails as one to an
    unreachable endpoint does: a run in the model makes finitely many
    requests, and says nothing of an endpoint that answers with tool
    calls for ever. *)
Definition callApi (cfg : Config) : M json :=
  if api_key cfg =? "" then throw (SystemError (tx_no_key tx)) else
  fun m =>
    match remote m with
    | ApiReply data :: rest => (Ok data, set_remote rest m)
    | ApiStatus status body :: rest =>
        (Throw (SystemError (tx_network tx ++ tx_api_status tx status body)),
         set_remote rest m)
    | ApiUnreachable msg :: rest =>
        (Throw (SystemError (tx_network tx ++ msg)), set_remote rest m)
    | [] => (Throw (SystemError (tx_network tx ++ "fetch failed")), m)
    end.

(** [data.choices[0].message] *)
Definition first_message (data : json) : Outcome (option json) :=
  match js_prop data "choices" with
  | Ok choices =>
      match js_first choices with
      | Ok choice => js_prop_opt choice "message"
      | Throw e => Throw e
      | Stall => Stall
      end
  | Throw e => Throw e
  | Stall => Stall
  end.

(** [messages.filter(m => m.role !== "system")] *)
Fixpoint without_system (msgs : list json) : Outcome (list json) :=
  match msgs with
  | [] => Ok []
  | x :: rest =>
      match js_prop x "role" with
      | Ok role =>
          match without_system rest with
          | Ok kept =>
              Ok (if match role with
                     | Some r => is_str r "system"
                     | None => false
                     end
                  then kept else x :: kept)
          | other => other
          end
      | Throw e => Throw e
      | Stall => Stall
      end
  end.
End Protocol.

(** * The first program of [src/index.js]: sessions and seven tools *)

Module Sessions.

Definition texts : Texts := {|
  tx_dir_missing := "❌ Directory not found: ";
  tx_dir_error := "❌ Error: ";
  tx_file_missing := "❌ File not found: ";
  tx_truncated := fun n =>
    nl ++ "...[TRUNCATED: " ++ string_of_nat n ++ " bytes]...";
  tx_read_error := "❌ Read error: ";
  tx_write_action := fun file => "Write file: " ++ file;
  tx_write_cancelled := "❌ Write cancelled.";
  tx_create_action := "Create new file";
  tx_create_cancelled := "❌ Creation cancelled.";
  tx_written := fun file n =>
    "✅ Written: " ++ file ++ " (" ++ string_of_nat n ++ " bytes)";
  tx_write_error := "❌ Write error: ";
  tx_shell_action := "Shell command";
  tx_shell_cancelled := "❌ Cancelled.";
  tx_shell_done := "✅ Done (no output).";
  tx_url_required := "❌ Error: url required";
  tx_http_action := "HTTP Request";
  tx_http_cancelled := "❌ Cancelled.";
  tx_http_truncated := fun _ => nl ++ "...[TRUNCATED]...";
  tx_http_content_type := false;
  tx_http_error := "❌ HTTP Error: ";
  tx_query_required := "❌ Error: query required";
  tx_search_action := "Web Search";
  tx_search_detail := fun query => query;
  tx_search_cancelled := "❌ Cancelled.";
  tx_no_results := "ℹ No results.";
  tx_search_error := "❌ Search error: ";
  tx_steps_empty := "❌ Error: steps empty";
  tx_unknown_step := fun _ => EmptyString;
  tx_unknown_tool := "❌ Unknown tool: ";
  tx_no_key := "API Key not set. Use /key or set OPENAI_API_KEY.";
  tx_api_status := fun status body =>
    "API " ++ string_of_Z status ++ ": " ++ str_take 300 body;
  tx_network := "Network error: "
|}.

Section Program.
Context (rt : Runtime).

(** [(name || "").replace(/^proxy_/, "")] *)
Definition cleanName (name : option json) : Outcome string :=
  match name with
  | None => Ok EmptyString
  | Some v =>
      if truthy v
      then match v with
           | JStr s => Ok (replace_prefix "proxy_" s)
           | _ => Throw (TypeError "(name || '').replace is not a function")
           end
      else Ok EmptyString
  end.

(** The loop of [toolChain], for a given way of running one tool. *)
Fixpoint chain_steps (run_tool : option json -> json -> M string)
  (steps : list json) (i : nat) : M (list json) :=
  match steps with
  | [] => ret []
  | s :: rest =>
      let step := or_else (Some s) (JObj []) in
      let* tool := lift (js_prop step "tool") in
      let* a := lift (js_prop step "args") in
      let* result := run_tool tool (or_else a (JObj [])) in
      let* more := chain_steps run_tool rest (S i) in
      ret (chain_entry i tool result :: more)
  end.

Definition toolChain_with (run_tool : option json -> json -> M string)
  (steps : option json) : M string :=
  match steps with
  | Some (JArr (s :: rest)) =>
      let* outputs := chain_steps run_tool (s :: rest) 1 in
      ret (stringify rt (JArr outputs))
  | _ => ret (tx_steps_empty texts)
  end.

(** The body of [executeTool], for a given [toolChain]. *)
Definition executeTool_with (chain : option json -> Config -> M string)
  (name : option json) (args : json) (cfg : Config) : M string :=
  let* clean := lift (cleanName name) in
  if clean =? "list_dir" then
    let* p := lift (js_prop args "path") in listDir rt texts p
  else if clean =? "read_file" then
    let* p := lift (js_prop args "path") in readFile rt texts p
  else if clean =? "write_file" then
    let* p := lift (js_prop args "path") in
    let* c := lift (js_prop args "content") in
    writeFile rt texts confirm p c (auto_yes cfg)
  else if clean =? "run_shell" then
    let* c := lift (js_prop args "cmd") in
    runShell rt texts confirm c (auto_yes cfg)
  else if clean =? "http_request" then
    httpRequest rt texts confirm args (auto_yes cfg)
  else if clean =? "web_search" then
    webSearch rt texts confirm args (auto_yes cfg)
  else if clean =? "tool_chain" then
    let* steps := lift (js_prop args "steps") in chain steps cfg
  else ret (tx_unknown_tool texts ++ js_to_string_opt name).

(** [executeTool] and [toolChain] call each other; a chain nested in a
    chain sits deeper in the arguments, so the recursion is on a bound
    [n] of that depth. *)
Fixpoint executeTool_upto (n : nat) (name : option json) (args : json)
  (cfg : Config) : M string :=
  executeTool_with
    (fun steps cfg' =>
       toolChain_with
         (match n with
          | S n' => fun tool a => executeTool_upto n' tool a cfg'
          | O => fun _ _ => ret EmptyString
          end) steps)
    name args cfg.

Definition executeTool (name : option json) (args : json) (cfg : Config)
  : M string :=
  executeTool_upto (json_depth args) name args cfg.

Definition toolChain (steps : option json) (cfg : Config) : M string :=
  toolChain_with (fun tool a => executeTool tool a cfg) steps.

(** One tool call of the batch. *)
Definition run_call (call : option json) (cfg : Config) : M unit :=
  let* fn := lift (js_prop_opt call "function") in
  let* name := lift (js_prop_opt fn "name") in
  let* text := lift (js_prop_opt fn "arguments") in
  let args := decode_arguments rt text in
  let* result := executeTool name args cfg in
  let* id := lift (js_prop_opt call "id") in
  push (tool_message id result).

Fixpoint run_calls (calls : json) (count i : nat) (cfg : Config) : M unit :=
  match count with
  | O => ret tt
  | S count' =>
      run run_call (js_item calls i) cfg in
      run_calls calls count' (S i) cfg
  end.

Definition handleTools (msg : option json) (cfg : Config) : M bool :=
  let* calls := lift (js_prop_opt msg "tool_calls") in
  match calls with
  | None => ret false
  | Some calls =>
      if negb (truthy calls) then ret false else
      match js_length calls with
      | Some (JNum 0) => ret false
      | _ =>
          run push (default_to msg JNull) in
          run run_calls calls (loop_count rt calls) 0 cfg in
          ret true
      end
  end.
End Program.

(** ** Well-formed tool calls

    The handlers of [run_shell] and [web_search] hand an argument to the
    dialog or to [exec] without looking at it.  A call is well formed when
    its tool is a string or missing, a shell command is a string, a search
    query is a string or a list when there is one, and the steps of a
    chain are well formed in turn. *)

Definition shell_ready (cmd : option json) : bool :=
  match cmd with Some (JStr _) => true | _ => false end.

Definition search_ready (query : option json) : bool :=
  match query with
  | None => true
  | Some (JStr _) | Some (JArr _) => true
  | Some q => negb (truthy q)
  end.

Definition prop_or_none (v : json) (k : string) : option json :=
  match js_prop v k with Ok o => o | _ => None end.

Fixpoint call_ok (n : nat) (name : option json) (args : json) : bool :=
  match args, cleanName name with
  | JNull, _ => false
  | _, Ok clean =>
      if clean =? "run_shell" then shell_ready (prop_or_none args "cmd")
      else if clean =? "web_search"
      then search_ready (prop_or_none args "query")
      else if clean =? "tool_chain" then
        match prop_or_none args "steps" with
        | Some (JArr (s :: rest)) =>
            match n with
            | S n' =>
                forallb
                  (fun s =>
                     let step := or_else (Some s) (JObj []) in
                     call_ok n' (prop_or_none step "tool")
                       (or_else (prop_or_none step "args") (JObj [])))
                  (s :: rest)
            | O => false
            end
        | _ => true
        end
      else true
  | _, _ => false
  end.

Definition well_formed (name : option json) (args : json) : bool :=
  call_ok (json_depth args) name args.

Definition step_tool (s : json) : option json :=
  prop_or_none (or_else (Some s) (JObj [])) "tool".

Definition step_args (s : json) : json :=
  or_else (prop_or_none (or_else (Some s) (JObj [])) "args") (JObj []).

Definition well_formed_step (s : json) : bool :=
  well_formed (step_tool s) (step_args s).

(** The steps of a chain run one after the other, each on the machine the
    one before left, and each leaves its entry. *)
Inductive chain_run (run_tool : option json -> json -> M string)
  : list json -> nat -> Machine -> list json -> Machine -> Prop :=
| chain_end i m : chain_run run_tool [] i m [] m
| chain_step s rest i m result m1 outputs m2 :
    run_tool (step_tool s) (step_args s) m = (Ok result, m1) ->
    chain_run run_tool rest (S i) m1 outputs m2 ->
    chain_run run_tool (s :: rest) i m
      (chain_entry i (step_tool s) result :: outputs) m2.

(** The names [executeTool] knows. *)
Definition registered : list string :=
  ["list_dir"; "read_file"; "write_file"; "run_shell"; "http_request";
   "web_search"; "tool_chain"].

(** ** The session store *)

Definition Chat : Type := list json.

(** The history state: [current] is [None] when the member is missing. *)
Record HistoryState : Type := mkState {
  current : option string;
  chats : list (string * Chat)
}.

(** The variables of [main] beside the conversation array, which lives in
    the machine. *)
Record Session : Type := mkSession {
  historyState : HistoryState;
  currentChat : string;
  history : Chat
}.

Definition encode_chats (c : list (string * Chat)) : json :=
  JObj (List.map (fun kv => (fst kv, JArr (snd kv))) c).

(** The JSON value of a history state. *)
Definition encode (st : HistoryState) : json :=
  JObj (List.app
          (match current st with
           | Some c => [("current", JStr c)]
           | None => []
           end)
          [("chats", encode_chats (chats st))]).

(** An object whose values are all arrays, as a chats mapping. *)
Fixpoint typed_chats (fields : list (string * json))
  : option (list (string * Chat)) :=
  match fields with
  | [] => Some []
  | (k, JArr msgs) :: rest =>
      match typed_chats rest with
      | Some c => Some ((k, msgs) :: c)
      | None => None
      end
  | _ => None
  end.

Definition fallback : HistoryState :=
  mkState (Some "default") [("default", [])].

(** [data.chats && typeof data.chats === "object" ? data.chats : {}];
    [None] when the member is outside the modelled shape. *)
Definition chats_member (v : option json) : option (list (string * Chat)) :=
  match v with
  | Some (JObj fields) => typed_chats fields
  | Some (JArr _) => None
  | _ => Some []
  end.

(** [data.current || "default"] *)
Definition current_member (v : option json) : option string :=
  match v with
  | None => Some "default"
  | Some (JStr s) => Some (if s =? "" then "default" else s)
  | Some w => if truthy w then None else Some "default"
  end.

(** The body of [loadHistoryState] on the loaded data.  The result is
    [None] for a file outside the modelled shape: a [current] that is not
    a string, or a chat that is not an array. *)
Definition history_of (data : json) : option HistoryState :=
  match data with
  | JArr msgs => Some (mkState (Some "default") [("default", msgs)])
  | JObj fields =>
      match chats_member (obj_get fields "chats"),
            current_member (obj_get fields "current") with
      | Some c, Some cur =>
          Some (mkState (Some cur)
                  (if has_member c cur then c else obj_set c cur []))
      | _, _ => None
      end
  | _ => Some fallback
  end.

(** [historyState = data] in the import handler, for [data] of the
    modelled shape. *)
Definition imported_state (data : json) : option HistoryState :=
  match data with
  | JObj fields =>
      match obj_get fields "chats" with
      | Some (JObj c) =>
          match typed_chats c, obj_get fields "current" with
          | Some c, None => Some (mkState None c)
          | Some c, Some (JStr cur) => Some (mkState (Some cur) c)
          | _, _ => None
          end
      | _ => None
      end
  | _ => None
  end.

(** [historyState.current || "default"] *)
Definition current_or_default (st : HistoryState) : string :=
  match current st with
  | Some c => if c =? "" then "default" else c
  | None => "default"
  end.

(** The property name [historyState.current] stands for in
    [chats[historyState.current]]. *)
Definition current_key (st : HistoryState) : string :=
  match current st with Some c => c | None => "undefined" end.

(** [current] names a chat of the mapping. *)
Definition resolves (st : HistoryState) : bool :=
  match current st with
  | Some c => obj_has (chats st) c
  | None => false
  end.

(** The least name in code unit order. *)
Definition lexicographically_first (names : list string) : option string :=
  head (sort_strings names).

(** [chats[name] || []] *)
Definition chat_or_empty (c : list (string * Chat)) (name : string) : Chat :=
  match obj_get c name with Some h => h | None => [] end.

Fixpoint first_free (c : list (string * Chat)) (fuel i : nat) : nat :=
  match fuel with
  | O => i
  | S fuel' =>
      if obj_has c ("chat-" ++ string_of_nat i)
      then first_free c fuel' (S i)
      else i
  end.

(** [makeChatName]: the first of chat-1, chat-2, ... that is not taken; one
    of the first [length chats + 1] candidates is free. *)
Definition makeChatName (st : HistoryState) : string :=
  "chat-" ++ string_of_nat
               (first_free (chats st) (S (List.length (chats st))) 1).

Section Store.
Context (rt : Runtime).

Definition saveJson (file : string) (data : json) : M unit :=
  try_catch (writeFileSync rt file (stringify rt data)) (fun _ => ret tt).

Definition loadJson (file : string) (fallback : json) : M json :=
  try_catch
    (let* present := existsSync file in
     if present
     then
       let* text := readFileSync file in
       match parse rt text with
       | Some v => ret v
       | None => throw (mkError "SyntaxError" "Unexpected token in JSON")
       end
     else ret fallback)
    (fun _ => ret fallback).

Definition saveHistoryState (st : HistoryState) : M unit :=
  saveJson (HIST_FILE rt) (encode st).

Definition loadHistoryState : M (option HistoryState) :=
  let* data := loadJson (HIST_FILE rt) (encode fallback) in
  ret (history_of data).

Definition set_messages (msgs : list json) : M unit :=
  modify (set_conv msgs).

(** The first statements of [main].  A current chat that is an inherited
    member is no array, and spreading it into the messages throws. *)
Definition start (cfg : Config) : M (option Session) :=
  let* loaded := loadHistoryState in
  match loaded with
  | None => ret None
  | Some st =>
      let key := current_key st in
      let c := if has_member (chats st) key then chats st
               else obj_set (chats st) key [] in
      if negb (obj_has c key) then throw (not_iterable "history") else
      let h := chat_or_empty c key in
      run set_messages (system_message cfg :: h) in
      ret (Some (mkSession (mkState (current st) c) key h))
  end.

(** [/clear] *)
Definition clear (cfg : Config) (s : Session) : M Session :=
  run set_messages [system_message cfg] in
  let st := mkState (current (historyState s))
              (obj_set (chats (historyState s)) (currentChat s) []) in
  run saveHistoryState st in
  ret (mkSession st (currentChat s) []).

(** [/chat new name]; [name] is empty when none was typed. *)
Definition chat_new (cfg : Config) (name : string) (s : Session)
  : M Session :=
  let st := historyState s in
  let newName := if name =? "" then makeChatName st else name in
  if has_member (chats st) newName then ret s else
  let st' := mkState (Some newName) (obj_set (chats st) newName []) in
  run set_messages [system_message cfg] in
  run saveHistoryState st' in
  ret (mkSession st' newName []).

(** [/chat use name].  An inherited member passes the test, is no array,
    and spreading it into the messages throws. *)
Definition chat_use (cfg : Config) (name : string) (s : Session)
  : M Session :=
  let st := historyState s in
  if name =? "" then ret s else
  if negb (has_member (chats st) name) then ret s else
  if negb (obj_has (chats st) name) then throw (not_iterable "history") else
  let st' := mkState (Some name) (chats st) in
  let h := chat_or_empty (chats st) name in
  run set_messages (system_message cfg :: h) in
  run saveHistoryState st' in
  ret (mkSession st' name h).

(** [names[0] || "default"] *)
Definition next_name (names : list string) : string :=
  match names with
  | k :: _ => if k =? "" then "default" else k
  | [] => "default"
  end.

(** [/chat delete name] *)
Definition chat_delete (cfg : Config) (name : string) (s : Session)
  : M Session :=
  let st := historyState s in
  if name =? "" then ret s else
  if negb (has_member (chats st) name) then ret s else
  let remaining := obj_delete (chats st) name in
  if match current st with Some c => c =? name | None => false end
  then
    let next := next_name (Object_keys remaining) in
    let c := if has_member remaining next then remaining
             else obj_set remaining next [] in
    let h := chat_or_empty c next in
    let st' := mkState (Some next) c in
    run set_messages (system_message cfg :: h) in
    run saveHistoryState st' in
    ret (mkSession st' next h)
  else
    let st' := mkState (current st) remaining in
    run saveHistoryState st' in
    ret (mkSession st' (currentChat s) (history s)).

(** The export has a place to write to, and what it writes can be read
    back: a file with both modes, or a new file in an existing directory. *)
Definition exportable (file : string) (m : Machine) : bool :=
  match fs m !! file with
  | Some (File true true _) => true
  | Some _ => false
  | None => match fs m !! dirname rt file with
            | Some Dir => true
            | _ => false
            end
  end.

(** [/export file] *)
Definition export (file : string) (s : Session) : M Session :=
  if file =? "" then ret s else
  run try_catch
        (writeFileSync rt file (stringify rt (encode (historyState s))))
        (fun _ => ret tt) in
  ret s.

(** [/import file].  The result is [None] when the file holds a value
    with a [chats] member outside the modelled shape. *)
Definition import (cfg : Config) (file : string) (s : Session)
  : M (option Session) :=
  if file =? "" then ret (Some s) else
  try_catch
    (let* text := readFileSync file in
     match parse rt text with
     | None => throw (mkError "SyntaxError" "Unexpected token in JSON")
     | Some data =>
         let* c := lift (js_prop data "chats") in
         if negb (truthy_opt c) then ret (Some s) else
         match imported_state data with
         | None => ret None
         | Some st =>
             let cur := current_or_default st in
             let h := chat_or_empty (chats st) cur in
             run set_messages (system_message cfg :: h) in
             run saveHistoryState st in
             ret (Some (mkSession st cur h))
         end
     end)
    (fun _ => ret (Some s)).

(** ** The round of the agent loop *)

(** [while (true)] of the round: every turn of the loop takes one
    outcome of the endpoint, so [fuel] beyond their number is never
    used up. *)
Fixpoint converse (fuel : nat) (cfg : Config) : M (option json) :=
  match fuel with
  | O => lift Stall
  | S fuel' =>
      let* data := callApi texts cfg in
      let* msg := lift (first_message data) in
      let* toolLoop := handleTools rt msg cfg in
      if toolLoop then converse fuel' cfg else ret msg
  end.

(** An input that is no command: the user message is appended, the
    round runs, and either the answer is stored or the [catch] block
    takes one message off the conversation. *)
Definition ask_assistant (cfg : Config) (input : string) (s : Session)
  : M Session :=
  run push (user_message input) in
  try_catch
    (let* fuel := inspect (fun m => S (List.length (remote m))) in
     let* msg := converse fuel cfg in
     run lift (content_text msg) in
     run push (default_to msg JNull) in
     let* msgs := inspect conv in
     let* h := lift (without_system msgs) in
     let st := mkState (Some (currentChat s))
                 (obj_set (chats (historyState s)) (currentChat s) h) in
     run saveHistoryState st in
     ret (mkSession st (currentChat s) h))
    (fun _ => run pop in ret s).
End Store.

End Sessions.

(** * The programs without sessions

    [src/unnamed/part_000] and the second program of [src/index.js] word
    their messages in Russian, wait for a typed line at the confirmation
    prompt, and dispatch tool calls inside [handleTools]. *)

Definition texts_ru : Texts := {|
  tx_dir_missing := "❌ Ошибка: Директория не найдена: ";
  tx_dir_error := "❌ Ошибка: ";
  tx_file_missing := "❌ Ошибка: Файл не найден: ";
  tx_truncated := fun n =>
    nl ++ "...[ОБРЕЗАНО: " ++ string_of_nat n ++ " байт]...";
  tx_read_error := "❌ Ошибка чтения: ";
  tx_write_action := fun _ => "Запись файла";
  tx_write_cancelled := "❌ Запись отменена пользователем.";
  tx_create_action := "Создание нового файла";
  tx_create_cancelled := "❌ Создание отменено пользователем.";
  tx_written := fun file n =>
    "✅ Файл записан: " ++ file ++ " (" ++ string_of_nat n ++ " байт)";
  tx_write_error := "❌ Ошибка записи: ";
  tx_shell_action := "Запуск команды Shell";
  tx_shell_cancelled := "❌ Запуск отменен пользователем.";
  tx_shell_done := "✅ Команда выполнена (нет вывода).";
  tx_url_required := "❌ Ошибка: url не указан";
  tx_http_action := "HTTP-запрос";
  tx_http_cancelled := "❌ Запрос отменен пользователем.";
  tx_http_truncated := fun n =>
    nl ++ "...[ОБРЕЗАНО: " ++ string_of_nat n ++ " байт]...";
  tx_http_content_type := true;
  tx_http_error := "❌ Ошибка HTTP: ";
  tx_query_required := "❌ Ошибка: query не указан";
  tx_search_action := "Web search";
  tx_search_detail := fun query => JStr (js_to_string query);
  tx_search_cancelled := "❌ Поиск отменен пользователем.";
  tx_no_results := "ℹ Результатов не найдено.";
  tx_search_error := "❌ Ошибка поиска: ";
  tx_steps_empty := "❌ Ошибка: steps пуст";
  tx_unknown_step := fun i =>
    "❌ Неизвестный инструмент в шаге " ++ string_of_nat i ++ ": ";
  tx_unknown_tool := "❌ Неизвестный инструмент: ";
  tx_no_key :=
    "API Key не установлен. Используйте /config или установите OPENAI_API_KEY.";
  tx_api_status := fun status body =>
    "API Error (" ++ string_of_Z status ++ "): " ++ body;
  tx_network := "Сетевая ошибка: "
|}.

(** [name === "s"], for a name that may be [undefined]. *)
Definition named (name : option json) (s : string) : bool :=
  match name with Some v => is_str v s | None => false end.

Fixpoint chars (s : string) : list json :=
  match s with
  | EmptyString => []
  | String c r => JStr (String c EmptyString) :: chars r
  end.

(** What [for (const call of v)] iterates over. *)
Definition iterate (v : json) : Outcome (list json) :=
  match v with
  | JArr items => Ok items
  | JStr s => Ok (chars s)
  | _ => Throw (TypeError "msg.tool_calls is not iterable")
  end.

Section Inline.
Context (rt : Runtime).
Context (dispatch : option json -> json -> Config -> M string).

Definition run_call (call : json) (cfg : Config) : M unit :=
  let* fn := lift (js_prop call "function") in
  let* name := lift (js_prop_opt fn "name") in
  let* text := lift (js_prop_opt fn "arguments") in
  let args := decode_arguments rt text in
  let* result := dispatch name args cfg in
  let* id := lift (js_prop call "id") in
  push (tool_message id result).

Fixpoint run_calls (calls : list json) (cfg : Config) : M unit :=
  match calls with
  | [] => ret tt
  | call :: rest => run run_call call cfg in run_calls rest cfg
  end.

Definition handleTools (msg : option json) (cfg : Config) : M bool :=
  let* calls := lift (js_prop_opt msg "tool_calls") in
  match calls with
  | None => ret false
  | Some calls =>
      if negb (truthy calls) then ret false else
      match js_length calls with
      | Some (JNum 0) => ret false
      | _ =>
          run push (default_to msg JNull) in
          let* items := lift (iterate calls) in
          run run_calls items cfg in
          ret true
      end
  end.

Fixpoint converse (fuel : nat) (cfg : Config) : M (option json) :=
  match fuel with
  | O => lift Stall
  | S fuel' =>
      let* data := callApi texts_ru cfg in
      let* msg := lift (first_message data) in
      let* toolLoop := handleTools msg cfg in
      if toolLoop then converse fuel' cfg else ret msg
  end.

Definition saveHistory (msgs : list json) : M unit :=
  try_catch (writeFileSync rt (HIST_FILE rt) (stringify rt (JArr msgs)))
    (fun _ => ret tt).
End Inline.

(** ** [src/unnamed/part_000] *)

Module Chain.

(** A step is well formed when a shell command is a string: this program
    shows the command in its prompt as it is, and [exec] refuses anything
    else. *)
Definition step_ok (tool : option json) (args : json) : bool :=
  match args with
  | JNull => false
  | _ =>
      if named tool "run_shell"
      then Sessions.shell_ready (Sessions.prop_or_none args "cmd")
      else true
  end.

Section Program.
Context (rt : Runtime).

Definition run_step (i : nat) (tool : option json) (args : json)
  (cfg : Config) : M string :=
  if named tool "list_dir" then
    let* p := lift (js_prop args "path") in listDir rt texts_ru p
  else if named tool "read_file" then
    let* p := lift (js_prop args "path") in readFile rt texts_ru p
  else if named tool "write_file" then
    let* p := lift (js_prop args "path") in
    let* c := lift (js_prop args "content") in
    writeFile rt texts_ru confirm_waiting p c (auto_yes cfg)
  else if named tool "run_shell" then
    let* c := lift (js_prop args "cmd") in
    runShell rt texts_ru confirm_waiting c (auto_yes cfg)
  else if named tool "http_request" then
    httpRequest rt texts_ru confirm_waiting args (auto_yes cfg)
  else if named tool "web_search" then
    webSearch rt texts_ru confirm_waiting args (auto_yes cfg)
  else ret (tx_unknown_step texts_ru i ++ js_to_string_opt tool).

Fixpoint chain_steps (steps : list json) (i : nat) (cfg : Config)
  : M (list json) :=
  match steps with
  | [] => ret []
  | s :: rest =>
      let step := or_else (Some s) (JObj []) in
      let* tool := lift (js_prop step "tool") in
      let* a := lift (js_prop step "args") in
      let* result := run_step i tool (or_else a (JObj [])) cfg in
      let* more := chain_steps rest (S i) cfg in
      ret (chain_entry i tool result :: more)
  end.

Definition toolChain (steps : option json) (cfg : Config) : M string :=
  match steps with
  | Some (JArr (s :: rest)) =>
      let* outputs := chain_steps (s :: rest) 1 cfg in
      ret (stringify rt (JArr outputs))
  | _ => ret (tx_steps_empty texts_ru)
  end.

Definition dispatch (name : option json) (args : json) (cfg : Config)
  : M string :=
  if named name "list_dir" then
    let* p := lift (js_prop args "path") in listDir rt texts_ru p
  else if named name "read_file" then
    let* p := lift (js_prop args "path") in readFile rt texts_ru p
  else if named name "write_file" then
    let* p := lift (js_prop args "path") in
    let* c := lift (js_prop args "content") in
    writeFile rt texts_ru confirm_waiting p c (auto_yes cfg)
  else if named name "run_shell" then
    let* c := lift (js_prop args "cmd") in
    runShell rt texts_ru confirm_waiting c (auto_yes cfg)
  else if named name "http_request" then
    httpRequest rt texts_ru confirm_waiting args (auto_yes cfg)
  else if named name "web_search" then
    webSearch rt texts_ru confirm_waiting args (auto_yes cfg)
  else if named name "tool_chain" then
    let* steps := lift (js_prop args "steps") in toolChain steps cfg
  else ret (tx_unknown_tool texts_ru ++ js_to_string_opt name).

Definition handleTools : option json -> Config -> M bool :=
  handleTools rt dispatch.

(** An input that is no command. *)
Definition ask_assistant (cfg : Config) (input : string) : M unit :=
  run push (user_message input) in
  try_catch
    (let* fuel := inspect (fun m => S (List.length (remote m))) in
     let* msg := converse rt dispatch fuel cfg in
     run lift (content_text msg) in
     run push (default_to msg JNull) in
     let* msgs := inspect conv in
     let* h := lift (without_system msgs) in
     saveHistory rt h)
    (fun _ => pop).
End Program.
End Chain.

(** ** The second program of [src/index.js]: the autopilot *)

Module Autopilot.

(** Where a run of the autopilot ends. *)
Inductive Halt : Type := DONE | HALTED_MANUAL | HALTED_LIMIT.

(** [cfg.autopilot_steps || 5] *)
Definition maxSteps (cfg : Config) : Z :=
  if (autopilot_steps cfg =? 0)%Z then 5%Z else autopilot_steps cfg.

(** [cfg.autopilot_done_tag || "[DONE]"] *)
Definition doneTag (cfg : Config) : string :=
  if autopilot_done_tag cfg =? "" then "[DONE]" else autopilot_done_tag cfg.

Definition continuation (cfg : Config) : string :=
  "<AUTO> Продолжай выполнение задачи. Если всё завершено, ответь: "
    ++ doneTag cfg.

(** The round in which the sentinel first appears, counting from [k]. *)
Fixpoint first_with (tag : string) (replies : list string) (k : nat)
  : option nat :=
  match replies with
  | [] => None
  | r :: rest => if includes r tag then Some k else first_with tag rest (S k)
  end.

Definition sentinel_round (cfg : Config) (replies : list string)
  : option nat :=
  first_with (doneTag cfg) replies 1.

(** The transition rule of the controller as the specification words it,
    from [stepCount = steps] on: the replies of the rounds still made,
    and the state in which the run ends. *)
Inductive halts (cfg : Config) (force : bool)
  : Z -> Halt -> list string -> Prop :=
| halts_done steps r :
    includes r (doneTag cfg) = true ->
    halts cfg force steps DONE [r]
| halts_manual steps r :
    includes r (doneTag cfg) = false ->
    autopilot cfg || force = false ->
    halts cfg force steps HALTED_MANUAL [r]
| halts_limit steps r :
    includes r (doneTag cfg) = false ->
    autopilot cfg || force = true ->
    (maxSteps cfg <= steps + 1)%Z ->
    halts cfg force steps HALTED_LIMIT [r]
| halts_continue steps r halt rest :
    includes r (doneTag cfg) = false ->
    autopilot cfg || force = true ->
    (steps + 1 < maxSteps cfg)%Z ->
    halts cfg force (steps + 1) halt rest ->
    halts cfg force steps halt (r :: rest).

Section Loop.
(** The loop of [runAutopilot] for a given exchange with the assistant.
    Beside what the source computes, the model returns where the run
    ended and the replies of its rounds, in order.  The loop makes at
    most [maxSteps] rounds, so [fuel] of that size is never used up. *)
Context (send : string -> M string).

Fixpoint autopilot_rounds (fuel : nat) (cfg : Config) (force : bool)
  (steps : Z) (next : string) (replies : list string)
  : M (Halt * list string) :=
  let* reply := send next in
  let replies := List.app replies [reply] in
  if includes reply (doneTag cfg) then ret (DONE, replies) else
  if negb (autopilot cfg || force) then ret (HALTED_MANUAL, replies) else
  let steps := (steps + 1)%Z in
  if (maxSteps cfg <=? steps)%Z then ret (HALTED_LIMIT, replies) else
  match fuel with
  | O => lift Stall
  | S fuel' =>
      autopilot_rounds fuel' cfg force steps (continuation cfg) replies
  end.

Definition runAutopilot_with (goal : string) (cfg : Config) (force : bool)
  : M (Halt * list string) :=
  autopilot_rounds (Z.to_nat (maxSteps cfg)) cfg force 0%Z goal [].

(** The rounds as the specification counts them: [n] exchanges with the
    assistant one after the other, the first with [next] and each later
    one with the continuation prompt, and the replies they return. *)
Fixpoint rounds (n : nat) (cfg : Config) (next : string)
  : M (list string) :=
  match n with
  | O => ret []
  | S n' =>
      let* reply := send next in
      let* rest := rounds n' cfg (continuation cfg) in
      ret (reply :: rest)
  end.
End Loop.


Section Program.
Context (rt : Runtime).

Definition dispatch (name : option json) (args : json) (cfg : Config)
  : M string :=
  if named name "list_dir" then
    let* p := lift (js_prop args "path") in listDir rt texts_ru p
  else if named name "read_file" then
    let* p := lift (js_prop args "path") in readFile rt texts_ru p
  else if named name "write_file" then
    let* p := lift (js_prop args "path") in
    let* c := lift (js_prop args "content") in
    writeFile rt texts_ru confirm_waiting p c (auto_yes cfg)
  else if named name "run_shell" then
    let* c := lift (js_prop args "cmd") in
    runShell rt texts_ru confirm_waiting c (auto_yes cfg)
  else ret (tx_unknown_tool texts_ru ++ js_to_string_opt name).

Definition handleTools : option json -> Config -> M bool :=
  handleTools rt dispatch.

Definition sendToAssistant (cfg : Config) (input : string) : M string :=
  run push (user_message input) in
  try_catch
    (let* fuel := inspect (fun m => S (List.length (remote m))) in
     let* msg := converse rt dispatch fuel cfg in
     let* reply := lift (content_text msg) in
     run push (default_to msg JNull) in
     ret reply)
    (fun _ => run pop in ret EmptyString).

Definition runAutopilot (goal : string) (cfg : Config) (force : bool)
  : M (Halt * list string) :=
  runAutopilot_with (sendToAssistant cfg) goal cfg force.

(** What [main] does with an input that is no command, and with
    [/auto goal] when [force] is set. *)
Definition ask_assistant (cfg : Config) (input : string) (force : bool)
  : M unit :=
  run runAutopilot input cfg force in
  let* msgs := inspect conv in
  let* h := lift (without_system msgs) in
  saveHistory rt h.
End Program.
End Autopilot.

(** * The helpers of the prompt loop

    [applyAliases], [renderTemplate], [parseKv] and [loadConfig] have the
    same body in the three programs. *)

(** What [\s] matches is what [trim] takes off. *)
Definition is_white (c : ascii) : bool := is_space c.

(** [s.slice(n)] *)
Fixpoint str_drop (n : nat) (s : string) : string :=
  match n, s with
  | S n', String _ r => str_drop n' r
  | _, _ => s
  end.

(** The first occurrence of [pat] in [s]: the text before it and the text
    after it. *)
Fixpoint find_first (pat s : string) : option (string * string) :=
  if String.prefix pat s
  then Some (EmptyString, str_drop (String.length pat) s)
  else match s with
       | EmptyString => None
       | String c r =>
           match find_first pat r with
           | Some (before, after) => Some (String c before, after)
           | None => None
           end
       end.

(** [s.indexOf(t)]; [None] is -1. *)
Definition index_of (t s : string) : option nat :=
  match find_first t s with
  | Some (before, _) => Some (String.length before)
  | None => None
  end.

(** What a replacement text stands for at a match of a string pattern:
    [$$] is a dollar sign, [$&] the match, [$`] the text before it and
    [$'] the text after it.  A pattern that is a string captures nothing,
    so every other [$] is itself. *)
Fixpoint substitution (matched before after repl : string) : string :=
  match repl with
  | EmptyString => EmptyString
  | String a t =>
      if Ascii.eqb a "$" then
        match t with
        | String c r =>
            if Ascii.eqb c "$"
            then String "$" (substitution matched before after r)
            else if Ascii.eqb c "&"
            then matched ++ substitution matched before after r
            else if Ascii.eqb c "`"
            then before ++ substitution matched before after r
            else if Ascii.eqb c "'"
            then after ++ substitution matched before after r
            else String a (substitution matched before after t)
        | EmptyString => String a EmptyString
        end
      else String a (substitution matched before after t)
  end.

(** [s.replace(pat, repl)] for a pattern that is a string: the first
    occurrence only. *)
Definition js_replace (s pat repl : string) : string :=
  match find_first pat s with
  | Some (before, after) =>
      before ++ substitution pat before after repl ++ after
  | None => s
  end.

(** [s.replaceAll(pat, repl)]: the occurrences from left to right, none
    overlapping another; [before] is the text already passed and [skip]
    what is left of the occurrence being replaced.  The empty pattern
    occurs before every character and at the end. *)
Fixpoint replaceAll_from (pat repl before : string) (skip : nat) (s : string)
  : string :=
  match skip with
  | S k =>
      match s with
      | String c r =>
          replaceAll_from pat repl (before ++ String c EmptyString) k r
      | EmptyString => EmptyString
      end
  | O =>
      if String.prefix pat s then
        substitution pat before (str_drop (String.length pat) s) repl
        ++ match s with
           | String c r =>
               (if pat =? "" then String c EmptyString else EmptyString)
               ++ replaceAll_from pat repl (before ++ String c EmptyString)
                    (String.length pat - 1) r
           | EmptyString => EmptyString
           end
      else
        match s with
        | String c r =>
            String c
              (replaceAll_from pat repl (before ++ String c EmptyString) 0 r)
        | EmptyString => EmptyString
        end
  end.

Definition js_replaceAll (s pat repl : string) : string :=
  replaceAll_from pat repl EmptyString 0 s.

(** [s.split(" ")] and the like: the pieces between the occurrences of a
    separator of one character. *)
Fixpoint split_on (sep : ascii) (s : string) : list string :=
  match s with
  | EmptyString => [EmptyString]
  | String c r =>
      if Ascii.eqb c sep then EmptyString :: split_on sep r
      else match split_on sep r with
           | p :: ps => String c p :: ps
           | [] => [String c EmptyString]
           end
  end.

(** [s.split(/\s+/)]: the pieces between the runs of white space; [in_run]
    tells that the separator before [s] has begun. *)
Fixpoint split_runs (in_run : bool) (s : string) : list string :=
  match s with
  | EmptyString => [EmptyString]
  | String c r =>
      if is_white c then
        if in_run then split_runs true r
        else EmptyString :: split_runs true r
      else match split_runs false r with
           | p :: ps => String c p :: ps
           | [] => [String c EmptyString]
           end
  end.

Definition split_space (s : string) : list string := split_runs false s.

(** [Object.entries(o)] *)
Definition Object_entries {A : Type} (o : list (string * A))
  : list (string * A) :=
  omap (fun k => match obj_get o k with
                 | Some v => Some (k, v)
                 | None => None
                 end) (Object_keys o).

(** [applyAliases]: the first alias, in the order of [Object.entries],
    that is the input or its first word. *)
Definition alias_applies (input a : string) : bool :=
  (input =? a) || String.prefix (a ++ " ") input.

Fixpoint first_alias (input : string) (entries : list (string * json))
  : string :=
  match entries with
  | [] => input
  | (a, b) :: rest =>
      if alias_applies input a then js_replace input a (js_to_string b)
      else first_alias input rest
  end.

Definition applyAliases (input : string) (aliases : list (string * json))
  : string :=
  first_alias input (Object_entries aliases).

(** [parseKv]: one pair of the text.  Assigning a string to [__proto__]
    sets nothing. *)
Definition parse_pair (out : list (string * string)) (pair : string)
  : list (string * string) :=
  match index_of ":" pair with
  | None => out
  | Some i =>
      let k := str_take i pair in
      let v := str_drop (S i) pair in
      if negb (k =? "") && negb (v =? "")
      then (if k =? "__proto__" then out else obj_set out k v)
      else out
  end.

Definition parseKv (s : string) : list (string * string) :=
  fold_left parse_pair (split_space s) [].

(** [c] occurs in [s]. *)
Fixpoint mentions (c : ascii) (s : string) : bool :=
  match s with
  | EmptyString => false
  | String a r => Ascii.eqb a c || mentions c r
  end.

Fixpoint has_space (s : string) : bool :=
  match s with
  | EmptyString => false
  | String a r => is_white a || has_space r
  end.

(** A pair that [k:v] writes down: both parts are there and hold no white
    space, and the first colon is the one between them. *)
Definition kv_ok (kv : string * string) : bool :=
  negb (fst kv =? "") && negb (snd kv =? "")
  && negb (has_space (fst kv)) && negb (has_space (snd kv))
  && negb (mentions ":" (fst kv)) && negb (fst kv =? "__proto__").

Definition kv_text (pairs : list (string * string)) : string :=
  join " " (List.map (fun kv => fst kv ++ ":" ++ snd kv) pairs).

Definition fill (text : string) (kv : string * string) : string :=
  js_replaceAll text ("{" ++ fst kv ++ "}") (snd kv).

(** What [renderTemplate] returns beside [null]: a value of the
    templates, or, under a name that every object inherits and no
    template has, the inherited member, which is a function or the
    prototype and no JSON value. *)
Inductive Rendered : Type :=
| Text (v : json)
| Builtin (name : string).

(** [renderTemplate]; [None] is [null].  A template that is no string has
    no [replaceAll], and neither has an inherited member. *)
Definition renderTemplate (templates : list (string * json)) (name : string)
  (params : list (string * string)) : Outcome (option Rendered) :=
  match obj_get templates name with
  | None =>
      if inherited name then
        match Object_entries params with
        | [] => Ok (Some (Builtin name))
        | _ :: _ => Throw (TypeError "text.replaceAll is not a function")
        end
      else Ok None
  | Some tpl =>
      if negb (truthy tpl) then Ok None else
      match tpl, Object_entries params with
      | JStr text, entries =>
          Ok (Some (Text (JStr (fold_left fill entries text))))
      | _, [] => Ok (Some (Text tpl))
      | _, _ :: _ => Throw (TypeError "text.replaceAll is not a function")
      end
  end.

(** The handler of [/template name k:v ...] in the second program of
    [src/index.js] and in [src/unnamed/part_000], where no earlier test
    of the main loop takes such a line: what takes the place of the
    input, or [None] when the template is missing or renders to nothing. *)
Definition template_command (templates : list (string * json))
  (input : string) : Outcome (option Rendered) :=
  let parts := split_on " " input in
  let name := match nth_error parts 1 with
              | Some n => n
              | None => "undefined"
              end in
  let rest := join " " (skipn 2 parts) in
  match renderTemplate templates name (parseKv rest) with
  | Ok (Some (Text text)) =>
      Ok (if truthy text then Some (Text text) else None)
  | other => other
  end.

(** ** The tests of the main loop of the first program

    An input that is not empty goes through these tests in this order,
    after the aliases; the first that holds decides what handles it. *)
Inductive Handler : Type :=
| AtExit | AtHelp | AtStats | AtClear | AtChat | AtKey | AtUrl | AtModel
| AtProfile | AtTemp | AtConfig | AtSaveConfig | AtList | AtRead | AtShell
| AtAlias | AtExport | AtImport | AtTemplate | AtMessage.

Definition handler_of (input : string) : Handler :=
  if input =? "/exit" then AtExit
  else if input =? "/help" then AtHelp
  else if input =? "/stats" then AtStats
  else if input =? "/clear" then AtClear
  else if String.prefix "/chat " input then AtChat
  else if String.prefix "/key " input then AtKey
  else if String.prefix "/url " input then AtUrl
  else if String.prefix "/model" input then AtModel
  else if String.prefix "/profile" input then AtProfile
  else if String.prefix "/temp" input then AtTemp
  else if input =? "/config" then AtConfig
  else if input =? "/saveconfig" then AtSaveConfig
  else if String.prefix "/list " input then AtList
  else if String.prefix "/read " input then AtRead
  else if String.prefix "/shell " input then AtShell
  else if input =? "/alias" then AtAlias
  else if String.prefix "/export " input then AtExport
  else if String.prefix "/import " input then AtImport
  else if String.prefix "/template " input then AtTemplate
  else AtMessage.

(** The aliases and the templates of [DEFAULT_CONFIG]. *)
Definition default_aliases : list (string * json) :=
  [("/h", JStr "/help"); ("/q", JStr "/exit"); ("/m", JStr "/model");
   ("/p", JStr "/profile"); ("/ls", JStr "/list"); ("/cat", JStr "/read");
   ("/run", JStr "/shell")].

Definition default_templates : list (string * json) :=
  [("fix",
    JStr "Исправь ошибку в следующем коде: {code}. Объясни, в чем была проблема.");
   ("refactor",
    JStr "Отрефактори этот файл: {file}. Улучши читаемость и производительность.");
   ("explain", JStr "Объясни, что делает этот код: {context}.")].

(** ** The configuration file *)

Fixpoint indexed (i : nat) (items : list json) : list (string * json) :=
  match items with
  | [] => []
  | x :: r => (string_of_nat i, x) :: indexed (S i) r
  end.

(** What [...v] copies: the own enumerable properties of [v]. *)
Definition spread (v : option json) : list (string * json) :=
  match v with
  | Some (JObj fields) => Object_entries fields
  | Some (JArr items) => indexed 0 items
  | Some (JStr s) => indexed 0 (chars s)
  | _ => []
  end.

(** The properties of [source] set on [target], one after the other. *)
Definition assign (target source : list (string * json))
  : list (string * json) :=
  fold_left (fun o kv => obj_set o (fst kv) (snd kv)) source target.

Section Settings.
(** [DEFAULT_CONFIG] takes four of its values from the environment and
    holds the temperatures of its profiles; it is left open here. *)
Context (rt : Runtime) (CONF_FILE : string).
Context (DEFAULT_CONFIG : list (string * json)).

(** [{ ...DEFAULT_CONFIG.member, ...(cfg.member || {}) }] *)
Definition merged (member : string) (cfg : json) : Outcome json :=
  match js_prop cfg member with
  | Ok v =>
      Ok (JObj (assign (assign [] (spread (obj_get DEFAULT_CONFIG member)))
                  (spread (Some (or_else v (JObj []))))))
  | Throw e => Throw e
  | Stall => Stall
  end.

Definition loadConfig : M json :=
  let* cfg := Sessions.loadJson rt CONF_FILE (JObj DEFAULT_CONFIG) in
  let base := assign (assign [] (spread (Some (JObj DEFAULT_CONFIG))))
                (spread (Some cfg)) in
  let* profiles := lift (merged "profiles" cfg) in
  let* templates := lift (merged "templates" cfg) in
  let* aliases := lift (merged "aliases" cfg) in
  ret (JObj (obj_set (obj_set (obj_set base "profiles" profiles)
                        "templates" templates) "aliases" aliases)).
End Settings.

(** ** [/autopilot] in the second program of [src/index.js]

    [Number(val)] is the runtime's; [None] is [NaN]. *)
Definition autopilot_command (rt : Runtime) (input : string) (cfg : Config)
  : Config :=
  let parts := split_on " " input in
  match nth_error parts 1 with
  | None => cfg
  | Some cmd =>
      if (cmd =? "") || (cmd =? "status") then cfg
      else if cmd =? "on" then
        mkConfig (api_key cfg) (auto_yes cfg) (system_prompt cfg) true
          (autopilot_steps cfg) (autopilot_done_tag cfg)
      else if cmd =? "off" then
        mkConfig (api_key cfg) (auto_yes cfg) (system_prompt cfg) false
          (autopilot_steps cfg) (autopilot_done_tag cfg)
      else if cmd =? "steps" then
        match nth_error parts 2 with
        | Some val =>
            if val =? "" then cfg else
            match to_number rt (JStr val) with
            | Some n =>
                mkConfig (api_key cfg) (auto_yes cfg) (system_prompt cfg)
                  (autopilot cfg) (Z.max 1 n) (autopilot_done_tag cfg)
            | None => cfg
            end
        | None => cfg
        end
      else cfg
  end.

(** ** The answers to a batch of tool calls *)

(** A computation that leaves the conversation as it is. *)
Definition still {A : Type} (c : M A) : Prop :=
  forall m, conv (snd (c m)) = conv m.

(** The tool messages for the first calls of a batch, one per result,
    each under the [id] of its call. *)
Definition answers (calls : list json) (results : list string) : list json :=
  List.map
    (fun cr => tool_message (Sessions.prop_or_none (fst cr) "id") (snd cr))
    (combine calls results).

(** ** The commands of the first program, parsed

    What the main loop does with [/clear], [/chat new], [/chat use],
    [/chat delete], [/export] and with an input that is no command; the
    name of [/chat new] is empty when none was typed. *)
Inductive Command : Type :=
| Clear
| ChatNew (name : string)
| ChatUse (name : string)
| ChatDelete (name : string)
| Export (file : string)
| Say (input : string).

Definition run_command (rt : Runtime) (cfg : Config) (c : Command)
  (s : Sessions.Session) : M Sessions.Session :=
  match c with
  | Clear => Sessions.clear rt cfg s
  | ChatNew name => Sessions.chat_new rt cfg name s
  | ChatUse name => Sessions.chat_use rt cfg name s
  | ChatDelete name => Sessions.chat_delete rt cfg name s
  | Export file => Sessions.export rt file s
  | Say input => Sessions.ask_assistant rt cfg input s
  end.

Fixpoint run_commands (rt : Runtime) (cfg : Config) (cs : list Command)
  (s : Sessions.Session) : M Sessions.Session :=
  match cs with
  | [] => ret s
  | c :: rest =>
      let* s' := run_command rt cfg c s in run_commands rt cfg rest s'
  end.

(** The variables of [main] agree with the store: [currentChat] is the
    current chat, and [history] is what the store holds under it. *)
Definition coherent (s : Sessions.Session) : Prop :=
  Sessions.current (Sessions.historyState s) = Some (Sessions.currentChat s)
  /\ obj_get (Sessions.chats (Sessions.historyState s))
       (Sessions.currentChat s)
     = Some (Sessions.history s).

(** The commands that change the store without a round with the
    assistant.  [/chat use] of a name that every object inherits ends the
    program when no chat has the name, and is left out. *)
Definition store_command (c : Command) : bool :=
  match c with
  | Say _ => false
  | ChatUse name => negb (inherited name)
  | _ => true
  end.

(** The history file holds the text of the store. *)
Definition on_disk (rt : Runtime) (st : Sessions.HistoryState) (m : Machine)
  : Prop :=
  fs m !! HIST_FILE rt = Some (File true true (stringify rt (Sessions.encode st))).

(** What the main loop keeps between two commands: the history file can
    be written, the variables agree with the store and name a chat, and
    the file reads back as the store or holds its text. *)
Definition durable (rt : Runtime) (s : Sessions.Session) (m : Machine)
  : Prop :=
  Sessions.exportable rt (HIST_FILE rt) m = true
  /\ Sessions.currentChat s <> EmptyString
  /\ coherent s
  /\ (Sessions.loadHistoryState rt m
      = (Ok (Some (Sessions.historyState s)), m)
      \/ on_disk rt (Sessions.historyState s) m).


(** * A small runtime for worked examples

    Compact JSON text, absolute POSIX paths, a shell that echoes its
    command, and a network that is down. *)

Module Demo.

Definition is_char (c : ascii) (s : string) : bool :=
  String c EmptyString =? s.

Fixpoint escape (s : string) : string :=
  match s with
  | EmptyString => EmptyString
  | String c r =>
      (if is_char c dq then "\" ++ dq
       else if is_char c "\" then "\\"
       else if is_char c nl then "\n"
       else if is_char c tab then "\t"
       else String c EmptyString) ++ escape r
  end.

Definition quoted (s : string) : string := dq ++ escape s ++ dq.

Fixpoint print (v : json) : string :=
  match v with
  | JNull => "null"
  | JBool true => "true"
  | JBool false => "false"
  | JNum n => string_of_Z n
  | JStr s => quoted s
  | JArr items => "[" ++ join "," (List.map print items) ++ "]"
  | JObj fields =>
      "{" ++ join ","
               (List.map (fun kv => quoted (fst kv) ++ ":" ++ print (snd kv))
                  fields) ++ "}"
  end.

(** The characters of a string literal after its opening quote. *)
Fixpoint scan_chars (s : string) : option (string * string) :=
  match s with
  | EmptyString => None
  | String c r =>
      if is_char c dq then Some (EmptyString, r)
      else if is_char c "\" then
        match r with
        | String e r' =>
            let plain :=
              if is_char e "n" then Some nl
              else if is_char e "t" then Some tab
              else if is_char e dq || is_char e "\" || is_char e "/"
                   then Some (String e EmptyString)
                   else None in
            match plain, scan_chars r' with
            | Some d, Some (text, rest) => Some (d ++ text, rest)
            | _, _ => None
            end
        | EmptyString => None
        end
      else
        match scan_chars r with
        | Some (text, rest) => Some (String c text, rest)
        | None => None
        end
  end.

Fixpoint scan_digits (s : string) (acc : N) (seen : bool)
  : option (N * string) :=
  match s with
  | String c r =>
      match digit_of c with
      | Some d => scan_digits r (acc * 10 + d)%N true
      | None => if seen then Some (acc, s) else None
      end
  | EmptyString => if seen then Some (acc, EmptyString) else None
  end.

Definition keyword (word : string) (v : json) (s : string)
  : option (json * string) :=
  match strip_prefix word s with
  | Some rest => Some (v, rest)
  | None => None
  end.

Fixpoint scan_value (fuel : nat) (s : string) {struct fuel}
  : option (json * string) :=
  match fuel with
  | O => None
  | S fuel' =>
      match trim_start s with
      | EmptyString => None
      | String c r =>
          if is_char c "n" then keyword "ull" JNull r
          else if is_char c "t" then keyword "rue" (JBool true) r
          else if is_char c "f" then keyword "alse" (JBool false) r
          else if is_char c dq then
            match scan_chars r with
            | Some (text, rest) => Some (JStr text, rest)
            | None => None
            end
          else if is_char c "[" then
            match trim_start r with
            | String d rest =>
                if is_char d "]" then Some (JArr [], rest)
                else match scan_items fuel' r with
                     | Some (items, rest') => Some (JArr items, rest')
                     | None => None
                     end
            | EmptyString => None
            end
          else if is_char c "{" then
            match trim_start r with
            | String d rest =>
                if is_char d "}" then Some (JObj [], rest)
                else match scan_members fuel' r with
                     | Some (fields, rest') =>
                         Some (JObj (fold_left
                                       (fun o kv => obj_set o (fst kv) (snd kv))
                                       fields []), rest')
                     | None => None
                     end
            | EmptyString => None
            end
          else if is_char c "-" then
            match scan_digits r 0%N false with
            | Some (n, rest) => Some (JNum (- Z.of_N n), rest)
            | None => None
            end
          else
            match scan_digits (String c r) 0%N false with
            | Some (n, rest) => Some (JNum (Z.of_N n), rest)
            | None => None
            end
      end
  end
with scan_items (fuel : nat) (s : string) {struct fuel}
  : option (list json * string) :=
  match fuel with
  | O => None
  | S fuel' =>
      match scan_value fuel' s with
      | Some (v, rest) =>
          match trim_start rest with
          | String d rest' =>
              if is_char d "," then
                match scan_items fuel' rest' with
                | Some (vs, rest'') => Some (v :: vs, rest'')
                | None => None
                end
              else if is_char d "]" then Some ([v], rest')
              else None
          | EmptyString => None
          end
      | None => None
      end
  end
with scan_members (fuel : nat) (s : string) {struct fuel}
  : option (list (string * json) * string) :=
  match fuel with
  | O => None
  | S fuel' =>
      match trim_start s with
      | String q r =>
          if is_char q dq then
            match scan_chars r with
            | Some (k, rest) =>
                match trim_start rest with
                | String d rest1 =>
                    if is_char d ":" then
                      match scan_value fuel' rest1 with
                      | Some (v, rest2) =>
                          match trim_start rest2 with
                          | String e rest3 =>
                              if is_char e "," then
                                match scan_members fuel' rest3 with
                                | Some (ms, rest4) => Some ((k, v) :: ms, rest4)
                                | None => None
                                end
                              else if is_char e "}" then Some ([(k, v)], rest3)
                              else None
                          | EmptyString => None
                          end
                      | None => None
                      end
                    else None
                | EmptyString => None
                end
            | None => None
            end
          else None
      | EmptyString => None
      end
  end.

Definition read (s : string) : option json :=
  match scan_value (S (String.length s)) s with
  | Some (v, rest) => if trim_start rest =? "" then Some v else None
  | None => None
  end.

(** The reversed path up to its last slash, and what follows the slash. *)
Fixpoint cut_slash (reversed name : string) : string * string :=
  match reversed with
  | EmptyString => (EmptyString, name)
  | String c r =>
      if is_char c "/" then (r, name) else cut_slash r (String c name)
  end.

Definition parent (p : string) : string :=
  let d := fst (cut_slash (str_rev p) EmptyString) in
  if d =? "" then "/" else str_rev d.

Definition leaf (p : string) : string :=
  snd (cut_slash (str_rev p) EmptyString).

Definition absolute (p : string) : string :=
  match p with
  | String c _ => if is_char c "/" then p else "/work/" ++ p
  | EmptyString => "/work"
  end.

Definition one_hunk (old new : string) : string :=
  if old =? new then EmptyString
  else "@@ -1 +1 @@" ++ nl ++ "-" ++ old ++ nl ++ "+" ++ new ++ nl.

Definition runtime : Runtime := {|
  stringify := print;
  parse := read;
  resolve := absolute;
  dirname := parent;
  basename := leaf;
  path_join := fun d n => d ++ "/" ++ n;
  hunks := one_hunk;
  exec := fun cmd files => (mkExec ("ran " ++ cmd) EmptyString None, files);
  fetch := fun _ _ => FetchError (TypeError "fetch failed");
  encodeURIComponent := fun s => s;
  to_number := fun _ => None;
  result_links := fun _ => [];
  HIST_FILE := "/home/meow/.meowcli_history.json"
|}.

Definition config : Config := {|
  api_key := "sk-demo";
  auto_yes := false;
  system_prompt := "You are terse.";
  autopilot := false;
  autopilot_steps := 5;
  autopilot_done_tag := "[DONE]"
|}.

Definition machine (files : list (string * Node)) : Machine :=
  mkMachine (list_to_map files) [] [] [] [] 0.

End Demo.

(** * Worked cases *)

Module Cases.

(** Three chats, created in the order zeta, mid, alpha; zeta is current. *)
Definition three_chats : Sessions.Session :=
  Sessions.mkSession
    (Sessions.mkState (Some "zeta")
       [("zeta", []); ("mid", []); ("alpha", [])])
    "zeta" [].

(** A chain whose first step fails with an error text. *)
Definition two_steps : list json :=
  [JObj [("tool", JStr "read_file");
         ("args", JObj [("path", JStr "/tmp/missing.txt")])];
   JObj [("tool", JStr "run_shell");
         ("args", JObj [("cmd", JStr "echo hi")])]].

(** An assistant message with the given tool calls. *)
Definition assistant_calls (calls : list json) : json :=
  JObj [("role", JStr "assistant"); ("content", JNull);
        ("tool_calls", JArr calls)].

Definition tool_call (id name arguments : string) : json :=
  JObj [("id", JStr id); ("type", JStr "function");
        ("function",
         JObj [("name", JStr name); ("arguments", JStr arguments)])].

(** The body of a reply of the endpoint that carries [msg]. *)
Definition reply (msg : json) : ApiOutcome :=
  ApiReply (JObj [("choices", JArr [JObj [("message", msg)]])]).

(** A shell call whose arguments are cut short. *)
Definition cut_short : json :=
  assistant_calls [tool_call "call_1" "run_shell" "{"].

(** A call that lists /tmp. *)
Definition list_tmp : json :=
  assistant_calls
    [tool_call "call_1" "list_dir"
       (Demo.print (JObj [("path", JStr "/tmp")]))].

(** A final answer in plain text. *)
Definition final_answer : json :=
  JObj [("role", JStr "assistant"); ("content", JStr "Two files.")].

(** A call of the shell. *)
Definition echo_hi : json :=
  assistant_calls
    [tool_call "call_1" "run_shell"
       (Demo.print (JObj [("cmd", JStr "echo hi")]))].

(** The configuration of a run that asks nothing. *)
Definition unattended : Config :=
  mkConfig "sk-demo" true "You are terse." false 5 "[DONE]".

(** The same two steps with a third that names no tool. *)
Definition three_steps : list json :=
  List.app two_steps [JObj [("tool", JStr "fly")]].

(** A machine with the given files, outcomes of the endpoint and
    conversation. *)
Definition machine (files : list (string * Node)) (outcomes : list ApiOutcome)
  (msgs : list json) : Machine :=
  mkMachine (list_to_map files) [] outcomes [] msgs 0.

(** An assistant that never finishes, and one that is done at its
    second reply. *)
Definition busy (prompt : string) : M string := ret "still working".

Definition done_second (prompt : string) : M string :=
  ret (if prompt =? "go" then "working" else "all set [DONE]").

Definition fresh_session : Sessions.Session :=
  Sessions.mkSession Sessions.fallback "default" [].


(** A runtime whose [Number] reads a decimal numeral. *)
Definition number_of (v : json) : option Z :=
  match v with
  | JNum n => Some n
  | JStr s =>
      match Demo.scan_digits s 0%N false with
      | Some (n, EmptyString) => Some (Z.of_N n)
      | _ => None
      end
  | _ => None
  end.

Definition numerate : Runtime := {|
  stringify := Demo.print;
  parse := Demo.read;
  resolve := Demo.absolute;
  dirname := Demo.parent;
  basename := Demo.leaf;
  path_join := fun d n => d ++ "/" ++ n;
  hunks := Demo.one_hunk;
  exec := fun cmd files => (mkExec ("ran " ++ cmd) EmptyString None, files);
  fetch := fun _ _ => FetchError (TypeError "fetch failed");
  encodeURIComponent := fun s => s;
  to_number := number_of;
  result_links := fun _ => [];
  HIST_FILE := "/home/meow/.meowcli_history.json"
|}.

(** Defaults, and a configuration file that names a model and one alias
    of its own. *)
Definition defaults : list (string * json) :=
  [("model", JStr "gpt-4o-mini"); ("profile", JStr "default");
   ("profiles", JObj [("default", JObj [("system", JStr "You are terse.")])]);
   ("templates", JObj default_templates);
   ("aliases", JObj default_aliases)].

Definition settings : list (string * json) :=
  [("model", JStr "local"); ("aliases", JObj [("/h", JStr "/halt")])].

Definition with_settings : Machine :=
  Demo.machine
    [("/home/meow/.meowcli.json", File true true (Demo.print (JObj settings)))].

(** A configuration without a key. *)
Definition keyless : Config :=
  mkConfig EmptyString false "You are terse." false 3 "[DONE]".

(** A directory with a file and a directory in it. *)
Definition tmp_files : Machine :=
  Demo.machine
    [("/tmp", Dir); ("/tmp/notes.txt", File true true "n"); ("/tmp/build", Dir)].

(** Two calls in one message. *)
Definition two_calls : json :=
  assistant_calls
    [tool_call "call_1" "list_dir" (Demo.print (JObj [("path", JStr "/tmp")]));
     tool_call "call_2" "read_file"
       (Demo.print (JObj [("path", JStr "/tmp/notes.txt")]))].

End Cases.

(** * Properties *)

(** The limit is a number to compare with, never one to count up to. *)
Opaque READ_LIMIT.

(** ** Objects *)

Section ObjectFacts.
Context {A : Type}.
Implicit Types (o : list (string * A)) (k : string).

Lemma obj_get_set_eq o k (v : A) : obj_get (obj_set o k v) k = Some v.
Proof.
  induction o as [|[k' v'] o IH]; simpl.
  - now rewrite String.eqb_refl.
  - destruct (k' =? k) eqn:E; simpl; rewrite E; auto.
Qed.

Lemma obj_get_set_ne o k k' (v : A) :
  k <> k' -> obj_get (obj_set o k v) k' = obj_get o k'.
Proof.
  intros Hne. induction o as [|[k0 v0] o IH]; simpl.
  - apply String.eqb_neq in Hne. now rewrite Hne.
  - destruct (k0 =? k) eqn:E; simpl.
    + apply String.eqb_eq in E. subst k0.
      apply String.eqb_neq in Hne. now rewrite Hne.
    + destruct (k0 =? k'); auto.
Qed.

Lemma obj_get_delete_eq o k : obj_get (obj_delete o k) k = None.
Proof.
  induction o as [|[k' v'] o IH]; simpl; auto.
  destruct (k' =? k) eqn:E; simpl; auto. now rewrite E.
Qed.

Lemma obj_get_delete_ne o k k' :
  k <> k' -> obj_get (obj_delete o k) k' = obj_get o k'.
Proof.
  intros Hne. induction o as [|[k0 v0] o IH]; simpl; auto.
  destruct (k0 =? k) eqn:E; simpl.
  - apply String.eqb_eq in E. subst k0.
    apply String.eqb_neq in Hne. now rewrite Hne.
  - destruct (k0 =? k'); auto.
Qed.

Lemma obj_has_set_eq o k (v : A) : obj_has (obj_set o k v) k = true.
Proof. unfold obj_has. now rewrite obj_get_set_eq. Qed.

Lemma obj_has_set o k k' (v : A) :
  obj_has o k' = true -> obj_has (obj_set o k v) k' = true.
Proof.
  unfold obj_has. destruct (String.eqb_spec k k') as [->|Hne].
  - now rewrite obj_get_set_eq.
  - now rewrite obj_get_set_ne.
Qed.

Lemma obj_has_delete_ne o k k' :
  k <> k' -> obj_has (obj_delete o k) k' = obj_has o k'.
Proof. intros. unfold obj_has. now rewrite obj_get_delete_ne. Qed.

Lemma obj_has_In o k : obj_has o k = true <-> In k (List.map fst o).
Proof.
  unfold obj_has. induction o as [|[k' v'] o IH]; simpl.
  - split; [discriminate | tauto].
  - destruct (String.eqb_spec k' k) as [->|Hne].
    + split; auto.
    + rewrite IH. split; [auto | intros [?|?]; [contradiction | auto]].
Qed.
End ObjectFacts.

Lemma In_insert_index x y l : In x (insert_index y l) <-> x = y \/ In x l.
Proof.
  induction l as [|z l IH]; simpl.
  - split; intros [?|?]; auto.
  - destruct (fst y <=? fst z)%N; simpl.
    + split; intros [?|?]; auto.
    + rewrite IH. split; intros H; tauto.
Qed.

Lemma In_index_keys n k ks : In (n, k) (index_keys ks) -> In k ks.
Proof.
  unfold index_keys. induction ks as [|k0 ks IH]; simpl; auto.
  destruct (array_index k0) as [n0|] eqn:E; simpl.
  - rewrite In_insert_index. intros [H|H]; [inversion H; auto | auto].
  - auto.
Qed.

Lemma In_Object_keys {A : Type} (o : list (string * A)) k :
  In k (Object_keys o) -> obj_has o k = true.
Proof.
  unfold Object_keys. rewrite in_app_iff, obj_has_In. intros [H|H].
  - apply in_map_iff in H as [[n k'] [<- H]]. simpl.
    eapply In_index_keys; eauto.
  - unfold name_keys in H. apply filter_In in H. tauto.
Qed.

Lemma insert_index_not_nil x l : insert_index x l <> [].
Proof. destruct l; simpl; [discriminate|]. destruct (_ <=? _)%N; discriminate. Qed.

Lemma Object_keys_nil {A : Type} (o : list (string * A)) :
  Object_keys o = [] -> o = [].
Proof.
  destruct o as [|[k v] o]; auto. unfold Object_keys, index_keys, name_keys. simpl.
  destruct (array_index k) eqn:E; simpl.
  - intros H. apply app_eq_nil in H as [H _].
    apply map_eq_nil in H. now apply insert_index_not_nil in H.
  - intros H. apply app_eq_nil in H as [_ H]. discriminate.
Qed.

(** ** Running computations *)

Ltac unfold_m :=
  unfold bind, ret, throw, lift, modify, inspect, try_catch in *.

Lemma bind_Ok {A B : Type} (c : M A) (k : A -> M B) m b m' :
  bind c k m = (Ok b, m') ->
  exists a m1, c m = (Ok a, m1) /\ k a m1 = (Ok b, m').
Proof.
  unfold bind. destruct (c m) as [[a|e|] m1]; try discriminate. eauto.
Qed.

Lemma writeFileSync_cases rt p data m :
  (exists m', writeFileSync rt p data m = (Ok tt, m')) \/
  (exists e, writeFileSync rt p data m = (Throw e, m)).
Proof.
  unfold writeFileSync.
  destruct (fs m !! p) as [[r [] c|]|]; eauto.
  destruct (fs m !! dirname rt p) as [[r w c|]|]; eauto.
Qed.

Lemma saveJson_returns rt file data m :
  exists m', Sessions.saveJson rt file data m = (Ok tt, m').
Proof.
  unfold Sessions.saveJson, try_catch.
  destruct (writeFileSync_cases rt file (stringify rt data) m)
    as [[m' H]|[e H]]; rewrite H; eauto.
Qed.

(** ** Computations that are never left waiting

    The prompt of the first program has a timer, so no tool of it waits
    for input; in the other two programs a tool waits only when a prompt
    is shown.  No tool touches the outcomes of the endpoint, which is why
    the loop of a round comes to an end. *)

Create HintDb quiet discriminated.

Section Quiet.
Context {A B : Type}.

Lemma quiet_settles (c : M A) : quiet c -> settles c.
Proof. intros H m. apply H. Qed.

Lemma quiet_ret (a : A) : quiet (ret a).
Proof. intros m. split; [discriminate | reflexivity]. Qed.

Lemma quiet_throw (e : JsError) : quiet (@throw A e).
Proof. intros m. split; [discriminate | reflexivity]. Qed.

Lemma quiet_lift (o : Outcome A) : o <> Stall -> quiet (lift o).
Proof. intros H m. split; [exact H | reflexivity]. Qed.

Lemma quiet_inspect (f : Machine -> A) : quiet (inspect f).
Proof. intros m. split; [discriminate | reflexivity]. Qed.

Lemma quiet_bind (c : M A) (k : A -> M B) :
  quiet c -> (forall a, quiet (k a)) -> quiet (bind c k).
Proof.
  intros Hc Hk m. unfold bind. destruct (Hc m) as [Hs Hr].
  destruct (c m) as [[a|e|] m1]; simpl in *.
  - destruct (Hk a m1) as [Hs' Hr']. split; [exact Hs' | congruence].
  - split; [discriminate | exact Hr].
  - contradiction.
Qed.

Lemma quiet_try_catch (c : M A) (h : JsError -> M A) :
  quiet c -> (forall e, quiet (h e)) -> quiet (try_catch c h).
Proof.
  intros Hc Hh m. unfold try_catch. destruct (Hc m) as [Hs Hr].
  destruct (c m) as [[a|e|] m1]; simpl in *.
  - split; [discriminate | exact Hr].
  - destruct (Hh e m1) as [Hs' Hr']. split; [exact Hs' | congruence].
  - contradiction.
Qed.
End Quiet.

Lemma quiet_modify (f : Machine -> Machine) :
  (forall m, remote (f m) = remote m) -> quiet (modify f).
Proof. intros H m. split; [discriminate | apply H]. Qed.

Lemma js_prop_settles v k : js_prop v k <> Stall.
Proof. destruct v; discriminate. Qed.

Lemma js_prop_opt_settles v k : js_prop_opt v k <> Stall.
Proof. destruct v; [apply js_prop_settles | discriminate]. Qed.

Lemma js_first_settles v : js_first v <> Stall.
Proof.
  destruct v as [[| | | [|] |[|]|]|]; discriminate.
Qed.

Lemma diff_input_settles v : diff_input v <> Stall.
Proof. destruct v as [[]|]; discriminate. Qed.

Lemma dialog_text_settles d : dialog_text d <> Stall.
Proof. destruct d as [[]|]; discriminate. Qed.

Lemma content_text_settles msg : content_text msg <> Stall.
Proof.
  unfold content_text. pose proof (js_prop_opt_settles msg "content") as H.
  destruct (js_prop_opt msg "content") as [[v|]|e|]; try discriminate;
    [|contradiction].
  destruct v; try discriminate; simpl;
    match goal with |- (if ?b then _ else _) <> _ => destruct b end;
    discriminate.
Qed.

Lemma first_message_settles data : first_message data <> Stall.
Proof.
  unfold first_message. pose proof (js_prop_settles data "choices") as H.
  destruct (js_prop data "choices") as [choices|e|]; try discriminate;
    [|contradiction].
  pose proof (js_first_settles choices) as H1.
  destruct (js_first choices) as [choice|e|]; try discriminate;
    [|contradiction].
  apply js_prop_opt_settles.
Qed.

Lemma without_system_settles msgs : without_system msgs <> Stall.
Proof.
  induction msgs as [|x rest IH]; simpl; [discriminate|].
  pose proof (js_prop_settles x "role") as H.
  destruct (js_prop x "role") as [role|e|]; try discriminate; [|contradiction].
  destruct (without_system rest) as [kept|e|]; try discriminate.
  contradiction.
Qed.

Lemma cleanName_settles name : Sessions.cleanName name <> Stall.
Proof.
  destruct name as [v|]; simpl; [|discriminate].
  destruct (truthy v); [|discriminate]. destruct v; discriminate.
Qed.

Lemma iterate_settles v : iterate v <> Stall.
Proof. destruct v; discriminate. Qed.

#[export] Hint Resolve quiet_ret quiet_throw quiet_inspect
  js_prop_settles js_prop_opt_settles js_first_settles diff_input_settles
  dialog_text_settles content_text_settles first_message_settles
  without_system_settles cleanName_settles iterate_settles : quiet.

(** One step through the text of a computation. *)
Ltac quiet_step :=
  lazymatch goal with
  | |- quiet (bind _ _) => apply quiet_bind; [|intros ?]
  | |- quiet (try_catch _ _) => apply quiet_try_catch; [|intros ?]
  | |- quiet (lift _) => apply quiet_lift; auto with quiet
  | |- quiet (if ?b then _ else _) => destruct b
  | |- quiet (match ?x with _ => _ end) => destruct x
  | |- quiet _ => solve [auto with quiet]
  end.

Ltac quiet_steps := repeat quiet_step.

Lemma quiet_existsSync p : quiet (existsSync p).
Proof. apply quiet_inspect. Qed.

Lemma quiet_statSync p : quiet (statSync p).
Proof.
  intros m. unfold statSync. destruct (fs m !! p); simpl;
    (split; [discriminate | reflexivity]).
Qed.

Lemma quiet_readFileSync p : quiet (readFileSync p).
Proof.
  intros m. unfold readFileSync.
  destruct (fs m !! p) as [[[] ? ?|]|]; simpl;
    (split; [discriminate | reflexivity]).
Qed.

Lemma quiet_writeFileSync rt p data : quiet (writeFileSync rt p data).
Proof.
  intros m. unfold writeFileSync.
  destruct (fs m !! p) as [[? [] ?|]|]; simpl;
    try (split; [discriminate | reflexivity]).
  destruct (fs m !! dirname rt p) as [[]|]; simpl;
    (split; [discriminate | reflexivity]).
Qed.

Lemma quiet_mkdirSync d : quiet (mkdirSync d).
Proof.
  intros m. unfold mkdirSync. destruct (fs m !! d) as [[]|]; simpl;
    (split; [discriminate | reflexivity]).
Qed.

Lemma quiet_readdirSync rt d : quiet (readdirSync rt d).
Proof.
  intros m. unfold readdirSync. destruct (fs m !! d) as [[]|]; simpl;
    (split; [discriminate | reflexivity]).
Qed.

Lemma quiet_path_resolve rt p : quiet (path_resolve rt p).
Proof. unfold path_resolve. destruct p as [[]|]; auto with quiet. Qed.

Lemma quiet_log_gate action detail auto : quiet (log_gate action detail auto).
Proof. apply quiet_modify. reflexivity. Qed.

Lemma quiet_await_decision : quiet await_decision.
Proof.
  intros m. unfold await_decision. destruct (decisions m) as [|[] ?]; simpl;
    (split; [discriminate | reflexivity]).
Qed.

Lemma quiet_push msg : quiet (push msg).
Proof. apply quiet_modify. reflexivity. Qed.

Lemma quiet_pop : quiet pop.
Proof. apply quiet_modify. reflexivity. Qed.

Lemma quiet_run_exec rt cmd : quiet (run_exec rt cmd).
Proof.
  unfold run_exec. destruct cmd as [[]|]; auto with quiet.
  intros m. destruct (exec rt s (fs m)) as [r f] eqn:He. simpl.
  split; [discriminate | reflexivity].
Qed.

Lemma quiet_do_fetch rt req : quiet (do_fetch rt req).
Proof. intros m. split; [discriminate | reflexivity]. Qed.

#[export] Hint Resolve quiet_existsSync quiet_statSync quiet_readFileSync
  quiet_writeFileSync quiet_mkdirSync quiet_readdirSync quiet_path_resolve
  quiet_log_gate quiet_await_decision quiet_push quiet_pop quiet_run_exec
  quiet_do_fetch : quiet.

(** The prompt of the first program never waits: its timer answers. *)
Lemma quiet_confirm action detail auto : quiet (confirm action detail auto).
Proof. unfold confirm. quiet_steps. Qed.

(** The prompt of the other programs does not wait when [auto_yes] is
    set. *)
Lemma quiet_confirm_waiting action detail :
  quiet (confirm_waiting action detail true).
Proof. unfold confirm_waiting. quiet_steps. Qed.

Section QuietHandlers.
Context (rt : Runtime) (tx : Texts).
Context (ask : string -> option json -> bool -> M bool) (auto : bool).
Hypothesis quiet_ask : forall action detail, quiet (ask action detail auto).

Hint Resolve quiet_ask : quiet.

Lemma quiet_listDir p : quiet (listDir rt tx p).
Proof using Type. unfold listDir. quiet_steps. Qed.

Lemma quiet_readFile p : quiet (readFile rt tx p).
Proof using Type. unfold readFile. quiet_steps. Qed.

Lemma quiet_writeFile p content : quiet (writeFile rt tx ask p content auto).
Proof using quiet_ask. unfold writeFile. quiet_steps. Qed.

Lemma quiet_runShell cmd : quiet (runShell rt tx ask cmd auto).
Proof using quiet_ask. unfold runShell. quiet_steps. Qed.

Lemma quiet_httpRequest args : quiet (httpRequest rt tx ask args auto).
Proof using quiet_ask. unfold httpRequest. quiet_steps. Qed.

Lemma quiet_webSearch args : quiet (webSearch rt tx ask args auto).
Proof using quiet_ask. unfold webSearch. quiet_steps. Qed.
End QuietHandlers.

#[export] Hint Resolve quiet_confirm quiet_confirm_waiting quiet_listDir
  quiet_readFile quiet_writeFile quiet_runShell quiet_httpRequest
  quiet_webSearch : quiet.

Lemma quiet_chain_steps run_tool steps i :
  (forall tool a, quiet (run_tool tool a)) ->
  quiet (Sessions.chain_steps run_tool steps i).
Proof.
  intros Hrun. revert i.
  induction steps as [|s rest IH]; intros i; simpl; quiet_steps.
Qed.

Lemma quiet_toolChain_with rt run_tool steps :
  (forall tool a, quiet (run_tool tool a)) ->
  quiet (Sessions.toolChain_with rt run_tool steps).
Proof.
  intros Hrun. unfold Sessions.toolChain_with.
  destruct steps as [[| | | |[|s rest]|]|]; auto with quiet.
  apply quiet_bind; [now apply quiet_chain_steps | auto with quiet].
Qed.

Lemma quiet_executeTool_with rt chain name args cfg :
  (forall steps, quiet (chain steps cfg)) ->
  quiet (Sessions.executeTool_with rt chain name args cfg).
Proof.
  intros Hchain. unfold Sessions.executeTool_with. quiet_steps.
Qed.

Lemma quiet_executeTool_upto rt n name args cfg :
  quiet (Sessions.executeTool_upto rt n name args cfg).
Proof.
  revert name args.
  induction n as [|n IH]; intros name args; simpl;
    apply quiet_executeTool_with; intros steps;
    apply quiet_toolChain_with; auto with quiet.
Qed.

(** No tool of the first program waits for input or takes an outcome of
    the endpoint, whatever its arguments are. *)
Lemma quiet_executeTool rt name args cfg :
  quiet (Sessions.executeTool rt name args cfg).
Proof. apply quiet_executeTool_upto. Qed.

Lemma quiet_run_call rt call cfg : quiet (Sessions.run_call rt call cfg).
Proof.
  unfold Sessions.run_call. quiet_steps. apply quiet_executeTool.
Qed.

Lemma quiet_run_calls rt calls count i cfg :
  quiet (Sessions.run_calls rt calls count i cfg).
Proof.
  revert i. induction count as [|count IH]; intros i; simpl;
    [auto with quiet|].
  apply quiet_bind; [apply quiet_run_call | intros _; apply IH].
Qed.

Lemma quiet_handleTools rt msg cfg : quiet (Sessions.handleTools rt msg cfg).
Proof.
  unfold Sessions.handleTools.
  apply quiet_bind; [quiet_steps|]. intros [calls|]; [|auto with quiet].
  destruct (negb (truthy calls)); [auto with quiet|].
  assert (Hloop :
            quiet (run push (default_to msg JNull) in
                   run Sessions.run_calls rt calls (loop_count rt calls) 0 cfg
                   in ret true)).
  { apply quiet_bind; [auto with quiet | intros _].
    apply quiet_bind; [apply quiet_run_calls | auto with quiet]. }
  destruct (js_length calls) as [[| |z| | |]|]; try exact Hloop.
  destruct z; [auto with quiet | exact Hloop | exact Hloop].
Qed.

(** A request takes one outcome of the endpoint, or fails at once when
    none is left. *)
Lemma callApi_takes_one tx cfg m :
  match callApi tx cfg m with
  | (Ok _, m') => S (List.length (remote m')) = List.length (remote m)
  | (Throw _, _) => True
  | (Stall, _) => False
  end.
Proof.
  unfold callApi. destruct (api_key cfg =? ""); [exact I|].
  destruct (remote m) as [|[] rest]; simpl; auto.
Qed.

(** The loop of a round comes to an end: with more fuel than outcomes of
    the endpoint, it is never the fuel that ends it. *)
Lemma converse_settles rt cfg fuel m :
  (List.length (remote m) < fuel)%nat ->
  fst (Sessions.converse rt fuel cfg m) <> Stall.
Proof.
  revert m. induction fuel as [|fuel IH]; intros m Hfuel; [lia|].
  simpl. unfold bind at 1.
  pose proof (callApi_takes_one Sessions.texts cfg m) as Hapi.
  destruct (callApi Sessions.texts cfg m) as [[data|e|] m1];
    [|discriminate|contradiction].
  unfold bind at 1. unfold lift.
  pose proof (first_message_settles data) as Hmsg.
  destruct (first_message data) as [msg|e|]; [|discriminate|contradiction].
  unfold bind.
  destruct (quiet_handleTools rt msg cfg m1) as [Hs Hr].
  destruct (Sessions.handleTools rt msg cfg m1) as [[[]|e|] m2]; simpl in *;
    try discriminate; try contradiction.
  apply IH. rewrite Hr. lia.
Qed.

Lemma quiet_saveJson rt file data : quiet (Sessions.saveJson rt file data).
Proof. unfold Sessions.saveJson. quiet_steps. Qed.


(** The loop of a round in the programs without sessions, for tools that
    do not wait. *)
Section QuietInline.
Context (rt : Runtime).
Context (dispatch : option json -> json -> Config -> M string).
Context (cfg : Config).
Hypothesis quiet_dispatch : forall name args, quiet (dispatch name args cfg).

Lemma quiet_inline_run_call call : quiet (run_call rt dispatch call cfg).
Proof using quiet_dispatch. unfold run_call. quiet_steps. Qed.

Lemma quiet_inline_run_calls calls : quiet (run_calls rt dispatch calls cfg).
Proof using quiet_dispatch.
  induction calls as [|call rest IH]; simpl; [auto with quiet|].
  apply quiet_bind; [apply quiet_inline_run_call | intros _; exact IH].
Qed.

Lemma quiet_inline_handleTools msg :
  quiet (handleTools rt dispatch msg cfg).
Proof using quiet_dispatch.
  unfold handleTools.
  apply quiet_bind; [quiet_steps|]. intros [calls|]; [|auto with quiet].
  destruct (negb (truthy calls)); [auto with quiet|].
  assert (Hloop :
            quiet (run push (default_to msg JNull) in
                   let* items := lift (iterate calls) in
                   run run_calls rt dispatch items cfg in
                   ret true)).
  { apply quiet_bind; [auto with quiet | intros _].
    apply quiet_bind; [quiet_steps | intros items].
    apply quiet_bind; [apply quiet_inline_run_calls | auto with quiet]. }
  destruct (js_length calls) as [[| |z| | |]|]; try exact Hloop.
  destruct z; [auto with quiet | exact Hloop | exact Hloop].
Qed.

Lemma inline_converse_settles fuel m :
  (List.length (remote m) < fuel)%nat ->
  fst (converse rt dispatch fuel cfg m) <> Stall.
Proof using quiet_dispatch.
  revert m. induction fuel as [|fuel IH]; intros m Hfuel; [lia|].
  simpl. unfold bind at 1.
  pose proof (callApi_takes_one texts_ru cfg m) as Hapi.
  destruct (callApi texts_ru cfg m) as [[data|e|] m1];
    [|discriminate|contradiction].
  unfold bind at 1. unfold lift.
  pose proof (first_message_settles data) as Hmsg.
  destruct (first_message data) as [msg|e|]; [|discriminate|contradiction].
  unfold bind.
  destruct (quiet_inline_handleTools msg m1) as [Hs Hr].
  destruct (handleTools rt dispatch msg cfg m1) as [[[]|e|] m2]; simpl in *;
    try discriminate; try contradiction.
  apply IH. rewrite Hr. lia.
Qed.
End QuietInline.

(** With [auto_yes] set, no tool of the other two programs waits. *)
Lemma quiet_chain_run_step rt i tool args cfg :
  auto_yes cfg = true -> quiet (Chain.run_step rt i tool args cfg).
Proof. intros Hauto. unfold Chain.run_step. rewrite Hauto. quiet_steps. Qed.

Lemma quiet_chain_chain_steps rt steps i cfg :
  auto_yes cfg = true -> quiet (Chain.chain_steps rt steps i cfg).
Proof.
  intros Hauto. revert i.
  induction steps as [|s rest IH]; intros i; simpl; [auto with quiet|].
  pose proof (quiet_chain_run_step rt) as Hstep. quiet_steps.
Qed.

Lemma quiet_chain_toolChain rt steps cfg :
  auto_yes cfg = true -> quiet (Chain.toolChain rt steps cfg).
Proof.
  intros Hauto. unfold Chain.toolChain.
  destruct steps as [[| | | |[|s rest]|]|]; auto with quiet.
  apply quiet_bind; [now apply quiet_chain_chain_steps | auto with quiet].
Qed.

Lemma quiet_chain_dispatch rt name args cfg :
  auto_yes cfg = true -> quiet (Chain.dispatch rt name args cfg).
Proof.
  intros Hauto. pose proof (quiet_chain_toolChain rt) as Hchain.
  unfold Chain.dispatch. rewrite Hauto. quiet_steps.
Qed.

Lemma quiet_autopilot_dispatch rt name args cfg :
  auto_yes cfg = true -> quiet (Autopilot.dispatch rt name args cfg).
Proof.
  intros Hauto. unfold Autopilot.dispatch. rewrite Hauto. quiet_steps.
Qed.

(** One turn of the loop of a round in the programs without sessions. *)
Lemma inline_converse_turn rt dispatch fuel cfg :
  converse rt dispatch (S fuel) cfg
  = (let* data := callApi texts_ru cfg in
     let* msg := lift (first_message data) in
     let* toolLoop := handleTools rt dispatch msg cfg in
     if toolLoop then converse rt dispatch fuel cfg else ret msg).
Proof. reflexivity. Qed.

(** ** The session store *)

Import Sessions.

Lemma typed_chats_encode c : typed_chats (List.map (fun kv => (fst kv, JArr (snd kv))) c) = Some c.
Proof.
  induction c as [|[k msgs] c IH]; simpl; auto. now rewrite IH.
Qed.

Lemma imported_state_encode st : imported_state (encode st) = Some st.
Proof.
  destruct st as [[cur|] c]; unfold encode, encode_chats; simpl;
    now rewrite typed_chats_encode.
Qed.

(** [/import] installs the state the file holds, as it is. *)
Lemma import_installs rt cfg file s m w text data st :
  file <> "" ->
  fs m !! file = Some (File true w text) ->
  parse rt text = Some data ->
  imported_state data = Some st ->
  exists s' m',
    import rt cfg file s m = (Ok (Some s'), m') /\ historyState s' = st.
Proof.
  intros Hfile Hfs Hparse Hst.
  unfold import. apply String.eqb_neq in Hfile. rewrite Hfile.
  unfold try_catch, bind at 1. unfold readFileSync. rewrite Hfs, Hparse.
  destruct data as [| | | | |fields]; try discriminate.
  simpl in Hst. unfold bind at 1. unfold lift; simpl.
  destruct (obj_get fields "chats") as [[| | | | |c]|] eqn:Hc; try discriminate.
  simpl. rewrite Hst.
  unfold bind, set_messages, modify, saveHistoryState.
  match goal with |- context [saveJson ?r ?f ?d ?mm] =>
    destruct (saveJson_returns r f d mm) as [m' Hsave]; rewrite Hsave end.
  unfold ret. eauto.
Qed.

(** Every path but [/import] leaves [current] on a chat of the mapping,
    from the start of [main] on. *)

Lemma has_member_own {A : Type} (o : list (string * A)) k :
  obj_has o k = true -> has_member o k = true.
Proof. unfold has_member. now intros ->. Qed.

Lemma has_member_plain {A : Type} (o : list (string * A)) k :
  inherited k = false -> has_member o k = obj_has o k.
Proof. unfold has_member. intros ->. apply orb_false_r. Qed.

Lemma history_of_current data st :
  history_of data = Some st -> current st = Some (current_key st).
Proof.
  unfold history_of. destruct data as [| | | |msgs|fields];
    try (intros [= <-]; reflexivity).
  destruct (chats_member (obj_get fields "chats")) as [c|]; try discriminate.
  destruct (current_member (obj_get fields "current")) as [cur|];
    try discriminate.
  now intros [= <-].
Qed.

(** What [loadHistoryState] returns holds its current chat, unless the
    name of that chat is one every object inherits. *)
Lemma history_of_resolves data st :
  history_of data = Some st ->
  inherited (current_key st) = false ->
  resolves st = true.
Proof.
  destruct data as [| | | |msgs|fields]; simpl;
    try (intros [= <-]; reflexivity).
  destruct (chats_member (obj_get fields "chats")) as [c|]; try discriminate.
  destruct (current_member (obj_get fields "current")) as [cur|];
    try discriminate.
  intros [= <-]. unfold resolves, current_key; simpl. intros Hplain.
  rewrite (has_member_plain c cur Hplain).
  destruct (obj_has c cur) eqn:E; auto. apply obj_has_set_eq.
Qed.

Lemma obj_has_member_set {A : Type} (o : list (string * A)) k v :
  has_member (obj_set o k v) k = true.
Proof. apply has_member_own, obj_has_set_eq. Qed.

Lemma history_of_member data st :
  history_of data = Some st ->
  has_member (chats st) (current_key st) = true.
Proof.
  unfold history_of. destruct data as [| | | |msgs|fields];
    try (intros [= <-]; reflexivity).
  destruct (chats_member (obj_get fields "chats")) as [c|]; try discriminate.
  destruct (current_member (obj_get fields "current")) as [cur|];
    try discriminate.
  intros [= <-]. unfold current_key. simpl.
  destruct (has_member c cur) eqn:E; [exact E|].
  apply obj_has_member_set.
Qed.

Lemma loadHistoryState_returns rt m :
  exists data, loadHistoryState rt m = (Ok (history_of data), m).
Proof.
  unfold loadHistoryState, loadJson, try_catch, existsSync, readFileSync.
  unfold_m.
  destruct (fs m !! HIST_FILE rt) as [[[] w text|]|] eqn:Hf;
    cbn -[history_of]; rewrite ?Hf; cbn -[history_of];
    try (eexists; reflexivity).
  destruct (parse rt text); cbn -[history_of]; eexists; reflexivity.
Qed.

(** What [main] starts from: the loaded store, its current chat and the
    history under it. *)
Lemma start_loaded rt cfg m s m' :
  start rt cfg m = (Ok (Some s), m') ->
  loadHistoryState rt m = (Ok (Some (historyState s)), m)
  /\ current (historyState s) = Some (currentChat s)
  /\ obj_get (chats (historyState s)) (currentChat s) = Some (history s)
  /\ m' = set_conv (system_message cfg :: history s) m.
Proof.
  destruct (loadHistoryState_returns rt m) as (data & Hload).
  unfold start. unfold bind at 1. rewrite Hload.
  destruct (history_of data) as [st|] eqn:Hst; [|discriminate].
  pose proof (history_of_current data st Hst) as Hcur.
  pose proof (history_of_member data st Hst) as Hmem.
  destruct st as [[c|] ch]; simpl in Hcur; [|discriminate].
  unfold current_key in *. simpl in *. rewrite Hmem.
  destruct (obj_get ch c) as [h|] eqn:Hget; unfold obj_has; rewrite Hget;
    cbn [negb]; [|discriminate].
  unfold set_messages, chat_or_empty. rewrite Hget. unfold_m.
  intros [= <- <-]. simpl. auto.
Qed.

Lemma start_resolves rt cfg m s m' :
  start rt cfg m = (Ok (Some s), m') -> resolves (historyState s) = true.
Proof.
  intros Hstart.
  destruct (start_loaded rt cfg m s m' Hstart) as (_ & Hcur & Hget & _).
  unfold resolves, obj_has. now rewrite Hcur, Hget.
Qed.

Lemma clear_resolves rt cfg s m s' m' :
  clear rt cfg s m = (Ok s', m') ->
  resolves (historyState s) = true -> resolves (historyState s') = true.
Proof.
  unfold clear, set_messages, saveHistoryState. unfold_m.
  match goal with |- context [saveJson ?r ?f ?d ?mm] =>
    destruct (saveJson_returns r f d mm) as [m1 Hsave]; rewrite Hsave end.
  intros [= <- _]. unfold resolves; simpl.
  destruct (current (historyState s)); auto. apply obj_has_set.
Qed.

Lemma chat_new_resolves rt cfg name s m s' m' :
  chat_new rt cfg name s m = (Ok s', m') ->
  resolves (historyState s) = true -> resolves (historyState s') = true.
Proof.
  unfold chat_new, set_messages, saveHistoryState.
  destruct (has_member _ _); unfold_m.
  - now intros [= <- _].
  - match goal with |- context [saveJson ?r ?f ?d ?mm] =>
      destruct (saveJson_returns r f d mm) as [m1 Hsave]; rewrite Hsave end.
    intros [= <- _] _. unfold resolves; simpl. apply obj_has_set_eq.
Qed.

Lemma chat_use_resolves rt cfg name s m s' m' :
  chat_use rt cfg name s m = (Ok s', m') ->
  resolves (historyState s) = true -> resolves (historyState s') = true.
Proof.
  unfold chat_use, set_messages, saveHistoryState.
  destruct (name =? ""); unfold_m; [now intros [= <- _]|].
  destruct (has_member (chats (historyState s)) name); simpl;
    [|now intros [= <- _]].
  destruct (obj_has (chats (historyState s)) name) eqn:E; simpl;
    [|discriminate].
  match goal with |- context [saveJson ?r ?f ?d ?mm] =>
    destruct (saveJson_returns r f d mm) as [m1 Hsave]; rewrite Hsave end.
  now intros [= <- _] _.
Qed.

Lemma next_name_present {A : Type} (o : list (string * A)) :
  next_name (Object_keys o) = "default" \/
  obj_has o (next_name (Object_keys o)) = true.
Proof.
  unfold next_name. destruct (Object_keys o) as [|k ks] eqn:E; auto.
  destruct (k =? ""); auto. right. apply In_Object_keys. rewrite E. now left.
Qed.

Lemma has_member_next {A : Type} (o : list (string * A)) :
  has_member o (next_name (Object_keys o))
  = obj_has o (next_name (Object_keys o)).
Proof.
  destruct (next_name_present o) as [->|H].
  - now apply has_member_plain.
  - now rewrite H, (has_member_own _ _ H).
Qed.

Lemma chat_delete_resolves rt cfg name s m s' m' :
  chat_delete rt cfg name s m = (Ok s', m') ->
  resolves (historyState s) = true -> resolves (historyState s') = true.
Proof.
  unfold chat_delete, set_messages, saveHistoryState. cbv zeta.
  rewrite has_member_next.
  destruct (name =? ""); unfold_m; [now intros [= <- _]|].
  destruct (has_member (chats (historyState s)) name) eqn:E; simpl;
    [|now intros [= <- _]].
  intros Hrun Hres. unfold resolves in Hres.
  destruct (current (historyState s)) as [c|] eqn:Hc; [|discriminate].
  destruct (String.eqb_spec c name) as [->|Hne].
  - match type of Hrun with context [saveJson ?r ?f ?d ?mm] =>
      destruct (saveJson_returns r f d mm) as [m1 Hsave];
      rewrite Hsave in Hrun end.
    injection Hrun as <- _. unfold resolves; simpl.
    destruct (obj_has _ (next_name _)) eqn:En; auto. apply obj_has_set_eq.
  - match type of Hrun with context [saveJson ?r ?f ?d ?mm] =>
      destruct (saveJson_returns r f d mm) as [m1 Hsave];
      rewrite Hsave in Hrun end.
    injection Hrun as <- _. unfold resolves; simpl.
    rewrite obj_has_delete_ne; auto.
Qed.

Lemma export_keeps_state rt file s m s' m' :
  export rt file s m = (Ok s', m') -> s' = s.
Proof.
  unfold export. destruct (file =? ""); unfold_m; [now intros [= <- _]|].
  destruct (writeFileSync_cases rt file
              (stringify rt (encode (historyState s))) m)
    as [[m1 H]|[e H]]; rewrite H; now intros [= <- _].
Qed.

Lemma ask_assistant_resolves rt cfg input s m s' m' :
  ask_assistant rt cfg input s m = (Ok s', m') ->
  resolves (historyState s) = true -> resolves (historyState s') = true.
Proof.
  unfold ask_assistant. unfold bind at 1. unfold push at 1, modify.
  unfold try_catch.
  match goal with |- context [bind ?c ?k ?mm] =>
    destruct (bind c k mm) as [[s1|e|] m1] eqn:Hrun end.
  - intros [= <- <-] _. revert Hrun. unfold bind at 1. unfold inspect at 1.
    unfold bind at 1.
    destruct (converse _ _ _ _) as [[msg|e|] m2]; try discriminate.
    unfold bind at 1.
    destruct (lift (content_text msg) m2) as [[t|e|] m3]; try discriminate.
    unfold bind at 1. unfold push at 1, modify.
    unfold bind at 1. unfold inspect at 1.
    unfold bind at 1. unfold lift at 1.
    destruct (without_system _) as [h|e|]; try discriminate.
    unfold bind at 1. unfold saveHistoryState.
    match goal with |- context [saveJson ?r ?f ?d ?mm] =>
      destruct (saveJson_returns r f d mm) as [m4 Hsave]; rewrite Hsave end.
    unfold ret. intros [= <- _]. unfold resolves; simpl. apply obj_has_set_eq.
  - unfold_m. now intros [= <- _].
  - discriminate.
Qed.

(** [C1] At the import handler the invariant fails: the state of the file
    is installed as it is, without the repair [loadHistoryState] makes, so
    a file whose [current] names no chat leaves the pointer dangling. *)
Theorem import_leaves_current_dangling :
  exists s' m',
    import Demo.runtime Demo.config "/tmp/blob.json"
      (mkSession fallback "default" [])
      (Demo.machine
         [("/tmp", Dir);
          ("/tmp/blob.json",
           File true true
             (Demo.print
                (JObj [("chats", JObj [("work", JArr [])]);
                       ("current", JStr "gone")])))])
    = (Ok (Some s'), m')
    /\ historyState s' = mkState (Some "gone") [("work", [])]
    /\ resolves (historyState s') = false.
Proof.
  eexists. eexists. split; [vm_compute; reflexivity|]. split; reflexivity.
Qed.

(** [C6] Deleting the current chat switches to the first remaining name
    in the order of [Object.keys], when that name is not empty; with no
    chat left it creates "default" and switches to it. *)
Theorem delete_current_switches rt cfg name s m :
  name <> "" ->
  obj_has (chats (historyState s)) name = true ->
  current (historyState s) = Some name ->
  exists s' m',
    chat_delete rt cfg name s m = (Ok s', m') /\
    match Object_keys (obj_delete (chats (historyState s)) name) with
    | k :: _ =>
        k <> "" ->
        historyState s'
          = mkState (Some k) (obj_delete (chats (historyState s)) name)
        /\ currentChat s' = k
    | [] =>
        historyState s' = mkState (Some "default") [("default", [])]
        /\ currentChat s' = "default"
    end.
Proof.
  intros Hname Hhas Hcur. unfold chat_delete, set_messages, saveHistoryState.
  cbv zeta. rewrite has_member_next. apply String.eqb_neq in Hname.
  rewrite Hname, (has_member_own _ _ Hhas), Hcur.
  rewrite String.eqb_refl. simpl. unfold_m.
  match goal with |- context [saveJson ?r ?f ?d ?mm] =>
    destruct (saveJson_returns r f d mm) as [m1 Hsave]; rewrite Hsave end.
  eexists. eexists. split; [reflexivity|]. simpl.
  destruct (Object_keys (obj_delete (chats (historyState s)) name))
    as [|k ks] eqn:Hkeys.
  - apply Object_keys_nil in Hkeys. rewrite Hkeys. simpl. auto.
  - intros Hk. simpl. apply String.eqb_neq in Hk. rewrite Hk.
    assert (Hin : obj_has (obj_delete (chats (historyState s)) name) k = true).
    { apply In_Object_keys. rewrite Hkeys. now left. }
    rewrite Hin. auto.
Qed.

Lemma delete_current_switches_witness :
  exists s' m',
    chat_delete Demo.runtime Demo.config "zeta" Cases.three_chats (Demo.machine [])
    = (Ok s', m')
    /\ historyState s' = mkState (Some "mid") [("mid", []); ("alpha", [])]
    /\ currentChat s' = "mid".
Proof.
  destruct (delete_current_switches Demo.runtime Demo.config "zeta"
              Cases.three_chats (Demo.machine []))
    as (s' & m' & Hrun & Hnext);
    [discriminate | reflexivity | reflexivity |].
  exists s', m'. split; [exact Hrun|]. apply Hnext. discriminate.
Defined.

(** [C6] as stated fails: with chats created in the order zeta, mid,
    alpha, deleting the current chat zeta switches to mid, and the least
    remaining name is alpha. *)
Lemma delete_is_not_lexicographic :
  exists s' m',
    chat_delete Demo.runtime Demo.config "zeta" Cases.three_chats (Demo.machine [])
    = (Ok s', m')
    /\ current (historyState s') = Some "mid"
    /\ lexicographically_first
         (List.map fst (obj_delete (chats (historyState Cases.three_chats)) "zeta"))
       = Some "alpha".
Proof.
  eexists. eexists. split; [vm_compute; reflexivity|]. split; reflexivity.
Qed.

(** What [/import] installs after [/export] is the store that the text of
    the export reads back as.  A runtime may list the members of an object
    in an order of its own, as long as it reads back the same members. *)
Lemma export_import_reads_back rt cfg file s s1 st m :
  file <> "" ->
  exportable rt file m = true ->
  parse rt (stringify rt (encode (historyState s))) = Some (encode st) ->
  exists m1 s2 m2,
    export rt file s m = (Ok s, m1)
    /\ import rt cfg file s1 m1 = (Ok (Some s2), m2)
    /\ historyState s2 = st.
Proof.
  intros Hfile Hexp Hcodec.
  assert (Hwrite : exists m1 w,
             writeFileSync rt file (stringify rt (encode (historyState s))) m
             = (Ok tt, m1)
             /\ fs m1 !! file
                = Some (File true w (stringify rt (encode (historyState s))))).
  { unfold exportable in Hexp. unfold writeFileSync.
    destruct (fs m !! file) as [[[] [] c|]|] eqn:Hf; try discriminate.
    - eexists. exists true. split; [reflexivity|]. simpl.
      apply lookup_insert_eq.
    - destruct (fs m !! dirname rt file) as [[|]|]; try discriminate.
      eexists. exists true. split; [reflexivity|]. simpl.
      apply lookup_insert_eq. }
  destruct Hwrite as (m1 & w & Hw & Hfs).
  destruct (import_installs rt cfg file s1 m1 w _ _ st
              Hfile Hfs Hcodec (imported_state_encode _))
    as (s2 & m2 & Himp & Hst).
  exists m1, s2, m2. split.
  - unfold export. apply String.eqb_neq in Hfile. rewrite Hfile.
    unfold_m. now rewrite Hw.
  - split; [exact Himp | exact Hst].
Qed.

(** [C8] Export followed by import of the same file restores the chats
    mapping and the current pointer. *)
Theorem export_import_round_trip rt cfg file s s1 m :
  file <> "" ->
  exportable rt file m = true ->
  parse rt (stringify rt (encode (historyState s)))
    = Some (encode (historyState s)) ->
  exists m1 s2 m2,
    export rt file s m = (Ok s, m1)
    /\ import rt cfg file s1 m1 = (Ok (Some s2), m2)
    /\ chats (historyState s2) = chats (historyState s)
    /\ current (historyState s2) = current (historyState s).
Proof.
  intros Hfile Hexp Hcodec.
  destruct (export_import_reads_back rt cfg file s s1 (historyState s) m
              Hfile Hexp Hcodec) as (m1 & s2 & m2 & Hex & Him & Hst).
  exists m1, s2, m2. rewrite Hst. auto.
Qed.

Lemma export_import_round_trip_witness :
  exists m1 s2 m2,
    export Demo.runtime "/tmp/out.json" Cases.three_chats
      (Demo.machine [("/tmp", Dir)]) = (Ok Cases.three_chats, m1)
    /\ import Demo.runtime Demo.config "/tmp/out.json"
         (mkSession fallback "default" []) m1 = (Ok (Some s2), m2)
    /\ chats (historyState s2) = chats (historyState Cases.three_chats)
    /\ current (historyState s2) = current (historyState Cases.three_chats).
Proof.
  apply (export_import_round_trip Demo.runtime Demo.config "/tmp/out.json"
           Cases.three_chats (mkSession fallback "default" [])
           (Demo.machine [("/tmp", Dir)]));
    [discriminate | reflexivity | reflexivity].
Defined.

(** ** Reading a file *)

Lemma str_take_length n s :
  (n <= String.length s)%nat -> String.length (str_take n s) = n.
Proof.
  revert s. induction n as [|n IH]; intros [|c s]; simpl; auto; try lia.
  intros H. rewrite IH; auto. lia.
Qed.

Lemma str_take_prefix n s : String.prefix (str_take n s) s = true.
Proof.
  revert s. induction n as [|n IH]; intros [|c s]; simpl; auto.
  rewrite IH. now destruct (ascii_dec c c).
Qed.

Lemma str_take_all n s :
  (String.length s <= n)%nat -> str_take n s = s.
Proof.
  revert s. induction n as [|n IH]; intros [|c s]; simpl; auto; try lia.
  intros H. rewrite IH; auto. lia.
Qed.

(** [C10] [readFile] never throws and never changes the machine.  On a
    readable regular file it returns the content when this has at most
    50000 characters, and otherwise the first 50000 characters followed by
    the truncation marker for the length of the content; when the file
    cannot be read the result is the read-error text. *)
Theorem readFile_total_and_bounded rt tx p m :
  exists r,
    readFile rt tx p m = (Ok r, m)
    /\ (forall path r' w c,
          p = Some (JStr path) ->
          fs m !! resolve rt path = Some (File r' w c) ->
          if r'
          then
            if (String.length c <=? READ_LIMIT)%nat
            then r = c
            else r = str_take READ_LIMIT c ++ tx_truncated tx (String.length c)
                 /\ String.length (str_take READ_LIMIT c) = READ_LIMIT
                 /\ String.prefix (str_take READ_LIMIT c) c = true
          else r = tx_read_error tx
                     ++ err_message (EACCES "open" (resolve rt path))).
Proof.
  unfold readFile, path_resolve, existsSync, statSync, readFileSync.
  destruct p as [[| | |path| |]|];
    try (eexists; split; [reflexivity | intros; discriminate]).
  unfold_m.
  destruct (fs m !! resolve rt path) as [[[] w c|]|] eqn:Hfs;
    repeat (cbn -[READ_LIMIT Nat.ltb Nat.leb str_take String.length];
            rewrite ?Hfs).
  - eexists. split; [reflexivity|]. intros path' r' w' c' [= <-].
    rewrite Hfs. intros [= <- <- <-].
    destruct (Nat.leb_spec (String.length c) READ_LIMIT) as [Hle|Hgt].
    + apply Nat.ltb_ge in Hle. now rewrite Hle.
    + pose proof Hgt as Hlt. apply Nat.ltb_lt in Hlt. rewrite Hlt.
      split; [reflexivity|]. split.
      * apply str_take_length. lia.
      * apply str_take_prefix.
  - eexists. split; [reflexivity|]. intros path' r' w' c' [= <-].
    rewrite Hfs. now intros [= <- <- <-].
  - eexists. split; [reflexivity|]. intros path' r' w' c' [= <-].
    rewrite Hfs. discriminate.
  - eexists. split; [reflexivity|]. intros path' r' w' c' [= <-].
    rewrite Hfs. discriminate.
Qed.

Lemma readFile_total_and_bounded_witness :
  readFile Demo.runtime Sessions.texts (Some (JStr "/tmp/a.txt"))
    (Demo.machine [("/tmp/a.txt", File true true "hello")])
  = (Ok "hello", Demo.machine [("/tmp/a.txt", File true true "hello")]).
Proof.
  destruct (readFile_total_and_bounded Demo.runtime Sessions.texts
              (Some (JStr "/tmp/a.txt"))
              (Demo.machine [("/tmp/a.txt", File true true "hello")]))
    as (r & Hrun & Hfile).
  specialize (Hfile "/tmp/a.txt" true true "hello" eq_refl eq_refl).
  vm_compute in Hfile. rewrite Hrun. now rewrite Hfile.
Defined.

(** The marker of either wording reports the length. *)
Lemma truncation_marker_first_program n :
  tx_truncated Sessions.texts n
  = nl ++ "...[TRUNCATED: " ++ string_of_nat n ++ " bytes]...".
Proof. reflexivity. Qed.

Lemma truncation_marker_other_programs n :
  tx_truncated texts_ru n
  = nl ++ "...[ОБРЕЗАНО: " ++ string_of_nat n ++ " байт]...".
Proof. reflexivity. Qed.

(** ** Writing a file *)

Lemma length_append s t :
  String.length (s ++ t) = (String.length s + String.length t)%nat.
Proof. induction s as [|c s IH]; simpl; auto. Qed.

Lemma str_rev_onto_append s acc :
  str_rev_onto s acc = str_rev_onto s EmptyString ++ acc.
Proof.
  revert acc. induction s as [|c s IH]; intros acc; simpl; auto.
  rewrite IH, (IH (String c EmptyString)).
  generalize (str_rev_onto s EmptyString) as r.
  induction r as [|d r IHr]; simpl; auto. now rewrite IHr.
Qed.

Lemma trim_start_keeps s c t :
  is_space c = false -> trim_start (s ++ String c t) <> EmptyString.
Proof.
  intros Hc. induction s as [|d s IH]; simpl.
  - now rewrite Hc.
  - destruct (is_space d); [exact IH | discriminate].
Qed.

Lemma str_rev_onto_not_empty s acc :
  acc <> EmptyString -> str_rev_onto s acc <> EmptyString.
Proof.
  revert acc. induction s as [|c s IH]; intros acc H; simpl;
    [assumption | apply IH; discriminate].
Qed.

Lemma str_rev_not_empty s : s <> EmptyString -> str_rev s <> EmptyString.
Proof.
  destruct s as [|c s]; [contradiction|]. intros _. unfold str_rev. simpl.
  apply str_rev_onto_not_empty. discriminate.
Qed.

(** A text that starts with a visible character does not trim to nothing. *)
Lemma js_trim_visible c s :
  is_space c = false -> js_trim (String c s) <> EmptyString.
Proof.
  intros Hc. unfold js_trim. simpl. rewrite Hc.
  apply str_rev_not_empty. unfold str_rev at 1. simpl.
  rewrite str_rev_onto_append. now apply trim_start_keeps.
Qed.

(** The header takes 94 characters and three times the path. *)
Lemma patch_length rt file old new :
  String.length (createTwoFilesPatch rt file file old new "Old" "New")
  = (94 + 3 * String.length file + String.length (hunks rt old new))%nat.
Proof.
  unfold createTwoFilesPatch. rewrite String.eqb_refl.
  repeat (rewrite length_append; simpl). lia.
Qed.

Lemma patch_visible rt file old new :
  (js_trim (createTwoFilesPatch rt file file old new "Old" "New") =? "")
  = false.
Proof.
  unfold createTwoFilesPatch. rewrite String.eqb_refl.
  apply String.eqb_neq. simpl. now apply js_trim_visible.
Qed.

(** What a call of the gate leaves: one more entry, nothing else but the
    pending decisions touched. *)
Lemma confirm_text action d auto m :
  exists b m',
    confirm action (Some (JStr d)) auto m = (Ok b, m')
    /\ gate m' = mkGateCall action (Some (JStr d)) auto :: gate m
    /\ fs m' = fs m /\ conv m' = conv m /\ remote m' = remote m.
Proof.
  unfold confirm, log_gate, await_decision. unfold_m. simpl.
  destruct auto; simpl; [eauto 10|].
  destruct (decisions m) as [|[line|] rest]; simpl; eauto 10.
Qed.

Lemma mkdirSync_frame d m o m' :
  mkdirSync d m = (o, m') ->
  gate m' = gate m /\ conv m' = conv m /\ remote m' = remote m.
Proof.
  unfold mkdirSync. destruct (fs m !! d) as [[]|]; intros [= <- <-]; auto.
Qed.

Lemma writeFileSync_frame rt p data m o m' :
  writeFileSync rt p data m = (o, m') ->
  gate m' = gate m /\ conv m' = conv m /\ remote m' = remote m.
Proof.
  unfold writeFileSync.
  destruct (fs m !! p) as [[r [] c|]|]; try (intros [= <- <-]; auto).
  destruct (fs m !! dirname rt p) as [[]|]; intros [= <- <-]; auto.
Qed.

(** The last statements of [writeFile]. *)
Definition write_out (rt : Runtime) (tx : Texts) (file text : string)
  : M string :=
  run mkdirSync (dirname rt file) in
  run writeFileSync rt file text in
  ret (tx_written tx file (String.length text)).

Lemma write_out_frame rt tx file text m :
  exists o m',
    write_out rt tx file text m = (o, m')
    /\ gate m' = gate m /\ o <> Stall.
Proof.
  unfold write_out. unfold_m.
  destruct (mkdirSync (dirname rt file) m) as [[[]|e|] m1] eqn:H1;
    pose proof (mkdirSync_frame _ _ _ _ H1) as (G1 & _).
  - destruct (writeFileSync rt file text m1) as [[[]|e|] m2] eqn:H2;
      pose proof (writeFileSync_frame _ _ _ _ _ _ H2) as (G2 & _).
    + eexists _, _. split; [reflexivity|]. split; [congruence|discriminate].
    + eexists _, _. split; [reflexivity|]. split; [congruence|discriminate].
    + exfalso. revert H2. unfold writeFileSync.
      destruct (fs m1 !! file) as [[r [] c|]|]; try discriminate.
      destruct (fs m1 !! dirname rt file) as [[]|]; discriminate.
  - eexists _, _. split; [reflexivity|]. split; [congruence|discriminate].
  - exfalso. revert H1. unfold mkdirSync.
    destruct (fs m !! dirname rt file) as [[]|]; discriminate.
Qed.

Lemma write_out_caught rt tx file text m :
  exists r m',
    match write_out rt tx file text m with
    | (Throw e, m') => (Ok (tx_write_error tx ++ err_message e), m')
    | other => other
    end = (Ok r, m')
    /\ gate m' = gate m.
Proof.
  destruct (write_out_frame rt tx file text m) as (o & m' & H & G & HS).
  rewrite H. destruct o as [r|e|]; [eauto | eauto | contradiction].
Qed.

Ltac write_step :=
  cbn -[createTwoFilesPatch js_trim String.length Nat.ltb str_take
        mkdirSync writeFileSync confirm].

(** What the guard [diff.trim() && diff.length > 100] lets through: a
    patch text of at most 100 characters, header included.  An existing
    file is then written without any gate call, and a path that does not
    exist gets the one call that asks about its creation. *)
Lemma writeFile_small_patch rt tx path text auto m :
  (forall node,
      fs m !! resolve rt path = Some node ->
      match node with
      | File true _ old =>
          (String.length
             (createTwoFilesPatch rt (resolve rt path) (resolve rt path)
                old text "Old" "New") <= 100)%nat
      | _ => True
      end ->
      exists r m',
        writeFile rt tx confirm (Some (JStr path)) (Some (JStr text)) auto m
        = (Ok r, m')
        /\ gate m' = gate m)
  /\ (fs m !! resolve rt path = None ->
      (String.length
         (createTwoFilesPatch rt (resolve rt path) (resolve rt path)
            EmptyString text "Old" "New") <= 100)%nat ->
      exists r m',
        writeFile rt tx confirm (Some (JStr path)) (Some (JStr text)) auto m
        = (Ok r, m')
        /\ gate m'
           = mkGateCall (tx_create_action tx) (Some (JStr (resolve rt path)))
               auto :: gate m).
Proof.
  split.
  - intros node Hfs Hsmall.
    unfold writeFile, path_resolve, existsSync, readFileSync, diff_input.
    unfold_m.
    destruct node as [[] w old|]; repeat (write_step; rewrite ?Hfs).
    + rewrite patch_visible. apply Nat.ltb_ge in Hsmall. rewrite Hsmall.
      repeat (write_step; rewrite ?Hfs).
      apply (write_out_caught rt tx (resolve rt path) text m).
    + eauto.
    + eauto.
  - intros Hfs Hsmall.
    unfold writeFile, path_resolve, existsSync, readFileSync, diff_input.
    unfold_m. repeat (write_step; rewrite ?Hfs).
    rewrite patch_visible. apply Nat.ltb_ge in Hsmall. rewrite Hsmall.
    repeat (write_step; rewrite ?Hfs).
    destruct (confirm_text (tx_create_action tx) (resolve rt path) auto m)
      as (b & m1 & Hc & G & _).
    rewrite Hc. destruct b; write_step.
    + destruct (write_out_caught rt tx (resolve rt path) text m1)
        as (r & m2 & Hw & G2).
      exists r, m2. split; [exact Hw | congruence].
    + eauto.
Qed.

Lemma writeFile_small_patch_witness :
  (exists r m',
      writeFile Demo.runtime Sessions.texts confirm
        (Some (JStr "/a")) (Some (JStr "x")) false
        (Demo.machine [("/", Dir); ("/a", File true true "x")]) = (Ok r, m')
      /\ gate m' = [])
  /\ (exists r m',
         writeFile Demo.runtime Sessions.texts confirm
           (Some (JStr "/a")) (Some (JStr EmptyString)) false
           (Demo.machine [("/", Dir)]) = (Ok r, m')
         /\ gate m' = [mkGateCall "Create new file" (Some (JStr "/a")) false]).
Proof.
  split.
  - apply (proj1 (writeFile_small_patch Demo.runtime Sessions.texts
                    "/a" "x" false
                    (Demo.machine [("/", Dir); ("/a", File true true "x")]))
             (File true true "x")).
    + reflexivity.
    + apply Nat.leb_le. vm_compute. reflexivity.
  - apply (proj2 (writeFile_small_patch Demo.runtime Sessions.texts
                    "/a" EmptyString false (Demo.machine [("/", Dir)]))).
    + reflexivity.
    + apply Nat.leb_le. vm_compute. reflexivity.
Defined.

(** Whatever the content, a path of three characters or more makes the
    patch text longer than 100 characters, and [writeFile] calls the gate:
    the header alone is long enough. *)
Lemma writeFile_always_asks rt tx path text auto w old m :
  fs m !! resolve rt path = Some (File true w old) ->
  (3 <= String.length (resolve rt path))%nat ->
  exists r m',
    writeFile rt tx confirm (Some (JStr path)) (Some (JStr text)) auto m
    = (Ok r, m')
    /\ gate m'
       = mkGateCall (tx_write_action tx (resolve rt path))
           (Some (JStr (str_take 3000
                          (createTwoFilesPatch rt (resolve rt path)
                             (resolve rt path) old text "Old" "New"))))
           auto :: gate m.
Proof.
  intros Hfs Hlen.
  unfold writeFile, path_resolve, existsSync, readFileSync, diff_input.
  unfold_m. repeat (write_step; rewrite ?Hfs).
  rewrite patch_visible.
  assert (Hlong : (100 <? String.length
                            (createTwoFilesPatch rt (resolve rt path)
                               (resolve rt path) old text "Old" "New"))%nat
                  = true).
  { apply Nat.ltb_lt. rewrite patch_length. lia. }
  rewrite Hlong. write_step.
  match goal with |- context [confirm ?a (Some (JStr ?d)) auto m] =>
    destruct (confirm_text a d auto m) as (b & m1 & Hc & G & _) end.
  rewrite Hc. destruct b; write_step.
  - destruct (write_out_caught rt tx (resolve rt path) text m1)
      as (r & m2 & Hw & G2).
    exists r, m2. split; [exact Hw | congruence].
  - eauto.
Qed.

(** [C5] Writing to a file the content it already has calls the gate.
    The guard tests the length of the whole patch text, and the header
    that the patch of /tmp/a.txt starts with is longer than 100
    characters on its own: the patch has no hunk, and the dialog is shown
    all the same. *)
Theorem writeFile_identical_content_asks :
  exists r m',
    writeFile Demo.runtime Sessions.texts confirm
      (Some (JStr "/tmp/a.txt")) (Some (JStr "hello")) false
      (Demo.machine [("/tmp", Dir); ("/tmp/a.txt", File true true "hello")])
    = (Ok r, m')
    /\ List.map gate_action (gate m') = ["Write file: /tmp/a.txt"]
    /\ hunks Demo.runtime "hello" "hello" = EmptyString.
Proof.
  eexists. eexists. split; [vm_compute; reflexivity|]. split; reflexivity.
Qed.

(** A patch of exactly 100 characters for a path that does not exist
    calls the gate too, for the creation of the file. *)
Lemma writeFile_new_file_asks :
  exists r m',
    writeFile Demo.runtime Sessions.texts confirm
      (Some (JStr "/a")) (Some (JStr EmptyString)) false
      (Demo.machine [("/", Dir)]) = (Ok r, m')
    /\ List.map gate_action (gate m') = ["Create new file"].
Proof.
  eexists. eexists. split; [vm_compute; reflexivity | reflexivity].
Qed.

(** ** Dispatch by name *)

Lemma executeTool_upto_unfold rt n name args cfg :
  executeTool_upto rt n name args cfg
  = executeTool_with rt
      (fun steps cfg' =>
         toolChain_with rt
           (match n with
            | S n' => fun tool a => executeTool_upto rt n' tool a cfg'
            | O => fun _ _ => ret EmptyString
            end) steps)
      name args cfg.
Proof. destruct n; reflexivity. Qed.

Lemma strip_prefix_app p s : strip_prefix p (p ++ s) = Some s.
Proof.
  induction p as [|c p IH]; simpl; [now destruct s|].
  now rewrite Ascii.eqb_refl.
Qed.

(** One leading [proxy_] is removed, whatever follows it. *)
Lemma cleanName_proxy rest :
  cleanName (Some (JStr ("proxy_" ++ rest))) = Ok rest.
Proof.
  unfold cleanName, replace_prefix. rewrite strip_prefix_app. reflexivity.
Qed.

(** [C9] A registered name with the prefix [proxy_] is dispatched exactly
    as the name itself. *)
Theorem proxy_prefix_dispatch rt t args cfg m :
  In t registered ->
  executeTool rt (Some (JStr ("proxy_" ++ t))) args cfg m
  = executeTool rt (Some (JStr t)) args cfg m.
Proof.
  intros Ht. unfold executeTool. rewrite !executeTool_upto_unfold.
  unfold registered in Ht. simpl in Ht.
  repeat (destruct Ht as [<-|Ht]; [reflexivity|]). contradiction.
Qed.

Lemma proxy_prefix_dispatch_witness :
  executeTool Demo.runtime (Some (JStr "proxy_run_shell"))
    (JObj [("cmd", JStr "echo hi")]) Demo.config (Demo.machine [])
  = executeTool Demo.runtime (Some (JStr "run_shell"))
      (JObj [("cmd", JStr "echo hi")]) Demo.config (Demo.machine []).
Proof.
  apply (proxy_prefix_dispatch Demo.runtime "run_shell"
           (JObj [("cmd", JStr "echo hi")]) Demo.config (Demo.machine [])).
  right. right. right. left. reflexivity.
Defined.

(** [C9] as stated fails.  A prefixed name whose remainder is not
    registered hits the fallback, which reports the name as it came; and
    a name with the prefix twice hits the fallback while the same name
    with one prefix removed runs the shell handler. *)
Lemma proxy_prefix_unknown :
  (fst (executeTool Demo.runtime (Some (JStr "proxy_foo")) (JObj [])
          Demo.config (Demo.machine []))
   = Ok "❌ Unknown tool: proxy_foo"
   /\ fst (executeTool Demo.runtime (Some (JStr "foo")) (JObj [])
             Demo.config (Demo.machine []))
      = Ok "❌ Unknown tool: foo")
  /\ (fst (executeTool Demo.runtime (Some (JStr "proxy_proxy_run_shell"))
             (JObj [("cmd", JStr "echo hi")]) Demo.config (Demo.machine []))
      = Ok "❌ Unknown tool: proxy_proxy_run_shell"
      /\ fst (executeTool Demo.runtime (Some (JStr "proxy_run_shell"))
                (JObj [("cmd", JStr "echo hi")]) Demo.config (Demo.machine []))
         = Ok ("STDOUT:" ++ nl ++ "ran echo hi")).
Proof. repeat split; vm_compute; reflexivity. Qed.

(** ** The recursion of [executeTool] and [toolChain] *)

Lemma list_max_nat_In x l : In x l -> (x <= list_max_nat l)%nat.
Proof.
  induction l as [|y l IH]; simpl; [tauto|]. intros [->|H]; [lia|].
  specialize (IH H). lia.
Qed.

Lemma depth_field fields k v :
  obj_get fields k = Some v -> (json_depth v < json_depth (JObj fields))%nat.
Proof.
  intros H. simpl. apply Nat.lt_succ_r.
  induction fields as [|[k' v'] fields IH]; simpl in *; [discriminate|].
  destruct (k' =? k).
  - injection H as ->. lia.
  - specialize (IH H). lia.
Qed.

Lemma depth_item items s :
  In s items -> (json_depth s < json_depth (JArr items))%nat.
Proof.
  intros H. simpl. apply Nat.lt_succ_r. apply list_max_nat_In.
  now apply in_map.
Qed.

Lemma depth_prop v k a :
  prop_or_none v k = Some a -> (json_depth a < json_depth v)%nat.
Proof.
  unfold prop_or_none. destruct v; simpl; try discriminate.
  apply depth_field.
Qed.

Lemma depth_step_args s :
  (json_depth (step_args s) <= Nat.max 1 (json_depth s))%nat.
Proof.
  unfold step_args.
  assert (Hstep : (json_depth (or_else (Some s) (JObj []))
                   <= Nat.max 1 (json_depth s))%nat).
  { unfold or_else. destruct (truthy s); simpl; lia. }
  destruct (prop_or_none (or_else (Some s) (JObj [])) "args") as [a|] eqn:Ha.
  - apply depth_prop in Ha. unfold or_else at 1.
    destruct (truthy a); simpl; lia.
  - simpl. lia.
Qed.

Lemma js_prop_not_null v k :
  v <> JNull -> js_prop v k = Ok (prop_or_none v k).
Proof. unfold prop_or_none. destruct v; simpl; auto. contradiction. Qed.

Lemma step_not_null s : or_else (Some s) (JObj []) <> JNull.
Proof. unfold or_else. destruct s; simpl; try discriminate.
  - destruct b; discriminate.
  - destruct (negb (n =? 0)%Z); discriminate.
  - destruct (negb (s =? "")); discriminate.
Qed.

(** One turn of the loop of [toolChain]. *)
Lemma chain_steps_cons run_tool s rest i m :
  chain_steps run_tool (s :: rest) i m
  = (let* result := run_tool (step_tool s) (step_args s) in
     let* more := chain_steps run_tool rest (S i) in
     ret (chain_entry i (step_tool s) result :: more)) m.
Proof.
  simpl. unfold step_tool, step_args.
  rewrite !(js_prop_not_null _ _ (step_not_null s)). reflexivity.
Qed.

Lemma chain_steps_ext run1 run2 items :
  (forall s m, In s items ->
     run1 (step_tool s) (step_args s) m = run2 (step_tool s) (step_args s) m) ->
  forall i m,
    chain_steps run1 items i m = chain_steps run2 items i m.
Proof.
  induction items as [|s rest IH]; intros Hrun i m; [reflexivity|].
  rewrite !chain_steps_cons. unfold_m.
  rewrite (Hrun s m (or_introl eq_refl)).
  destruct (run2 (step_tool s) (step_args s) m) as [[r|e|] m1]; auto.
  rewrite IH; auto. intros s' m' Hin. apply Hrun. now right.
Qed.

Lemma toolChain_with_ext rt run1 run2 steps m :
  (forall items s m',
     steps = Some (JArr items) -> In s items ->
     run1 (step_tool s) (step_args s) m' = run2 (step_tool s) (step_args s) m') ->
  toolChain_with rt run1 steps m = toolChain_with rt run2 steps m.
Proof.
  intros Hrun. unfold toolChain_with.
  destruct steps as [[| | | |[|s rest]|]|]; try reflexivity.
  unfold_m. rewrite (chain_steps_ext run1 run2 (s :: rest)); auto.
  intros s' m' Hin. now apply (Hrun (s :: rest)).
Qed.

Lemma executeTool_with_ext rt chain1 chain2 name args cfg m :
  (forall steps m', js_prop args "steps" = Ok steps ->
     chain1 steps cfg m' = chain2 steps cfg m') ->
  executeTool_with rt chain1 name args cfg m
  = executeTool_with rt chain2 name args cfg m.
Proof.
  intros Hchain. unfold executeTool_with. unfold_m.
  destruct (cleanName name) as [clean|e|]; try reflexivity.
  destruct (clean =? "list_dir"); [reflexivity|].
  destruct (clean =? "read_file"); [reflexivity|].
  destruct (clean =? "write_file"); [reflexivity|].
  destruct (clean =? "run_shell"); [reflexivity|].
  destruct (clean =? "http_request"); [reflexivity|].
  destruct (clean =? "web_search"); [reflexivity|].
  destruct (clean =? "tool_chain"); [|reflexivity].
  destruct (js_prop args "steps") as [steps|e|] eqn:Hs; auto.
Qed.

Lemma steps_are_deeper args items s :
  js_prop args "steps" = Ok (Some (JArr items)) -> In s items ->
  (json_depth (step_args s) < json_depth args)%nat.
Proof.
  intros Hsteps Hin. destruct args; simpl in Hsteps; try discriminate.
  injection Hsteps as Hget. apply depth_field in Hget.
  apply depth_item in Hin. pose proof (depth_step_args s) as Hs.
  remember (json_depth (JObj fields)) as d0.
  remember (json_depth (JArr items)) as d1.
  remember (json_depth (step_args s)) as d2.
  remember (json_depth s) as d3. clear - Hget Hin Hs. lia.
Qed.

(** A bound of the depth of the arguments is as good as any other. *)
Lemma executeTool_upto_stable rt cfg n1 :
  forall n2 name args m,
    (json_depth args <= n1)%nat -> (json_depth args <= n2)%nat ->
    executeTool_upto rt n1 name args cfg m
    = executeTool_upto rt n2 name args cfg m.
Proof.
  induction n1 as [|n1 IH]; intros n2 name args m H1 H2;
    rewrite !executeTool_upto_unfold; apply executeTool_with_ext;
    intros steps m' Hsteps; apply toolChain_with_ext;
    intros items s m'' -> Hin.
  - exfalso. destruct args; simpl in Hsteps; try discriminate.
    injection Hsteps as Hget. apply depth_field in Hget.
    apply Nat.le_0_r in H1. rewrite H1 in Hget. now apply Nat.nlt_0_r in Hget.
  - pose proof (steps_are_deeper _ _ _ Hsteps Hin) as Hdepth.
    destruct n2 as [|n2]; [lia|]. apply IH; lia.
Qed.

(** The equation of the source: [executeTool] runs its body with
    [toolChain], which runs every step with [executeTool]. *)
Lemma executeTool_equation rt name args cfg m :
  executeTool rt name args cfg m
  = executeTool_with rt (toolChain rt) name args cfg m.
Proof.
  unfold executeTool. rewrite executeTool_upto_unfold.
  apply executeTool_with_ext. intros steps m' Hsteps. unfold toolChain.
  apply toolChain_with_ext. intros items s m'' -> Hin.
  pose proof (steps_are_deeper _ _ _ Hsteps Hin) as Hdepth.
  unfold executeTool.
  destruct (json_depth args) as [|n]; [lia|].
  apply executeTool_upto_stable; lia.
Qed.

(** ** Handlers that always answer *)

Lemma confirm_ready action detail auto m :
  auto = true \/ dialog_text detail = Ok tt ->
  exists b m',
    confirm action detail auto m = (Ok b, m')
    /\ gate m' = mkGateCall action detail auto :: gate m.
Proof.
  intros H. unfold confirm, log_gate, await_decision. unfold_m. simpl.
  destruct auto; simpl; [eauto|].
  destruct H as [H|H]; [discriminate|]. rewrite H.
  destruct (decisions m) as [|[line|] rest]; simpl; eauto.
Qed.

Lemma listDir_total rt tx p m : exists r, listDir rt tx p m = (Ok r, m).
Proof.
  unfold listDir, path_resolve, existsSync, statSync, readdirSync.
  destruct p as [[| | |path| |]|]; try (eexists; reflexivity).
  unfold_m.
  destruct (fs m !! resolve rt path) as [[r w c|]|] eqn:Hfs;
    repeat (cbn; rewrite ?Hfs); eauto.
Qed.

Lemma readFile_total rt tx p m : exists r, readFile rt tx p m = (Ok r, m).
Proof.
  destruct (readFile_total_and_bounded rt tx p m) as (r & H & _). eauto.
Qed.

Lemma writeFile_total rt tx p content auto m :
  exists r m', writeFile rt tx confirm p content auto m = (Ok r, m').
Proof.
  unfold writeFile, path_resolve, existsSync, readFileSync, diff_input.
  destruct p as [[| | |path| |]|]; try (eexists _, _; reflexivity).
  unfold_m.
  destruct (fs m !! resolve rt path) as [[[] w old|]|] eqn:Hfs;
    repeat (write_step; rewrite ?Hfs); eauto;
    destruct content as [[| | |text| |]|]; write_step; eauto.
  - destruct (negb _ && _); repeat (write_step; rewrite ?Hfs).
    + match goal with |- context [confirm ?a (Some (JStr ?d)) auto m] =>
        destruct (confirm_text a d auto m) as (b & m1 & Hc & _) end.
      rewrite Hc. destruct b; write_step; eauto.
      destruct (write_out_caught rt tx (resolve rt path) text m1)
        as (r & m2 & Hw & _). eauto.
    + destruct (write_out_caught rt tx (resolve rt path) text m)
        as (r & m2 & Hw & _). eauto.
  - destruct (negb _ && _); repeat (write_step; rewrite ?Hfs).
    + match goal with |- context [confirm ?a (Some (JStr ?d)) auto m] =>
        destruct (confirm_text a d auto m) as (b & m1 & Hc & _) end.
      rewrite Hc. destruct b; write_step; eauto.
      destruct (write_out_caught rt tx (resolve rt path) text m1)
        as (r & m2 & Hw & _). eauto.
    + match goal with |- context [confirm ?a (Some (JStr ?d)) auto m] =>
        destruct (confirm_text a d auto m) as (b & m1 & Hc & _) end.
      rewrite Hc. destruct b; write_step; eauto.
      destruct (write_out_caught rt tx (resolve rt path) text m1)
        as (r & m2 & Hw & _). eauto.
Qed.

Lemma runShell_total rt tx cmd auto m :
  shell_ready cmd = true ->
  exists r m', runShell rt tx confirm cmd auto m = (Ok r, m').
Proof.
  destruct cmd as [[| | |c| |]|]; try discriminate. intros _.
  unfold runShell, run_exec. unfold_m.
  destruct (confirm_text (tx_shell_action tx) c auto m) as (b & m1 & Hc & _).
  rewrite Hc. destruct b; simpl; eauto.
  destruct (exec rt c (fs m1)); eauto.
Qed.

Lemma httpRequest_total rt tx args auto m :
  args <> JNull ->
  exists r m', httpRequest rt tx confirm args auto m = (Ok r, m').
Proof.
  intros Hargs. unfold httpRequest, do_fetch. unfold_m.
  rewrite !(js_prop_not_null _ _ Hargs).
  destruct (prop_or_none args "url") as [url|]; eauto.
  destruct (truthy url); simpl; eauto.
  match goal with |- context [confirm ?a (Some (JStr ?d)) auto m] =>
    destruct (confirm_text a d auto m) as (b & m1 & Hc & _) end.
  rewrite Hc. destruct b; simpl; eauto.
  destruct (fetch rt _ (clock m1)); eauto.
Qed.

Lemma webSearch_total rt args auto m :
  args <> JNull -> search_ready (prop_or_none args "query") = true ->
  exists r m',
    webSearch rt Sessions.texts confirm args auto m = (Ok r, m').
Proof.
  intros Hargs Hq. unfold webSearch, do_fetch. unfold_m.
  rewrite !(js_prop_not_null _ _ Hargs).
  destruct (prop_or_none args "query") as [query|]; eauto.
  destruct (truthy query) eqn:Ht; simpl; eauto.
  match goal with |- context [confirm ?a (Some query) auto m] =>
    destruct (confirm_ready a (Some query) auto m) as (b & m1 & Hc & _) end.
  { right. destruct query; simpl in *; auto; try discriminate;
      rewrite Ht in Hq; discriminate. }
  rewrite Hc. destruct b; simpl; eauto.
  destruct (fetch rt _ (clock m1)); eauto.
Qed.

(** ** Chains *)

Lemma chain_steps_total run_tool items :
  (forall s m, In s items ->
     exists r m', run_tool (step_tool s) (step_args s) m = (Ok r, m')) ->
  forall i m,
    exists outputs m',
      chain_steps run_tool items i m = (Ok outputs, m')
      /\ chain_run run_tool items i m outputs m'
      /\ List.length outputs = List.length items.
Proof.
  induction items as [|s rest IH]; intros Hrun i m.
  - exists [], m. repeat split. constructor.
  - rewrite chain_steps_cons. unfold_m.
    destruct (Hrun s m (or_introl eq_refl)) as (r & m1 & Hr). rewrite Hr.
    destruct (IH (fun s' m' H => Hrun s' m' (or_intror H)) (S i) m1)
      as (outs & m2 & Hrest & Hchain & Hlen).
    rewrite Hrest. eexists _, _. split; [reflexivity|]. split.
    + econstructor; eauto.
    + simpl. now rewrite Hlen.
Qed.

Lemma call_ok_unfold n name args :
  call_ok n name args
  = match args, cleanName name with
    | JNull, _ => false
    | _, Ok clean =>
        if clean =? "run_shell" then shell_ready (prop_or_none args "cmd")
        else if clean =? "web_search"
        then search_ready (prop_or_none args "query")
        else if clean =? "tool_chain" then
          match prop_or_none args "steps" with
          | Some (JArr (s :: rest)) =>
              match n with
              | S n' =>
                  forallb
                    (fun s => call_ok n' (step_tool s) (step_args s))
                    (s :: rest)
              | O => false
              end
          | _ => true
          end
        else true
    | _, _ => false
    end.
Proof. destruct n; reflexivity. Qed.

Lemma executeTool_with_total rt chain name args cfg m clean :
  args <> JNull ->
  cleanName name = Ok clean ->
  (clean = "run_shell" -> shell_ready (prop_or_none args "cmd") = true) ->
  (clean = "web_search" -> search_ready (prop_or_none args "query") = true) ->
  (clean = "tool_chain" ->
   exists r m', chain (prop_or_none args "steps") cfg m = (Ok r, m')) ->
  exists r m', executeTool_with rt chain name args cfg m = (Ok r, m').
Proof.
  intros Hargs Hclean Hshell Hsearch Hchain.
  unfold executeTool_with. unfold_m. rewrite Hclean.
  rewrite ?(js_prop_not_null _ _ Hargs).
  destruct (String.eqb_spec clean "list_dir") as [_|_].
  { destruct (listDir_total rt texts (prop_or_none args "path") m) as (r & H).
    eauto. }
  destruct (String.eqb_spec clean "read_file") as [_|_].
  { destruct (readFile_total rt texts (prop_or_none args "path") m) as (r & H).
    eauto. }
  destruct (String.eqb_spec clean "write_file") as [_|_].
  { apply writeFile_total. }
  destruct (String.eqb_spec clean "run_shell") as [E|_].
  { apply runShell_total. auto. }
  destruct (String.eqb_spec clean "http_request") as [_|_].
  { now apply httpRequest_total. }
  destruct (String.eqb_spec clean "web_search") as [E|_].
  { apply webSearch_total; auto. }
  destruct (String.eqb_spec clean "tool_chain") as [E|_]; eauto.
Qed.

Lemma call_ok_inv n name args :
  call_ok n name args = true ->
  args <> JNull
  /\ exists clean,
    cleanName name = Ok clean
    /\ (clean = "run_shell" -> shell_ready (prop_or_none args "cmd") = true)
    /\ (clean = "web_search" ->
        search_ready (prop_or_none args "query") = true)
    /\ (clean = "tool_chain" ->
        forall s rest,
          prop_or_none args "steps" = Some (JArr (s :: rest)) ->
          exists n',
            n = S n'
            /\ forallb (fun s => call_ok n' (step_tool s) (step_args s))
                 (s :: rest) = true).
Proof.
  rewrite call_ok_unfold. intros H.
  assert (Hargs : args <> JNull) by (intros ->; discriminate).
  split; [exact Hargs|].
  destruct (cleanName name) as [clean|e|]; try (destruct args; discriminate).
  exists clean. split; [reflexivity|].
  assert (H' :
    (if clean =? "run_shell" then shell_ready (prop_or_none args "cmd")
     else if clean =? "web_search"
     then search_ready (prop_or_none args "query")
     else if clean =? "tool_chain" then
       match prop_or_none args "steps" with
       | Some (JArr (s :: rest)) =>
           match n with
           | S n' =>
               forallb (fun s => call_ok n' (step_tool s) (step_args s))
                 (s :: rest)
           | O => false
           end
       | _ => true
       end
     else true) = true).
  { destruct args; auto; discriminate. }
  clear H. repeat split.
  - intros ->. exact H'.
  - intros ->. exact H'.
  - intros -> s rest Hsteps. simpl in H'. rewrite Hsteps in H'.
    destruct n as [|n']; [discriminate|]. eauto.
Qed.

(** A well-formed call is answered: its handler returns a text. *)
Lemma executeTool_upto_total rt cfg n :
  forall name args m,
    call_ok n name args = true ->
    exists r m', executeTool_upto rt n name args cfg m = (Ok r, m').
Proof.
  induction n as [|n IH]; intros name args m Hok;
    destruct (call_ok_inv _ _ _ Hok)
      as (Hargs & clean & Hclean & Hshell & Hsearch & Hchain);
    rewrite executeTool_upto_unfold;
    apply (executeTool_with_total rt _ name args cfg m clean); auto;
    intros E; specialize (Hchain E); unfold toolChain_with;
    destruct (prop_or_none args "steps") as [[| | | |[|s rest]|]|] eqn:Hs;
    eauto.
  - destruct (Hchain s rest eq_refl) as (n' & Hn & _). discriminate.
  - destruct (Hchain s rest eq_refl) as (n' & [= <-] & Hall).
    destruct (chain_steps_total
                (fun tool a => executeTool_upto rt n tool a cfg) (s :: rest))
      with (i := 1%nat) (m := m) as (outs & m' & Hrun & _).
    { intros s' m0 Hin. apply IH.
      rewrite forallb_forall in Hall. now apply Hall. }
    unfold_m. rewrite Hrun. eauto.
Qed.

(** [C3] A chain of one or more well-formed steps returns the JSON text
    of one entry per step, in the order of the steps: every step is run
    by [executeTool] on the machine the step before left, whatever text
    that step returned, and its entry holds its number, its tool and its
    result. *)
Theorem toolChain_one_entry_per_step rt cfg s rest m :
  forallb well_formed_step (s :: rest) = true ->
  exists outputs m',
    toolChain rt (Some (JArr (s :: rest))) cfg m
    = (Ok (stringify rt (JArr outputs)), m')
    /\ chain_run (fun tool a => executeTool rt tool a cfg)
         (s :: rest) 1 m outputs m'
    /\ List.length outputs = List.length (s :: rest).
Proof.
  intros Hall. unfold toolChain, toolChain_with.
  destruct (chain_steps_total (fun tool a => executeTool rt tool a cfg)
              (s :: rest)) with (i := 1%nat) (m := m)
    as (outs & m' & Hrun & Hchain & Hlen).
  { intros s' m0 Hin. unfold executeTool. apply executeTool_upto_total.
    rewrite forallb_forall in Hall. now apply Hall. }
  unfold_m. rewrite Hrun. eauto.
Qed.

Lemma toolChain_one_entry_per_step_witness :
  exists outputs m',
    toolChain Demo.runtime (Some (JArr Cases.two_steps)) Demo.config
      (Demo.machine [("/tmp", Dir)])
    = (Ok (Demo.print (JArr outputs)), m')
    /\ chain_run (fun tool a => executeTool Demo.runtime tool a Demo.config)
         Cases.two_steps 1 (Demo.machine [("/tmp", Dir)]) outputs m'
    /\ List.length outputs = 2%nat.
Proof.
  apply (toolChain_one_entry_per_step Demo.runtime Demo.config
           (JObj [("tool", JStr "read_file");
                  ("args", JObj [("path", JStr "/tmp/missing.txt")])])
           [JObj [("tool", JStr "run_shell");
                  ("args", JObj [("cmd", JStr "echo hi")])]]
           (Demo.machine [("/tmp", Dir)])).
  reflexivity.
Defined.

(** The entries of that chain: the error text of the first step, then the
    output of the second. *)
Lemma toolChain_after_an_error_text :
  fst (toolChain Demo.runtime (Some (JArr Cases.two_steps)) Demo.config
         (Demo.machine [("/tmp", Dir)]))
  = Ok (Demo.print
          (JArr [chain_entry 1 (Some (JStr "read_file"))
                   "❌ File not found: /tmp/missing.txt";
                 chain_entry 2 (Some (JStr "run_shell"))
                   ("STDOUT:" ++ nl ++ "ran echo hi")])).
Proof. vm_compute. reflexivity. Qed.

(** [C3] as stated fails for a list of no steps: the result is the error
    text, not the text of a list without entries. *)
Lemma toolChain_no_steps :
  toolChain Demo.runtime (Some (JArr [])) Demo.config (Demo.machine [])
  = (Ok "❌ Error: steps empty", Demo.machine [])
  /\ stringify Demo.runtime (JArr []) = "[]".
Proof. split; reflexivity. Qed.

(** A step that is not well formed: [run_shell] without a command makes
    the dialog throw, and no entry is returned for any step. *)
Lemma toolChain_malformed_step_throws :
  fst (toolChain Demo.runtime
         (Some (JArr [JObj [("tool", JStr "run_shell")];
                      JObj [("tool", JStr "list_dir");
                            ("args", JObj [("path", JStr "/tmp")])]]))
         Demo.config (Demo.machine [("/tmp", Dir)]))
  = Throw (TypeError "Cannot read properties of undefined (reading 'slice')").
Proof. vm_compute. reflexivity. Qed.

(** ** Arguments that are not JSON *)

(** Decoding is a function: it has a value for every text, and that value
    is the empty mapping when the text does not parse. *)
Lemma decode_arguments_malformed rt text :
  parse rt text = None -> decode_arguments rt (Some (JStr text)) = JObj [].
Proof. unfold decode_arguments. simpl. now intros ->. Qed.

(** With the empty mapping every tool but [run_shell] answers. *)
Lemma empty_arguments_answered rt cfg name clean m :
  cleanName name = Ok clean -> clean <> "run_shell" ->
  exists r m', executeTool rt name (JObj []) cfg m = (Ok r, m').
Proof.
  intros Hclean Hne. unfold executeTool. apply executeTool_upto_total.
  rewrite call_ok_unfold, Hclean. apply String.eqb_neq in Hne. rewrite Hne.
  destruct (clean =? "web_search"); [reflexivity|].
  destruct (clean =? "tool_chain"); reflexivity.
Qed.

(** [C7] For a [run_shell] call whose arguments are the text of a single
    opening brace, decoding gives the empty mapping, and the handler then
    throws: the dialog reads [slice] of the missing command, and with
    [auto_yes] set [exec] refuses it.  The exception leaves [handleTools]
    and ends the round in the [catch] block of [main]. *)
Theorem malformed_shell_arguments_abort_round :
  parse Demo.runtime "{" = None
  /\ decode_arguments Demo.runtime (Some (JStr "{")) = JObj []
  /\ fst (handleTools Demo.runtime (Some Cases.cut_short) Demo.config
            (Demo.machine []))
     = Throw (TypeError "Cannot read properties of undefined (reading 'slice')")
  /\ fst (handleTools Demo.runtime (Some Cases.cut_short)
            (mkConfig "sk-demo" true "You are terse." false 5 "[DONE]")
            (Demo.machine []))
     = Throw (not_a_string "command" None)
  /\ conv (snd (ask_assistant Demo.runtime Demo.config "run the tests"
                  Cases.fresh_session
                  (Cases.machine [] [Cases.reply Cases.cut_short]
                     [system_message Demo.config])))
     = [system_message Demo.config; user_message "run the tests"].
Proof. repeat split; vm_compute; reflexivity. Qed.

(** ** A round that fails *)

Lemma removelast_app_one {A : Type} (l : list A) (x : A) :
  removelast (l ++ [x])%list = l.
Proof. apply removelast_last. Qed.

Lemma callApi_fails tx cfg m :
  api_key cfg = ""
  \/ match remote m with ApiReply _ :: _ => False | _ => True end ->
  exists e m',
    callApi tx cfg m = (Throw e, m')
    /\ conv m' = conv m /\ fs m' = fs m.
Proof.
  intros Hfail. unfold callApi. destruct (api_key cfg =? "") eqn:Hkey.
  - eexists _, _. split; [reflexivity | auto].
  - destruct Hfail as [Hfail|Hfail].
    { rewrite Hfail in Hkey. discriminate. }
    destruct (remote m) as [|[data|status body|msg] rest];
      try contradiction; eexists _, _; (split; [reflexivity | auto]).
Qed.

(** When the first request of the round fails (no key, or the endpoint
    does not answer with a body), the one message taken off the
    conversation is the user message: the conversation, the session and
    the files are as before the round. *)
Lemma first_request_failure_restores rt cfg input s m :
  api_key cfg = ""
  \/ match remote m with ApiReply _ :: _ => False | _ => True end ->
  exists m',
    ask_assistant rt cfg input s m = (Ok s, m')
    /\ conv m' = conv m /\ fs m' = fs m.
Proof.
  intros Hfail. unfold ask_assistant.
  unfold bind at 1. unfold push at 1, modify at 1.
  unfold try_catch. unfold bind at 1. unfold inspect at 1.
  cbn [converse]. unfold bind at 1. unfold bind at 1.
  match goal with |- context [callApi ?tx cfg ?m1] =>
    destruct (callApi_fails tx cfg m1) as (e & m2 & Hcall & Hconv & Hfs);
      [exact Hfail|]; rewrite Hcall end.
  unfold bind, pop, modify, ret. eexists. split; [reflexivity|].
  simpl. rewrite Hconv, Hfs. simpl. now rewrite removelast_app_one.
Qed.

(** [C4] A failure after a tool round: the endpoint answers with a call
    of [list_dir] and is unreachable for the next request.  The [catch]
    block takes the tool result off the conversation; the user message
    and the assistant message with the call stay.  In the second program
    [main] then saves what is left. *)
Theorem late_failure_keeps_user_message :
  (exists m',
      ask_assistant Demo.runtime Demo.config "what is in /tmp?"
        Cases.fresh_session
        (Cases.machine [("/tmp", Dir)]
           [Cases.reply Cases.list_tmp; ApiUnreachable "fetch failed"]
           [system_message Demo.config])
      = (Ok Cases.fresh_session, m')
      /\ conv m'
         = [system_message Demo.config; user_message "what is in /tmp?";
            Cases.list_tmp])
  /\ (exists m',
         Autopilot.sendToAssistant Demo.runtime Demo.config "what is in /tmp?"
           (Cases.machine [("/tmp", Dir)]
              [Cases.reply Cases.list_tmp; ApiUnreachable "fetch failed"]
              [system_message Demo.config])
         = (Ok EmptyString, m')
         /\ conv m'
            = [system_message Demo.config; user_message "what is in /tmp?";
               Cases.list_tmp]).
Proof.
  split; eexists; (split; [vm_compute; reflexivity | reflexivity]).
Qed.

(** ** The autopilot *)

Section AutopilotFacts.
Import Autopilot.
Context (send : string -> M string) (waits : Prop).
Hypothesis send_answers :
  forall p m,
    match fst (send p m) with
    | Ok _ => True
    | Throw _ => False
    | Stall => waits
    end.

(** The loop follows the transition rule, for an exchange that never
    throws: it ends as the rule says, or is left waiting where the
    exchange is. *)
Lemma autopilot_rounds_follow cfg force fuel :
  forall steps next replies m,
    (maxSteps cfg - steps - 1 <= Z.of_nat fuel)%Z ->
    match autopilot_rounds send fuel cfg force steps next replies m with
    | (Ok (halt, all), _) =>
        exists new,
          all = (replies ++ new)%list /\ halts cfg force steps halt new
    | (Throw _, _) => False
    | (Stall, _) => waits
    end.
Proof using send_answers.
  induction fuel as [|fuel IH]; intros steps next replies m Hfuel;
    simpl; unfold bind at 1;
    pose proof (send_answers next m) as Hsend;
    destruct (send next m) as [[r|e|] m1]; simpl in Hsend; try easy;
    (destruct (includes r (doneTag cfg)) eqn:Hdone;
     [exists [r]; split; [reflexivity | now constructor]|]);
    (destruct (autopilot cfg || force) eqn:Hauto; simpl;
     [|exists [r]; split; [reflexivity | now constructor]]);
    (destruct (Z.leb_spec (maxSteps cfg) (steps + 1)) as [Hle|Hgt];
     [exists [r]; split; [reflexivity | now constructor]|]).
  - lia.
  - specialize (IH (steps + 1)%Z (continuation cfg)
                  (replies ++ [r])%list m1 ltac:(lia)).
    destruct (autopilot_rounds send fuel cfg force (steps + 1)
                (continuation cfg) (replies ++ [r])%list m1)
      as [[[halt all]|e|] m2]; try easy.
    destruct IH as (new & -> & Hrest).
    exists (r :: new). split; [now rewrite <- app_assoc|].
    now apply halts_continue.
Qed.
End AutopilotFacts.

(** When every exchange returns, so does the loop. *)
Lemma autopilot_rounds_halts send :
  (forall p m, exists r m', send p m = (Ok r, m')) ->
  forall cfg force fuel steps next replies m,
    (Autopilot.maxSteps cfg - steps - 1 <= Z.of_nat fuel)%Z ->
    exists halt new m',
      Autopilot.autopilot_rounds send fuel cfg force steps next replies m
      = (Ok (halt, (replies ++ new)%list), m')
      /\ Autopilot.halts cfg force steps halt new.
Proof.
  intros Hsend cfg force fuel steps next replies m Hfuel.
  assert (Hanswers :
            forall p m0,
              match fst (send p m0) with
              | Ok _ => True
              | Throw _ => False
              | Stall => False
              end).
  { intros p m0. destruct (Hsend p m0) as (r & m1 & ->). exact I. }
  pose proof (autopilot_rounds_follow send False Hanswers cfg force fuel
                steps next replies m Hfuel) as H.
  destruct (Autopilot.autopilot_rounds send fuel cfg force steps next
              replies m) as [[[halt all]|e|] m'] eqn:Hrun; try easy.
  destruct H as (new & -> & Hspec). eauto.
Qed.

Import Autopilot.

Lemma halts_not_empty cfg force steps halt new :
  halts cfg force steps halt new -> new <> [].
Proof. destruct 1; discriminate. Qed.

(** The sentinel is in the last reply of a run that ends in [DONE], and
    in no reply of any other run. *)
Lemma halts_sentinel cfg force steps halt new :
  halts cfg force steps halt new ->
  forall k,
    first_with (doneTag cfg) new k
    = match halt with
      | DONE => Some (k + List.length new - 1)%nat
      | _ => None
      end.
Proof.
  induction 1 as [steps r Hr|steps r Hr Ha|steps r Hr Ha Hm
                 |steps r halt rest Hr Ha Hm Hrest IH]; intros k; simpl;
    rewrite Hr; auto.
  - f_equal. lia.
  - rewrite IH. destruct halt; auto.
Qed.

Lemma halts_manual_once cfg force steps halt new :
  halts cfg force steps halt new ->
  autopilot cfg || force = false ->
  halt <> HALTED_LIMIT /\ List.length new = 1%nat.
Proof.
  destruct 1; intros Hoff; try (split; [discriminate | reflexivity]);
    congruence.
Qed.

Lemma halts_limit_count cfg force steps halt new :
  halts cfg force steps halt new ->
  autopilot cfg || force = true ->
  halt <> HALTED_MANUAL
  /\ (halt = HALTED_LIMIT ->
      Z.of_nat (List.length new) = Z.max 1 (maxSteps cfg - steps)).
Proof.
  induction 1 as [steps r Hr|steps r Hr Ha|steps r Hr Ha Hm
                 |steps r halt rest Hr Ha Hm Hrest IH]; intros Hon.
  - split; discriminate.
  - congruence.
  - split; [discriminate|]. intros _. simpl. lia.
  - destruct (IH Hon) as [Hne Hcount]. split; [exact Hne|].
    intros Hl. specialize (Hcount Hl). simpl List.length. lia.
Qed.

(** What the transition rule comes to for a whole run. *)
Lemma halts_rounds cfg force halt replies :
  halts cfg force 0 halt replies ->
  (forall k,
     halt = DONE /\ List.length replies = k
     <-> sentinel_round cfg replies = Some k)
  /\ (sentinel_round cfg replies = None ->
      if autopilot cfg || force
      then (1 <= maxSteps cfg)%Z ->
           halt = HALTED_LIMIT
           /\ Z.of_nat (List.length replies) = maxSteps cfg
      else halt = HALTED_MANUAL /\ List.length replies = 1%nat).
Proof.
  intros Hspec.
  pose proof (halts_sentinel _ _ _ _ _ Hspec 1%nat) as Hfirst.
  pose proof (halts_not_empty _ _ _ _ _ Hspec) as Hne.
  assert (Hlen : (1 + List.length replies - 1 = List.length replies)%nat)
    by lia.
  unfold sentinel_round. rewrite Hfirst, Hlen. split.
  - intros k. split.
    + intros [-> <-]. reflexivity.
    + destruct halt; intros [= <-]; auto.
  - intros Hnone.
    destruct (autopilot cfg || force) eqn:Hauto.
    + intros Hbudget.
      destruct (halts_limit_count _ _ _ _ _ Hspec Hauto) as [Hnm Hcount].
      destruct halt; try discriminate; try contradiction.
      split; [reflexivity|]. rewrite Hcount by reflexivity. lia.
    + destruct (halts_manual_once _ _ _ _ _ Hspec Hauto) as [Hnl Hone].
      destruct halt; try discriminate; try contradiction. auto.
Qed.

(** Provided every exchange with the assistant returns, a run of the
    autopilot ends as the transition rule says. *)
Lemma autopilot_rule_followed send goal cfg force m :
  (forall p m0, exists r m1, send p m0 = (Ok r, m1)) ->
  exists halt replies m',
    runAutopilot_with send goal cfg force m = (Ok (halt, replies), m')
    /\ (forall k,
          halt = DONE /\ List.length replies = k
          <-> sentinel_round cfg replies = Some k)
    /\ (sentinel_round cfg replies = None ->
        if autopilot cfg || force
        then (1 <= maxSteps cfg)%Z ->
             halt = HALTED_LIMIT
             /\ Z.of_nat (List.length replies) = maxSteps cfg
        else halt = HALTED_MANUAL /\ List.length replies = 1%nat).
Proof.
  intros Hsend. unfold runAutopilot_with.
  destruct (autopilot_rounds_halts send Hsend cfg force
              (Z.to_nat (maxSteps cfg)) 0%Z goal [] m)
    as (halt & new & m' & Hrun & Hspec); [lia|].
  exists halt, new, m'. split; [exact Hrun | now apply halts_rounds].
Qed.

(** [sendToAssistant] catches what its round throws: it returns, or is
    left waiting at a prompt. *)
Lemma sendToAssistant_answers rt cfg p m :
  match fst (sendToAssistant rt cfg p m) with
  | Ok _ => True
  | Throw _ => False
  | Stall => True
  end.
Proof.
  unfold sendToAssistant. unfold bind at 1. unfold push at 1, modify.
  unfold try_catch.
  match goal with
  | |- context [match ?c ?m0 with _ => _ end] => destruct (c m0) as [[r|e|] m1]
  end; simpl; auto.
Qed.

(** With [auto_yes] set no prompt is shown, and it returns. *)
Lemma sendToAssistant_returns rt cfg p m :
  auto_yes cfg = true ->
  exists r m', sendToAssistant rt cfg p m = (Ok r, m').
Proof.
  intros Hauto.
  unfold sendToAssistant. unfold bind at 1. unfold push at 1, modify.
  set (m0 := set_conv _ m). unfold try_catch.
  match goal with
  | |- context [match ?c m0 with _ => _ end] => set (body := c)
  end.
  assert (Hbody : fst (body m0) <> Stall).
  { subst body. unfold bind at 1. unfold inspect at 1. unfold bind at 1.
    pose proof (inline_converse_settles rt (dispatch rt) cfg
                  (fun name args => quiet_autopilot_dispatch rt name args
                                      cfg Hauto)
                  (S (List.length (remote m0))) m0 ltac:(lia)) as Hc.
    match type of Hc with
    | fst ?round <> Stall => destruct round as [[msg|e|] m1]
    end; simpl in Hc; [|discriminate|contradiction].
    assert (Hrest :
              quiet (let* reply := lift (content_text msg) in
                     run push (default_to msg JNull) in ret reply)).
    { quiet_steps. }
    apply Hrest. }
  destruct (body m0) as [[r|e|] m1]; simpl in Hbody.
  - eauto.
  - unfold bind, pop, modify, ret. eauto.
  - contradiction.
Qed.

(** The run of the program itself never throws: it ends as the rule says,
    or is left waiting at a prompt. *)
Lemma runAutopilot_follows_rule rt goal cfg force m :
  match runAutopilot rt goal cfg force m with
  | (Ok (halt, replies), _) => halts cfg force 0 halt replies
  | (Throw _, _) => False
  | (Stall, _) => True
  end.
Proof.
  unfold runAutopilot, runAutopilot_with.
  pose proof (autopilot_rounds_follow (sendToAssistant rt cfg) True
                (sendToAssistant_answers rt cfg) cfg force
                (Z.to_nat (maxSteps cfg)) 0%Z goal [] m ltac:(lia)) as H.
  destruct (autopilot_rounds _ _ _ _ _ _ _ m) as [[[halt all]|e|] m'];
    try easy.
  destruct H as (new & -> & Hspec). exact Hspec.
Qed.

(** With [auto_yes] set the run of the program ends, in the state and
    after the rounds that its replies determine. *)
Lemma runAutopilot_unattended rt goal cfg force m :
  auto_yes cfg = true ->
  exists halt replies m',
    runAutopilot rt goal cfg force m = (Ok (halt, replies), m')
    /\ halts cfg force 0 halt replies
    /\ (forall k,
          halt = DONE /\ List.length replies = k
          <-> sentinel_round cfg replies = Some k).
Proof.
  intros Hauto. unfold runAutopilot, runAutopilot_with.
  destruct (autopilot_rounds_halts (sendToAssistant rt cfg)
              (fun p m0 => sendToAssistant_returns rt cfg p m0 Hauto)
              cfg force (Z.to_nat (maxSteps cfg)) 0%Z goal [] m)
    as (halt & new & m' & Hrun & Hspec); [lia|].
  exists halt, new, m'. split; [exact Hrun|]. split; [exact Hspec|].
  exact (proj1 (halts_rounds _ _ _ _ Hspec)).
Qed.

(** Whatever the budget, at least one round is made. *)
Lemma autopilot_rounds_any_budget send goal cfg force m :
  (forall p m0, exists r m1, send p m0 = (Ok r, m1)) ->
  exists halt replies m',
    runAutopilot_with send goal cfg force m = (Ok (halt, replies), m')
    /\ (halt = HALTED_LIMIT ->
        Z.of_nat (List.length replies) = Z.max 1 (maxSteps cfg)).
Proof.
  intros Hsend. unfold runAutopilot_with.
  destruct (autopilot_rounds_halts send Hsend cfg force
              (Z.to_nat (maxSteps cfg)) 0%Z goal [] m)
    as (halt & new & m' & Hrun & Hspec); [lia|].
  exists halt, new, m'. split; [exact Hrun|]. intros ->.
  destruct (autopilot cfg || force) eqn:Hauto.
  - destruct (halts_limit_count _ _ _ _ _ Hspec Hauto) as [_ Hcount].
    rewrite Hcount by reflexivity. lia.
  - destruct (halts_manual_once _ _ _ _ _ Hspec Hauto) as [Hnl _].
    contradiction.
Qed.

(** *** The run and the rounds it is made of

    The replies of a run are the replies of its rounds, and the machine it
    leaves is the one the last of them left. *)





(** Conversely, the replies a run returns are the replies of as many
    rounds, one after the other, and its machine is the one they leave. *)
Lemma autopilot_rounds_are_rounds send cfg force fuel :
  forall steps next acc m halt all m',
    autopilot_rounds send fuel cfg force steps next acc m
    = (Ok (halt, all), m') ->
    exists replies,
      all = (acc ++ replies)%list
      /\ rounds send (List.length replies) cfg next m = (Ok replies, m').
Proof.
  induction fuel as [|fuel IH]; intros steps next acc m halt all m';
    cbn [autopilot_rounds]; unfold bind at 1;
    destruct (send next m) as [[r|e|] m1] eqn:Hsend; try discriminate;
    (destruct (includes r (doneTag cfg));
     [intros [= _ <- <-]; exists [r]; split; [reflexivity|];
      cbn [List.length rounds]; unfold bind, ret; now rewrite Hsend|]);
    (destruct (negb (autopilot cfg || force));
     [intros [= _ <- <-]; exists [r]; split; [reflexivity|];
      cbn [List.length rounds]; unfold bind, ret; now rewrite Hsend|]);
    (destruct (maxSteps cfg <=? steps + 1)%Z;
     [intros [= _ <- <-]; exists [r]; split; [reflexivity|];
      cbn [List.length rounds]; unfold bind, ret; now rewrite Hsend|]).
  - discriminate.
  - intros Hrun. destruct (IH _ _ _ _ _ _ _ Hrun) as (rest & -> & Hrest).
    exists (r :: rest). split; [now rewrite <- app_assoc|].
    cbn [List.length rounds]. unfold bind at 1. rewrite Hsend.
    unfold bind, ret. now rewrite Hrest.
Qed.

Lemma runAutopilot_replies_are_rounds rt goal cfg force m halt replies m' :
  runAutopilot rt goal cfg force m = (Ok (halt, replies), m') ->
  rounds (sendToAssistant rt cfg) (List.length replies) cfg goal m
  = (Ok replies, m').
Proof.
  unfold runAutopilot, runAutopilot_with. intros Hrun.
  destruct (autopilot_rounds_are_rounds _ _ _ _ _ _ _ _ _ _ _ Hrun)
    as (new & -> & Hrounds).
  exact Hrounds.
Qed.



(** A run that is neither enabled nor forced makes one round; a forced
    run ends at the round whose reply holds the sentinel. *)
Lemma autopilot_manual_run :
  fst (runAutopilot_with Cases.busy "go" Demo.config false (Demo.machine []))
  = Ok (HALTED_MANUAL, ["still working"]).
Proof. reflexivity. Qed.

Lemma autopilot_done_at_second_round :
  fst (runAutopilot_with Cases.done_second "go" Demo.config true
         (Demo.machine []))
  = Ok (DONE, ["working"; "all set [DONE]"])
  /\ sentinel_round Demo.config ["working"; "all set [DONE]"] = Some 2%nat.
Proof. split; reflexivity. Qed.

(** ** The scenarios of the specification *)

(** An empty session; the user asks to list /tmp; the model answers with
    one call of [list_dir] and then in plain text.  The session holds four
    messages: user, assistant with the call, tool result, final answer. *)
Lemma scenario_list_tmp :
  exists s' m',
    Sessions.ask_assistant Demo.runtime Demo.config "what is in /tmp?"
      Cases.fresh_session
      (Cases.machine
         [("/tmp", Dir); ("/tmp/a.txt", File true true "a");
          ("/tmp/logs", Dir)]
         [Cases.reply Cases.list_tmp; Cases.reply Cases.final_answer]
         [system_message Demo.config])
    = (Ok s', m')
    /\ history s'
       = [user_message "what is in /tmp?"; Cases.list_tmp;
          tool_message (Some (JStr "call_1")) ("a.txt" ++ nl ++ "logs/");
          Cases.final_answer]
    /\ chats (historyState s') = [("default", history s')].
Proof.
  eexists _, _. split; [vm_compute; reflexivity|]. split; reflexivity.
Qed.

(** [run_shell] under an explicit refusal returns the text of the
    cancellation, and the round goes on to the next request. *)
Lemma scenario_shell_refused :
  exists s' m',
    Sessions.ask_assistant Demo.runtime Demo.config "say hi" Cases.fresh_session
      (mkMachine ∅ [Typed "n"]
         [Cases.reply Cases.echo_hi; Cases.reply Cases.final_answer]
         [] [system_message Demo.config] 0)
    = (Ok s', m')
    /\ history s'
       = [user_message "say hi"; Cases.echo_hi;
          tool_message (Some (JStr "call_1")) "❌ Cancelled.";
          Cases.final_answer].
Proof. eexists _, _. split; [vm_compute; reflexivity | reflexivity]. Qed.
(** Whatever the endpoint and the tools do, a round of the first program
    returns to the prompt with a session. *)
Lemma ask_assistant_returns rt cfg input s m :
  exists s' m', Sessions.ask_assistant rt cfg input s m = (Ok s', m').
Proof.
  unfold Sessions.ask_assistant. unfold bind at 1. unfold push at 1.
  unfold modify. set (m0 := set_conv _ m).
  unfold try_catch.
  match goal with
  | |- context [match ?c m0 with _ => _ end] => set (body := c)
  end.
  assert (Hbody : fst (body m0) <> Stall).
  { subst body. unfold bind at 1. unfold inspect at 1.
    unfold bind at 1.
    pose proof (converse_settles rt cfg (S (List.length (remote m0))) m0
                  ltac:(lia)) as Hc.
    destruct (Sessions.converse rt (S (List.length (remote m0))) cfg m0)
      as [[msg|e|] m1]; simpl in Hc; [|discriminate|contradiction].
    assert (Hrest :
              quiet (run lift (content_text msg) in
                     run push (default_to msg JNull) in
                     let* msgs := inspect conv in
                     let* h := lift (without_system msgs) in
                     run saveHistoryState rt
                           (mkState (Some (currentChat s))
                              (obj_set (chats (historyState s))
                                 (currentChat s) h)) in
                     ret (mkSession
                            (mkState (Some (currentChat s))
                               (obj_set (chats (historyState s))
                                  (currentChat s) h))
                            (currentChat s) h))).
    { quiet_steps. apply quiet_saveJson. }
    apply Hrest. }
  destruct (body m0) as [[s'|e|] m1]; simpl in Hbody.
  - eauto.
  - unfold bind, pop, modify, ret. eauto.
  - contradiction.
Qed.

(** ** The chain of [src/unnamed/part_000]

    This program runs the steps of a chain inside [toolChain] itself and
    has no timer at its prompt.  With [auto_yes] set it shows no prompt,
    and a chain gives one entry per step as in the first program. *)

Lemma confirm_waiting_auto action detail m :
  confirm_waiting action detail true m
  = (Ok true, set_gate (mkGateCall action detail true :: gate m) m).
Proof. reflexivity. Qed.

(** A handler that catches what its body throws returns, unless it is
    left waiting. *)
Lemma caught_returns {A : Type} (c : M A) (h : JsError -> M A) m :
  fst (try_catch c h m) <> Stall ->
  (forall e m0, exists a m1, h e m0 = (Ok a, m1)) ->
  exists a m', try_catch c h m = (Ok a, m').
Proof.
  unfold try_catch. intros Hs Hh.
  destruct (c m) as [[a|e|] m1]; simpl in *; eauto. contradiction.
Qed.

Lemma writeFile_unattended rt tx p content m :
  exists r m',
    writeFile rt tx confirm_waiting p content true m = (Ok r, m').
Proof.
  pose proof (quiet_writeFile rt tx confirm_waiting true
                quiet_confirm_waiting p content m) as [Hs _].
  unfold writeFile in *. apply caught_returns; [exact Hs|].
  intros e m0. unfold ret. eauto.
Qed.

Lemma runShell_unattended rt tx cmd m :
  shell_ready cmd = true ->
  exists r m', runShell rt tx confirm_waiting cmd true m = (Ok r, m').
Proof.
  destruct cmd as [[| | |c| |]|]; try discriminate. intros _.
  unfold runShell, run_exec. unfold bind at 1.
  rewrite confirm_waiting_auto. unfold_m. simpl.
  destruct (exec rt c (fs m)); eauto.
Qed.

Lemma httpRequest_unattended rt tx args m :
  args <> JNull ->
  exists r m', httpRequest rt tx confirm_waiting args true m = (Ok r, m').
Proof.
  intros Hargs. unfold httpRequest, do_fetch. unfold_m.
  rewrite !(js_prop_not_null _ _ Hargs).
  destruct (prop_or_none args "url") as [url|]; eauto.
  destruct (truthy url); simpl; eauto.
  destruct (fetch rt _ _); eauto.
Qed.

Lemma webSearch_unattended rt tx args m :
  args <> JNull ->
  exists r m', webSearch rt tx confirm_waiting args true m = (Ok r, m').
Proof.
  intros Hargs. unfold webSearch, do_fetch. unfold_m.
  rewrite !(js_prop_not_null _ _ Hargs).
  destruct (prop_or_none args "query") as [query|]; eauto.
  destruct (truthy query); simpl; eauto.
  destruct (fetch rt _ _); eauto.
Qed.

Lemma chain_run_step_returns rt i tool args cfg m :
  auto_yes cfg = true ->
  Chain.step_ok tool args = true ->
  exists r m', Chain.run_step rt i tool args cfg m = (Ok r, m').
Proof.
  intros Hauto Hok.
  assert (Hargs : args <> JNull) by (intros ->; discriminate).
  assert (Hshell : named tool "run_shell" = true ->
                   shell_ready (prop_or_none args "cmd") = true).
  { intros Hn. unfold Chain.step_ok in Hok. rewrite Hn in Hok.
    destruct args; exact Hok. }
  unfold Chain.run_step. rewrite Hauto.
  destruct (named tool "list_dir").
  { unfold bind, lift. rewrite (js_prop_not_null _ _ Hargs).
    destruct (listDir_total rt texts_ru (prop_or_none args "path") m)
      as (r & Hr). eauto. }
  destruct (named tool "read_file").
  { unfold bind, lift. rewrite (js_prop_not_null _ _ Hargs).
    destruct (readFile_total rt texts_ru (prop_or_none args "path") m)
      as (r & Hr). eauto. }
  destruct (named tool "write_file").
  { unfold bind at 1. unfold lift at 1.
    rewrite (js_prop_not_null _ _ Hargs).
    unfold bind at 1. unfold lift at 1.
    rewrite (js_prop_not_null _ _ Hargs).
    apply writeFile_unattended. }
  destruct (named tool "run_shell").
  { unfold bind at 1. unfold lift at 1.
    rewrite (js_prop_not_null _ _ Hargs).
    apply runShell_unattended. now apply Hshell. }
  destruct (named tool "http_request").
  { now apply httpRequest_unattended. }
  destruct (named tool "web_search").
  { now apply webSearch_unattended. }
  unfold ret. eauto.
Qed.

(** The entries of a chain, step by step. *)
Lemma chain_chain_steps_entries rt cfg steps :
  auto_yes cfg = true ->
  Forall (fun s => Chain.step_ok (step_tool s) (step_args s) = true) steps ->
  forall i m,
    exists outputs m',
      Chain.chain_steps rt steps i cfg m = (Ok outputs, m')
      /\ List.length outputs = List.length steps
      /\ forall k s,
           nth_error steps k = Some s ->
           exists result,
             nth_error outputs k
             = Some (chain_entry (i + k) (step_tool s) result).
Proof.
  intros Hauto Hall. induction Hall as [|s rest Hs Hrest IH]; intros i m.
  - exists [], m. repeat split. intros [|k] s; discriminate.
  - simpl Chain.chain_steps. unfold bind at 1. unfold lift at 1.
    rewrite (js_prop_not_null _ _ (step_not_null s)).
    unfold bind at 1. unfold lift at 1.
    rewrite (js_prop_not_null _ _ (step_not_null s)).
    fold (step_tool s). fold (step_args s).
    destruct (chain_run_step_returns rt i (step_tool s) (step_args s) cfg m
                Hauto Hs) as (r & m1 & Hr).
    unfold bind at 1. rewrite Hr.
    destruct (IH (S i) m1) as (outs & m2 & Hrun & Hlen & Hnth).
    unfold bind, ret. rewrite Hrun.
    eexists _, _. split; [reflexivity|]. split; [simpl; now rewrite Hlen|].
    intros [|k] s' Hk; simpl in *.
    + injection Hk as <-. exists r. now rewrite Nat.add_0_r.
    + destruct (Hnth k s' Hk) as (r' & Hr').
      exists r'. rewrite Hr'. do 2 f_equal. lia.
Qed.

(** In [src/unnamed/part_000] too, with [auto_yes] set, a chain of one or
    more well-formed steps returns the JSON text of one entry per step,
    in order; a chain of no steps returns the error text. *)
Lemma chain_toolChain_entries rt cfg s rest m :
  auto_yes cfg = true ->
  Forall (fun s => Chain.step_ok (step_tool s) (step_args s) = true)
    (s :: rest) ->
  exists outputs m',
    Chain.toolChain rt (Some (JArr (s :: rest))) cfg m
    = (Ok (stringify rt (JArr outputs)), m')
    /\ List.length outputs = List.length (s :: rest)
    /\ forall k s',
         nth_error (s :: rest) k = Some s' ->
         exists result,
           nth_error outputs k
           = Some (chain_entry (S k) (step_tool s') result).
Proof.
  intros Hauto Hall. unfold Chain.toolChain.
  destruct (chain_chain_steps_entries rt cfg (s :: rest) Hauto Hall 1%nat m)
    as (outs & m' & Hrun & Hlen & Hnth).
  unfold bind, ret. rewrite Hrun. eauto.
Qed.

Lemma chain_toolChain_no_steps rt cfg m :
  Chain.toolChain rt (Some (JArr [])) cfg m
  = (Ok "❌ Ошибка: steps пуст", m).
Proof. reflexivity. Qed.

(** Three steps: a file that is missing, a command, a tool that does not
    exist.  Three entries, in that order. *)
Lemma chain_three_steps :
  fst (Chain.toolChain Demo.runtime (Some (JArr Cases.three_steps))
         Cases.unattended (Demo.machine [("/tmp", Dir)]))
  = Ok (Demo.print
          (JArr
             [chain_entry 1 (Some (JStr "read_file"))
                "❌ Ошибка: Файл не найден: /tmp/missing.txt";
              chain_entry 2 (Some (JStr "run_shell"))
                ("STDOUT:" ++ nl ++ "ran echo hi");
              chain_entry 3 (Some (JStr "fly"))
                "❌ Неизвестный инструмент в шаге 3: fly"])).
Proof. vm_compute. reflexivity. Qed.

(** There too a shell call whose arguments are cut short ends the round,
    once the prompt that shows the missing command is answered with
    [y]: [exec] refuses the command. *)
Lemma chain_malformed_shell_arguments :
  fst (Chain.handleTools Demo.runtime (Some Cases.cut_short) Demo.config
         (mkMachine ∅ [Typed "y"] [] [] [] 0))
  = Throw (not_a_string "command" None)
  /\ fst (Chain.handleTools Demo.runtime (Some Cases.cut_short) Demo.config
            (mkMachine ∅ [Typed "n"] [] [] [] 0))
     = Ok true.
Proof. split; vm_compute; reflexivity. Qed.

(** ** The name of a new chat

    The search for a free name looks at no more candidates than there are
    chats, plus one: the name it ends on is free, and every candidate
    before it is taken. *)

Lemma string_of_nat_inj a b : string_of_nat a = string_of_nat b -> a = b.
Proof.
  unfold string_of_nat. intros H.
  apply (f_equal NilEmpty.uint_of_string) in H.
  rewrite !NilEmpty.usu in H. injection H as H.
  apply (f_equal Nat.of_uint) in H.
  now rewrite !DecimalNat.Unsigned.of_to in H.
Qed.

Lemma first_free_cases c fuel i :
  (obj_has c ("chat-" ++ string_of_nat (first_free c fuel i)) = false
   \/ first_free c fuel i = (i + fuel)%nat)
  /\ (i <= first_free c fuel i)%nat
  /\ forall j, (i <= j < first_free c fuel i)%nat ->
       obj_has c ("chat-" ++ string_of_nat j) = true.
Proof.
  revert i. induction fuel as [|fuel IH]; intros i; cbn [first_free].
  - split; [right; lia|]. split; [lia|]. intros j Hj. lia.
  - destruct (obj_has c ("chat-" ++ string_of_nat i)) eqn:Hi.
    + destruct (IH (S i)) as (Hfree & Hle & Hbelow).
      split; [destruct Hfree; [left; auto | right; lia]|].
      split; [lia|]. intros j Hj.
      destruct (Nat.eq_dec j i) as [->|Hne]; [exact Hi|].
      apply Hbelow. lia.
    + split; [left; exact Hi|]. split; [lia|]. intros j Hj. lia.
Qed.

Lemma candidates_NoDup n i :
  List.NoDup (List.map (fun j => "chat-" ++ string_of_nat j) (seq i n)).
Proof.
  apply Finite.Injective_map_NoDup; [|apply List.seq_NoDup].
  intros a b H. injection H as H. now apply string_of_nat_inj.
Qed.

(** [makeChatName] returns a name that no chat has. *)
Lemma makeChatName_is_free st :
  obj_has (chats st) (makeChatName st) = false.
Proof.
  unfold makeChatName.
  destruct (first_free_cases (chats st) (S (List.length (chats st))) 1)
    as ([Hfree|Hfull] & _ & Hbelow); [exact Hfree|].
  exfalso.
  pose proof (candidates_NoDup (S (List.length (chats st))) 1) as Hnodup.
  apply List.NoDup_incl_length with (l' := List.map fst (chats st)) in Hnodup.
  - rewrite !length_map, length_seq in Hnodup. lia.
  - intros k Hk. apply in_map_iff in Hk as (j & <- & Hj).
    apply in_seq in Hj. apply obj_has_In. apply Hbelow. lia.
Qed.

(** [X17] [/chat new] without a name never answers that the chat is
    there already: under the name [makeChatName] picks it sets an empty
    chat, which it makes current, and it returns. *)
Lemma chat_new_fresh rt cfg s m :
  exists m',
    chat_new rt cfg EmptyString s m
    = (Ok (mkSession
             (mkState (Some (makeChatName (historyState s)))
                (obj_set (chats (historyState s))
                   (makeChatName (historyState s)) []))
             (makeChatName (historyState s)) []), m').
Proof.
  unfold chat_new. simpl. unfold has_member.
  rewrite makeChatName_is_free.
  replace (inherited (makeChatName (historyState s))) with false
    by reflexivity.
  simpl. unfold_m. unfold set_messages, saveHistoryState.
  destruct (saveJson_returns rt (HIST_FILE rt)
              (encode
                 (mkState (Some (makeChatName (historyState s)))
                    (obj_set (chats (historyState s))
                       (makeChatName (historyState s)) [])))
              (set_conv [system_message cfg] m)) as (m' & Hsave).
  unfold modify. rewrite Hsave. eauto.
Qed.

(** * The prompt loop, the configuration and the tools *)

(** ** Text helpers *)

Lemma append_empty_r s : s ++ "" = s.
Proof. induction s as [|c s IH]; simpl; [reflexivity | now rewrite IH]. Qed.

Lemma append_assoc s t u : (s ++ t) ++ u = s ++ t ++ u.
Proof. induction s as [|c s IH]; simpl; [reflexivity | now rewrite IH]. Qed.

Lemma prefix_app p r : String.prefix p (p ++ r) = true.
Proof.
  induction p as [|c p IH]; simpl; [now destruct r|].
  destruct (Ascii.ascii_dec c c) as [_|Hne]; [exact IH | contradiction].
Qed.

Lemma str_drop_app p r : str_drop (String.length p) (p ++ r) = r.
Proof. induction p as [|c p IH]; simpl; [now destruct r | exact IH]. Qed.

Lemma str_take_app p r : str_take (String.length p) (p ++ r) = p.
Proof. induction p as [|c p IH]; simpl; [now destruct r | now rewrite IH]. Qed.

Lemma find_first_unfold pat s :
  find_first pat s
  = if String.prefix pat s
    then Some (EmptyString, str_drop (String.length pat) s)
    else match s with
         | EmptyString => None
         | String c r =>
             match find_first pat r with
             | Some (before, after) => Some (String c before, after)
             | None => None
             end
         end.
Proof. destruct s; reflexivity. Qed.

Lemma find_first_prefix p r :
  find_first p (p ++ r) = Some (EmptyString, r).
Proof.
  rewrite find_first_unfold, prefix_app. now rewrite str_drop_app.
Qed.

Lemma replaceAll_from_unfold pat repl before s :
  replaceAll_from pat repl before 0 s
  = if String.prefix pat s then
      substitution pat before (str_drop (String.length pat) s) repl
      ++ match s with
         | String c r =>
             (if pat =? "" then String c EmptyString else EmptyString)
             ++ replaceAll_from pat repl (before ++ String c EmptyString)
                  (String.length pat - 1) r
         | EmptyString => EmptyString
         end
    else
      match s with
      | String c r =>
          String c
            (replaceAll_from pat repl (before ++ String c EmptyString) 0 r)
      | EmptyString => EmptyString
      end.
Proof. destruct s; reflexivity. Qed.

Lemma substitution_plain matched before after repl :
  mentions "$" repl = false ->
  substitution matched before after repl = repl.
Proof.
  induction repl as [|a t IH]; simpl; [reflexivity|].
  intros H. apply orb_false_iff in H as [Ha Ht].
  rewrite Ha. now rewrite IH.
Qed.

Lemma prefix_first c p s :
  mentions c s = false -> String.prefix (String c p) s = false.
Proof.
  destruct s as [|a r]; simpl; [reflexivity|].
  intros H. apply orb_false_iff in H as [Ha _].
  destruct (Ascii.ascii_dec c a) as [->|Hne]; [|reflexivity].
  now rewrite Ascii.eqb_refl in Ha.
Qed.

(** ** Aliases *)

Lemma first_alias_skips input earlier entries :
  forallb (fun kv => negb (alias_applies input (fst kv))) earlier = true ->
  first_alias input (earlier ++ entries) = first_alias input entries.
Proof.
  induction earlier as [|[a b] earlier IH]; simpl; [reflexivity|].
  intros H. apply andb_true_iff in H as [Ha Hrest].
  apply negb_true_iff in Ha. rewrite Ha. now apply IH.
Qed.

(** [X1] An alias is expanded in place of the first word and the rest of
    the input is kept: when [a] is the first alias, in the order of
    [Object.entries], that is the input or its first word, and its
    expansion [b] holds no dollar sign, the input [a ++ rest] becomes
    [b ++ rest]. *)
Theorem applyAliases_expands aliases a b rest earlier later :
  Object_entries aliases = (earlier ++ (a, JStr b) :: later)%list ->
  forallb (fun kv => negb (alias_applies (a ++ rest) (fst kv))) earlier
  = true ->
  alias_applies (a ++ rest) a = true ->
  mentions "$" b = false ->
  applyAliases (a ++ rest) aliases = b ++ rest.
Proof.
  intros Hentries Hearlier Ha Hb. unfold applyAliases.
  rewrite Hentries, first_alias_skips by exact Hearlier.
  simpl. rewrite Ha. unfold js_replace.
  rewrite find_first_prefix. simpl.
  now rewrite substitution_plain.
Qed.

(** ** Pairs *)

Lemma split_runs_not_nil b s : split_runs b s <> [].
Proof.
  revert b. induction s as [|c r IH]; intros b; simpl; [discriminate|].
  destruct (is_white c).
  - destruct b; [apply IH | discriminate].
  - destruct (split_runs false r); discriminate.
Qed.

Lemma split_runs_word w s :
  has_space w = false ->
  split_runs false (w ++ s)
  = match split_runs false s with
    | p :: ps => (w ++ p) :: ps
    | [] => [w]
    end.
Proof.
  induction w as [|c w IH]; simpl.
  - intros _. destruct (split_runs false s) eqn:H; [|reflexivity].
    now apply split_runs_not_nil in H.
  - intros H. apply orb_false_iff in H as [Hc Hw]. rewrite Hc.
    rewrite (IH Hw). destruct (split_runs false s); reflexivity.
Qed.

Lemma split_runs_started w s :
  w <> "" -> has_space w = false ->
  split_runs true (w ++ s) = split_runs false (w ++ s).
Proof.
  destruct w as [|c w]; [contradiction|]. simpl. intros _ H.
  apply orb_false_iff in H as [Hc _]. now rewrite Hc.
Qed.

Lemma split_space_join w ws :
  Forall (fun p => p <> "" /\ has_space p = false) (w :: ws) ->
  split_space (join " " (w :: ws)) = w :: ws.
Proof.
  unfold split_space. revert w.
  induction ws as [|w' ws IH]; intros w Hall.
  - inversion Hall as [|? ? [_ Hw] _]; subst. simpl.
    rewrite <- (append_empty_r w) at 1.
    rewrite (split_runs_word w EmptyString Hw). simpl.
    now rewrite append_empty_r.
  - inversion Hall as [|? ? [_ Hw] Hrest]; subst.
    change (join " " (w :: w' :: ws)) with (w ++ " " ++ join " " (w' :: ws)).
    rewrite (split_runs_word w _ Hw).
    change (" " ++ join " " (w' :: ws))
      with (String " " (join " " (w' :: ws))).
    cbn [split_runs]. change (is_white " ") with true. cbn iota.
    assert (Hstart : split_runs true (join " " (w' :: ws))
                     = split_runs false (join " " (w' :: ws))).
    { inversion Hrest as [|? ? [Hne Hsp] _]; subst.
      destruct ws as [|w'' ws].
      - simpl. rewrite <- (append_empty_r w').
        now apply split_runs_started.
      - change (join " " (w' :: w'' :: ws))
          with (w' ++ " " ++ join " " (w'' :: ws)).
        now apply split_runs_started. }
    rewrite Hstart, (IH w' Hrest). now rewrite append_empty_r.
Qed.

Lemma find_first_colon k v :
  mentions ":" k = false ->
  find_first ":" (k ++ ":" ++ v) = Some (k, v).
Proof.
  induction k as [|c k IH]; intros H.
  - exact (find_first_prefix ":" v).
  - simpl in H. apply orb_false_iff in H as [Hc Hk].
    rewrite find_first_unfold.
    change (String c k ++ ":" ++ v) with (String c (k ++ ":" ++ v)).
    cbn [String.prefix].
    destruct (Ascii.ascii_dec ":" c) as [<-|Hne].
    { now rewrite Ascii.eqb_refl in Hc. }
    now rewrite (IH Hk).
Qed.

Lemma obj_set_fresh {A : Type} (o : list (string * A)) k v :
  obj_has o k = false -> obj_set o k v = (o ++ [(k, v)])%list.
Proof.
  unfold obj_has. induction o as [|[k' v'] o IH]; simpl; [reflexivity|].
  destruct (k' =? k); [discriminate|]. intros H. now rewrite IH.
Qed.

Lemma obj_has_app {A : Type} (o o' : list (string * A)) k :
  obj_has (o ++ o') k = obj_has o k || obj_has o' k.
Proof.
  unfold obj_has. induction o as [|[k' v'] o IH]; simpl; [reflexivity|].
  destruct (k' =? k); [reflexivity | exact IH].
Qed.

Lemma parse_pair_ok out kv :
  kv_ok kv = true -> obj_has out (fst kv) = false ->
  parse_pair out (fst kv ++ ":" ++ snd kv) = (out ++ [kv])%list.
Proof.
  destruct kv as [k v]. unfold kv_ok. simpl fst; simpl snd.
  intros Hok Hfresh.
  repeat (apply andb_true_iff in Hok as [Hok ?]).
  unfold parse_pair, index_of.
  rewrite find_first_colon by now apply negb_true_iff.
  rewrite str_take_app.
  change (str_drop (S (String.length k)) (k ++ ":" ++ v))
    with (str_drop (String.length (k ++ ":")) (k ++ ":" ++ v)) at 1 || idtac.
  assert (Hdrop : str_drop (S (String.length k)) (k ++ ":" ++ v) = v).
  { clear. induction k as [|c k IH]; simpl; [now destruct v | exact IH]. }
  rewrite Hdrop, Hok.
  match goal with H : negb (v =? "") = true |- _ => rewrite H end.
  match goal with H : negb (k =? "__proto__") = true |- _ =>
    apply negb_true_iff in H; rewrite H end.
  simpl. now apply obj_set_fresh.
Qed.

Lemma parseKv_pairs out pairs :
  forallb kv_ok pairs = true ->
  List.NoDup (List.map fst pairs) ->
  (forall kv, In kv pairs -> obj_has out (fst kv) = false) ->
  fold_left parse_pair
    (List.map (fun kv => fst kv ++ ":" ++ snd kv) pairs) out
  = (out ++ pairs)%list.
Proof.
  revert out. induction pairs as [|kv pairs IH]; intros out Hok Hnd Hfresh.
  - simpl. now rewrite app_nil_r.
  - simpl in Hok. apply andb_true_iff in Hok as [Hkv Hok].
    inversion Hnd as [|? ? Hnotin Hnd']; subst.
    simpl. rewrite parse_pair_ok by auto using in_eq.
    rewrite IH; [now rewrite <- app_assoc | exact Hok | exact Hnd' |].
    intros kv' Hin. rewrite obj_has_app.
    rewrite (Hfresh kv') by now right. simpl.
    unfold obj_has. destruct kv as [k v]. simpl in *.
    destruct (String.eqb_spec k (fst kv')) as [Heq|Hne]; [|reflexivity].
    exfalso. apply Hnotin. rewrite Heq. now apply in_map.
Qed.

(** [X2] [parseKv] reads back what the notation [k:v k:v ...] writes
    down: for pairs with distinct names, whose parts are not empty and
    hold no white space, and whose names hold no colon and are not
    [__proto__], the text of the pairs parses to the object that has
    these pairs and no other. *)
Theorem parseKv_round_trip pairs :
  forallb kv_ok pairs = true ->
  List.NoDup (List.map fst pairs) ->
  parseKv (kv_text pairs) = pairs.
Proof.
  intros Hok Hnd. unfold parseKv, kv_text.
  destruct pairs as [|kv pairs]; [reflexivity|].
  change (List.map (fun kv0 => fst kv0 ++ ":" ++ snd kv0) (kv :: pairs))
    with ((fst kv ++ ":" ++ snd kv)
            :: List.map (fun kv0 => fst kv0 ++ ":" ++ snd kv0) pairs).
  rewrite split_space_join.
  - change ((fst kv ++ ":" ++ snd kv)
              :: List.map (fun kv0 => fst kv0 ++ ":" ++ snd kv0) pairs)
      with (List.map (fun kv0 => fst kv0 ++ ":" ++ snd kv0) (kv :: pairs)).
    now rewrite parseKv_pairs.
  - change ((fst kv ++ ":" ++ snd kv)
              :: List.map (fun kv0 => fst kv0 ++ ":" ++ snd kv0) pairs)
      with (List.map (fun kv0 => fst kv0 ++ ":" ++ snd kv0) (kv :: pairs)).
    apply List.Forall_forall. intros p Hp.
    apply in_map_iff in Hp as ([k v] & <- & Hin).
    rewrite forallb_forall in Hok. specialize (Hok _ Hin).
    unfold kv_ok in Hok. simpl in *.
    repeat (apply andb_true_iff in Hok as [Hok ?]).
    split.
    + destruct k; [discriminate | discriminate].
    + clear -H1 H2. apply negb_true_iff in H1, H2.
      induction k as [|c k IH]; simpl in *.
      * exact H1.
      * apply orb_false_iff in H2 as [Hc Hk]. rewrite Hc. now apply IH.
Qed.

Lemma prefix_split p s :
  String.prefix p s = true -> s = p ++ str_drop (String.length p) s.
Proof.
  revert s. induction p as [|c p IH]; intros s.
  - intros _. now destruct s.
  - destruct s as [|a s]; [discriminate|]. cbn [String.prefix].
    destruct (Ascii.ascii_dec c a) as [->|]; [|discriminate].
    intros H. simpl. now rewrite <- (IH s H).
Qed.

Lemma find_first_split pat s before after :
  find_first pat s = Some (before, after) -> s = before ++ pat ++ after.
Proof.
  revert before after. induction s as [|c s IH]; intros before after;
    rewrite find_first_unfold.
  - destruct (String.prefix pat "") eqn:Hp; [|discriminate].
    intros [= <- <-]. now apply prefix_split.
  - destruct (String.prefix pat (String c s)) eqn:Hp.
    + intros [= <- <-]. now apply prefix_split.
    + destruct (find_first pat s) as [[b a]|]; [|discriminate].
      intros [= <- <-]. simpl. now rewrite <- (IH b a).
Qed.

Lemma find_first_before c s before after :
  find_first (String c EmptyString) s = Some (before, after) ->
  mentions c before = false.
Proof.
  revert before after. induction s as [|a s IH]; intros before after;
    rewrite find_first_unfold.
  - simpl. discriminate.
  - cbn [String.prefix].
    destruct (Ascii.ascii_dec c a) as [->|Hne].
    + destruct s; intros [= <- <-]; reflexivity.
    + destruct (find_first (String c EmptyString) s) as [[b r]|] eqn:Hf;
        [|discriminate].
      intros [= <- <-]. simpl. rewrite (IH b r eq_refl).
      destruct (Ascii.eqb_spec a c) as [->|]; [contradiction | reflexivity].
Qed.

Lemma has_space_app s t : has_space (s ++ t) = has_space s || has_space t.
Proof.
  induction s as [|c s IH]; simpl; [reflexivity|].
  now rewrite IH, orb_assoc.
Qed.

Lemma split_runs_pieces b s :
  Forall (fun p => has_space p = false) (split_runs b s).
Proof.
  revert b. induction s as [|c s IH]; intros b; simpl.
  - repeat constructor.
  - destruct (is_white c) eqn:Hc.
    + destruct b; [apply IH|]. constructor; [reflexivity | apply IH].
    + specialize (IH false). destruct (split_runs false s) as [|p ps].
      * repeat constructor. simpl. now rewrite Hc.
      * inversion IH; subst. constructor; [|assumption].
        simpl. now rewrite Hc.
Qed.

Lemma parse_pair_cases out pair :
  parse_pair out pair = out
  \/ exists k v,
       pair = k ++ ":" ++ v /\ kv_ok (k, v) = negb (has_space pair)
       /\ parse_pair out pair = obj_set out k v.
Proof.
  unfold parse_pair, index_of.
  destruct (find_first ":" pair) as [[b a]|] eqn:Hf; [|now left].
  pose proof (find_first_split _ _ _ _ Hf) as ->.
  pose proof (find_first_before _ _ _ _ Hf) as Hcolon.
  rewrite str_take_app.
  assert (Hdrop : str_drop (S (String.length b)) (b ++ ":" ++ a) = a).
  { clear. induction b as [|c b IH]; simpl; [now destruct a | exact IH]. }
  rewrite Hdrop.
  destruct (negb (b =? "") && negb (a =? "")) eqn:Hne; [|now left].
  destruct (b =? "__proto__") eqn:Hproto; [now left|].
  right. exists b, a. split; [reflexivity|]. split; [|reflexivity].
  apply andb_true_iff in Hne as [Hb Ha].
  unfold kv_ok. simpl fst; simpl snd.
  rewrite Hb, Ha, Hcolon, Hproto, !has_space_app. simpl.
  now rewrite negb_orb, !andb_true_r.
Qed.

Lemma obj_set_keys {A : Type} (o : list (string * A)) k v :
  List.map fst (obj_set o k v)
  = if obj_has o k then List.map fst o else (List.map fst o ++ [k])%list.
Proof.
  unfold obj_has. induction o as [|[k' v'] o IH]; simpl; [reflexivity|].
  destruct (String.eqb_spec k' k) as [->|Hne]; simpl; [reflexivity|].
  rewrite IH. now destruct (obj_get o k).
Qed.

Lemma obj_set_Forall {A : Type} (P : string * A -> Prop) o k v :
  Forall P o -> P (k, v) -> (forall v', P (k, v') -> P (k, v)) ->
  Forall P (obj_set o k v).
Proof.
  intros Ho Hkv _. induction Ho as [|[k' v'] o Hx Ho IH]; simpl.
  - now constructor.
  - destruct (String.eqb_spec k' k) as [->|Hne]; constructor; auto.
Qed.

Lemma obj_has_keys {A : Type} (o : list (string * A)) k :
  obj_has o k = false -> ~ In k (List.map fst o).
Proof.
  intros H Hin. apply obj_has_In in Hin. congruence.
Qed.

(** [X3] Whatever the text, the pairs [parseKv] returns are well formed
    and no name is there twice: a name is not empty and holds no colon,
    a value is not empty, neither holds white space, and the name is not
    [__proto__]. *)
Theorem parseKv_entries s :
  forallb kv_ok (parseKv s) = true
  /\ List.NoDup (List.map fst (parseKv s)).
Proof.
  unfold parseKv, split_space.
  pose proof (split_runs_pieces false s) as Hpieces.
  assert (Hinv : forall pieces out,
             Forall (fun p => has_space p = false) pieces ->
             forallb kv_ok out = true /\ List.NoDup (List.map fst out) ->
             forallb kv_ok (fold_left parse_pair pieces out) = true
             /\ List.NoDup (List.map fst (fold_left parse_pair pieces out))).
  { clear. induction pieces as [|p pieces IH]; intros out Hp Hout;
      [exact Hout|].
    inversion Hp as [|? ? Hsp Hrest]; subst. simpl. apply IH; [exact Hrest|].
    destruct (parse_pair_cases out p) as [->|(k & v & -> & Hok & ->)];
      [exact Hout|].
    rewrite Hsp in Hok. simpl in Hok. destruct Hout as [Hall Hnd]. split.
    - apply forallb_forall. intros kv Hin.
      assert (HF : Forall (fun kv => kv_ok kv = true) (obj_set out k v)).
      { apply obj_set_Forall; auto.
        apply List.Forall_forall. intros x Hx.
        rewrite forallb_forall in Hall. now apply Hall. }
      rewrite List.Forall_forall in HF. now apply HF.
    - rewrite obj_set_keys. destruct (obj_has out k) eqn:Hk; [exact Hnd|].
      clear Hall Hok.
      revert Hnd. pose proof (obj_has_keys out k Hk) as Hnot. revert Hnot.
      generalize (List.map fst out) as ks. clear.
      induction ks as [|x ks IH]; intros Hnot Hnd; simpl.
      + repeat constructor. intros [].
      + inversion Hnd as [|? ? Hx Hnd']; subst. constructor.
        * intros Hin. apply in_app_or in Hin as [Hin|[->|[]]];
            [contradiction|]. apply Hnot. now left.
        * apply IH; [|exact Hnd']. intros Hin. apply Hnot. now right. }
  apply Hinv; [exact Hpieces|]. split; [reflexivity | constructor].
Qed.

(** ** Templates *)

Lemma replaceAll_plain c p repl before s :
  mentions c s = false ->
  replaceAll_from (String c p) repl before 0 s = s.
Proof.
  revert before. induction s as [|a s IH]; intros before H;
    rewrite replaceAll_from_unfold, (prefix_first c p _ H); [reflexivity|].
  simpl in H. apply orb_false_iff in H as [_ Hs]. now rewrite IH.
Qed.

Lemma replaceAll_skip pat repl before u y :
  replaceAll_from pat repl before (String.length u) (u ++ y)
  = replaceAll_from pat repl (before ++ u) 0 y.
Proof.
  revert before. induction u as [|a u IH]; intros before.
  - simpl. now rewrite append_empty_r.
  - simpl. rewrite IH, append_assoc. reflexivity.
Qed.

Lemma replaceAll_at c p repl before x y :
  mentions c x = false ->
  replaceAll_from (String c p) repl before 0 (x ++ String c p ++ y)
  = x ++ substitution (String c p) (before ++ x) y repl
      ++ replaceAll_from (String c p) repl (before ++ x ++ String c p) 0 y.
Proof.
  revert before. induction x as [|a x IH]; intros before H.
  - rewrite replaceAll_from_unfold.
    change ("" ++ String c p ++ y) with (String c p ++ y).
    rewrite prefix_app, str_drop_app, append_empty_r.
    change (String c p ++ y) with (String c (p ++ y)).
    cbn [String.length Nat.sub]. rewrite Nat.sub_0_r.
    change (String c p =? "") with false. cbn iota.
    rewrite replaceAll_skip, append_assoc. reflexivity.
  - simpl in H. apply orb_false_iff in H as [Ha Hx].
    rewrite replaceAll_from_unfold.
    change (String a x ++ String c p ++ y)
      with (String a (x ++ String c p ++ y)).
    cbn [String.prefix].
    destruct (Ascii.ascii_dec c a) as [->|Hne].
    { now rewrite Ascii.eqb_refl in Ha. }
    rewrite IH by exact Hx. rewrite !append_assoc. reflexivity.
Qed.

Lemma Object_entries_single {A : Type} k (v : A) :
  Object_entries [(k, v)] = [(k, v)].
Proof.
  unfold Object_entries, Object_keys, index_keys, name_keys. simpl.
  destruct (array_index k); simpl; now rewrite String.eqb_refl.
Qed.

Lemma append_not_empty x c r : (x ++ String c r =? "") = false.
Proof. now destruct x. Qed.

Lemma placeholder_text k y :
  "{" ++ k ++ "}" ++ y = String "{" (k ++ "}") ++ y.
Proof. simpl. now rewrite append_assoc. Qed.

Lemma renderTemplate_fills templates name k v x y :
  obj_get templates name = Some (JStr (x ++ "{" ++ k ++ "}" ++ y)) ->
  mentions "{" x = false ->
  renderTemplate templates name [(k, v)]
  = Ok (Some (Text (JStr (x ++ substitution ("{" ++ k ++ "}") x y v
                            ++ replaceAll_from ("{" ++ k ++ "}") v
                                 (x ++ "{" ++ k ++ "}") 0 y)))).
Proof.
  intros Htpl Hx. unfold renderTemplate. rewrite Htpl.
  rewrite placeholder_text. cbn [truthy].
  change (String "{" (k ++ "}") ++ y) with (String "{" ((k ++ "}") ++ y)).
  rewrite append_not_empty. cbn [negb].
  rewrite Object_entries_single. cbn [fold_left fill fst snd].
  unfold js_replaceAll.
  change ("{" ++ k ++ "}") with (String "{" (k ++ "}")).
  change (String "{" ((k ++ "}") ++ y)) with (String "{" (k ++ "}") ++ y).
  unfold fill, js_replaceAll. cbn [fst snd].
  change ("{" ++ k ++ "}") with (String "{" (k ++ "}")).
  rewrite (replaceAll_at "{" (k ++ "}") v EmptyString x y Hx).
  reflexivity.
Qed.

Lemma split_on_word sep w r :
  mentions sep w = false ->
  split_on sep (w ++ String sep r) = w :: split_on sep r.
Proof.
  induction w as [|c w IH]; simpl.
  - intros _. now rewrite Ascii.eqb_refl.
  - intros H. apply orb_false_iff in H as [Hc Hw]. rewrite Hc.
    now rewrite (IH Hw).
Qed.

Lemma split_on_last sep w :
  mentions sep w = false -> split_on sep w = [w].
Proof.
  induction w as [|c w IH]; simpl; [reflexivity|].
  intros H. apply orb_false_iff in H as [Hc Hw]. rewrite Hc.
  now rewrite (IH Hw).
Qed.

Lemma has_space_mentions w : has_space w = false -> mentions " " w = false.
Proof.
  induction w as [|c w IH]; simpl; [reflexivity|].
  intros H. apply orb_false_iff in H as [Hc Hw]. rewrite (IH Hw).
  destruct (Ascii.eqb_spec c " ") as [->|]; [discriminate | reflexivity].
Qed.

Lemma kv_ok_parts k v :
  kv_ok (k, v) = true ->
  has_space (k ++ ":" ++ v) = false
  /\ parseKv (k ++ ":" ++ v) = [(k, v)].
Proof.
  intros Hok. split.
  - unfold kv_ok in Hok. simpl in Hok.
    repeat (apply andb_true_iff in Hok as [Hok ?]).
    rewrite !has_space_app. simpl.
    repeat match goal with
           | H : negb _ = true |- _ => apply negb_true_iff in H
           end.
    now rewrite H1, H2.
  - change (k ++ ":" ++ v) with (kv_text [(k, v)]).
    apply parseKv_round_trip.
    + simpl. now rewrite Hok.
    + repeat constructor. intros [].
Qed.

(** The text a [/template] line with one pair renders to. *)
Lemma template_command_renders templates name k v x y :
  obj_get templates name = Some (JStr (x ++ "{" ++ k ++ "}" ++ y)) ->
  mentions "{" x = false ->
  mentions "{" y = false ->
  mentions " " name = false ->
  kv_ok (k, v) = true ->
  template_command templates ("/template " ++ name ++ " " ++ k ++ ":" ++ v)
  = Ok (if x ++ substitution ("{" ++ k ++ "}") x y v ++ y =? ""
        then None
        else Some (Text (JStr (x ++ substitution ("{" ++ k ++ "}") x y v
                                 ++ y)))).
Proof.
  intros Htpl Hx Hy Hname Hok.
  destruct (kv_ok_parts k v Hok) as [Hsp Hparse].
  unfold template_command.
  change ("/template " ++ name ++ " " ++ k ++ ":" ++ v)
    with ("/template" ++ String " " (name ++ String " " (k ++ ":" ++ v))).
  rewrite (split_on_word " " "/template") by reflexivity.
  rewrite (split_on_word " " name) by exact Hname.
  rewrite split_on_last by now apply has_space_mentions.
  cbn [nth_error skipn join]. rewrite Hparse.
  rewrite (renderTemplate_fills templates name k v x y Htpl Hx).
  change ("{" ++ k ++ "}") with (String "{" (k ++ "}")).
  rewrite (replaceAll_plain "{" (k ++ "}") v _ y Hy).
  cbn [truthy]. now destruct (_ =? "").
Qed.

Lemma substitution_app matched before after u r :
  mentions "$" u = false ->
  substitution matched before after (u ++ r)
  = u ++ substitution matched before after r.
Proof.
  induction u as [|a t IH]; [reflexivity|].
  cbn [mentions]. intros H. apply orb_false_iff in H as [Ha Ht].
  change (String a t ++ r) with (String a (t ++ r)).
  cbn [substitution]. rewrite Ha. now rewrite IH.
Qed.

Lemma kv_ok_value k v : kv_ok (k, v) = true -> v <> "".
Proof.
  unfold kv_ok. cbn [fst snd]. intros H.
  repeat (apply andb_true_iff in H as [H ?]).
  now destruct v.
Qed.

Lemma filled_not_empty x v y : v <> "" -> (x ++ v ++ y =? "") = false.
Proof.
  intros Hv. apply String.eqb_neq. intros H.
  destruct x; [|discriminate]. destruct v; [contradiction|discriminate].
Qed.

(** [X4] In the second program and in [src/unnamed/part_000],
    [/template name k:v] puts the template with [v] in the place of [{k}]
    where the input was, for a value without a dollar sign.  The template
    is a string of the templates that holds the placeholder once, and the
    name holds no blank. *)
Theorem template_command_fills templates name k v x y :
  obj_get templates name = Some (JStr (x ++ "{" ++ k ++ "}" ++ y)) ->
  mentions "{" x = false ->
  mentions "{" y = false ->
  mentions " " name = false ->
  kv_ok (k, v) = true ->
  mentions "$" v = false ->
  template_command templates ("/template " ++ name ++ " " ++ k ++ ":" ++ v)
  = Ok (Some (Text (JStr (x ++ v ++ y)))).
Proof.
  intros Htpl Hx Hy Hname Hok Hv.
  rewrite (template_command_renders templates name k v x y
             Htpl Hx Hy Hname Hok).
  rewrite (substitution_plain _ _ _ v Hv).
  now rewrite (filled_not_empty x v y (kv_ok_value k v Hok)).
Qed.

(** [X5] A value is a replacement pattern, not a text: where the value
    holds [$&], the placeholder itself comes back, so in the second
    program and in [src/unnamed/part_000] [/template name k:u$&w] gives
    the template with [u{k}w] in the place of [{k}]. *)
Theorem template_command_dollar templates name k u w x y :
  obj_get templates name = Some (JStr (x ++ "{" ++ k ++ "}" ++ y)) ->
  mentions "{" x = false ->
  mentions "{" y = false ->
  mentions " " name = false ->
  kv_ok (k, u ++ "$&" ++ w) = true ->
  mentions "$" u = false ->
  mentions "$" w = false ->
  template_command templates
    ("/template " ++ name ++ " " ++ k ++ ":" ++ u ++ "$&" ++ w)
  = Ok (Some (Text (JStr (x ++ (u ++ "{" ++ k ++ "}" ++ w) ++ y)))).
Proof.
  intros Htpl Hx Hy Hname Hok Hu Hw.
  rewrite (template_command_renders templates name k (u ++ "$&" ++ w) x y
             Htpl Hx Hy Hname Hok).
  rewrite (substitution_app _ _ _ u _ Hu).
  change ("$&" ++ w) with (String "$" (String "&" w)).
  cbn [substitution Ascii.eqb Bool.eqb].
  rewrite (substitution_plain _ _ _ w Hw).
  assert (Hne : u ++ ("{" ++ k ++ "}") ++ w <> "").
  { destruct u; discriminate. }
  rewrite (filled_not_empty x _ y Hne).
  now rewrite <- !append_assoc.
Qed.

(** [X22] In the first program no line reaches the handler of
    [/template].  The test of [/temp] comes before it in the main loop,
    and every line that starts with [/template] passes that test: the
    line is taken for a temperature. *)
Theorem template_lines_are_taken_for_temperature input :
  String.prefix "/template" input = true -> handler_of input = AtTemp.
Proof.
  intros Hpre. rewrite (prefix_split _ _ Hpre).
  generalize (str_drop (String.length "/template") input). intros r.
  reflexivity.
Qed.

(** ** The configuration file *)

Lemma index_keys_In n k ks :
  In k ks -> array_index k = Some n -> In (n, k) (index_keys ks).
Proof.
  unfold index_keys. induction ks as [|k0 ks IH]; simpl; [tauto|].
  intros [->|Hin] Hn.
  - rewrite Hn. simpl. apply In_insert_index. now left.
  - destruct (array_index k0) as [n0|]; simpl; [|now apply IH].
    apply In_insert_index. right. now apply IH.
Qed.

Lemma Object_keys_In {A : Type} (o : list (string * A)) k :
  obj_has o k = true -> In k (Object_keys o).
Proof.
  rewrite obj_has_In. intros Hin. unfold Object_keys.
  apply in_app_iff. destruct (array_index k) as [n|] eqn:Hn.
  - left. apply in_map_iff. exists (n, k). split; [reflexivity|].
    now apply index_keys_In.
  - right. unfold name_keys. apply filter_In. now rewrite Hn.
Qed.

Lemma obj_has_rev {A : Type} (l : list (string * A)) k :
  obj_has (rev l) k = obj_has l k.
Proof.
  apply Bool.eq_iff_eq_true. rewrite !obj_has_In, map_rev.
  symmetry. apply in_rev.
Qed.

(** A list of properties in which a name always has the same value. *)
Lemma obj_get_rev {A : Type} (l : list (string * A)) (f : string -> option A) k :
  (forall k' v, In (k', v) l -> f k' = Some v) ->
  obj_get (rev l) k = obj_get l k.
Proof.
  intros Hf.
  assert (Hget : forall l', (forall k' v, In (k', v) l' -> f k' = Some v) ->
                   obj_get l' k
                   = if obj_has l' k then f k else None).
  { clear. intros l' Hf. unfold obj_has.
    induction l' as [|[k0 v0] l' IH]; simpl; [reflexivity|].
    destruct (String.eqb_spec k0 k) as [->|Hne].
    - symmetry. apply Hf. now left.
    - apply IH. intros k' v Hin. apply Hf. now right. }
  rewrite (Hget l Hf), (Hget (rev l)).
  - now rewrite obj_has_rev.
  - intros k' v Hin. apply Hf. now apply in_rev.
Qed.

Lemma Object_entries_In {A : Type} (o : list (string * A)) k v :
  In (k, v) (Object_entries o) -> obj_get o k = Some v.
Proof.
  unfold Object_entries. intros Hin. apply list_elem_of_In in Hin.
  apply list_elem_of_omap in Hin as (k' & _ & Hk).
  destruct (obj_get o k') eqn:Hg; [|discriminate].
  now injection Hk as <- <-.
Qed.

Lemma obj_get_entries {A : Type} (o : list (string * A)) k :
  obj_get (Object_entries o) k = obj_get o k.
Proof.
  destruct (obj_get (Object_entries o) k) as [v|] eqn:Hg.
  - symmetry. apply Object_entries_In.
    clear -Hg. induction (Object_entries o) as [|[k0 v0] l IH];
      simpl in *; [discriminate|].
    destruct (String.eqb_spec k0 k) as [->|Hne].
    + injection Hg as ->. now left.
    + right. now apply IH.
  - destruct (obj_get o k) as [v|] eqn:Ho; [|reflexivity]. exfalso.
    assert (Hin : In (k, v) (Object_entries o)).
    { unfold Object_entries. apply list_elem_of_In.
      apply list_elem_of_omap. exists k. split.
      - apply list_elem_of_In. apply Object_keys_In.
        unfold obj_has. now rewrite Ho.
      - now rewrite Ho. }
    assert (Hhas : obj_has (Object_entries o) k = true).
    { apply obj_has_In. apply in_map_iff. now exists (k, v). }
    unfold obj_has in Hhas. now rewrite Hg in Hhas.
Qed.

Lemma obj_get_assign target source k :
  obj_get (assign target source) k
  = match obj_get (rev source) k with
    | Some v => Some v
    | None => obj_get target k
    end.
Proof.
  unfold assign. revert target.
  induction source as [|[k0 v0] source IH]; intros target; [reflexivity|].
  cbn [fold_left fst snd]. rewrite IH. cbn [rev].
  assert (Happ : forall l, obj_get (l ++ [(k0, v0)]) k
                           = match obj_get l k with
                             | Some v => Some v
                             | None => if k0 =? k then Some v0 else None
                             end).
  { clear. induction l as [|[k1 v1] l IH]; simpl; [reflexivity|].
    destruct (k1 =? k); [reflexivity | exact IH]. }
  rewrite Happ. destruct (obj_get (rev source) k); [reflexivity|].
  destruct (String.eqb_spec k0 k) as [->|Hne].
  - apply obj_get_set_eq.
  - now apply obj_get_set_ne.
Qed.

(** What a spread of an object sets, name by name: the values of the
    object win over those that were there. *)
Lemma obj_get_assign_entries target fields k :
  obj_get (assign target (Object_entries fields)) k
  = match obj_get fields k with
    | Some v => Some v
    | None => obj_get target k
    end.
Proof.
  rewrite obj_get_assign.
  rewrite (obj_get_rev _ (obj_get fields))
    by (intros k' v; apply Object_entries_In).
  now rewrite obj_get_entries.
Qed.

Lemma loadJson_cases rt file fb m :
  exists v,
    loadJson rt file fb m = (Ok v, m)
    /\ (v = fb
        \/ exists w text,
             fs m !! file = Some (File true w text)
             /\ parse rt text = Some v).
Proof.
  unfold loadJson, try_catch, bind, existsSync, inspect, readFileSync.
  destruct (fs m !! file) as [[[] w text|]|] eqn:Hfs; simpl;
    try (exists fb; split; [reflexivity | now left]).
  - rewrite Hfs. destruct (parse rt text) as [v|] eqn:Hp; simpl.
    + exists v. split; [reflexivity|]. right. eauto.
    + exists fb. split; [reflexivity | now left].
  - rewrite Hfs. exists fb. split; [reflexivity | now left].
  - rewrite Hfs. exists fb. split; [reflexivity | now left].
Qed.

Lemma indexed_keys i items k v :
  In (k, v) (indexed i items) ->
  exists j, k = string_of_nat j /\ (i <= j)%nat.
Proof.
  revert i. induction items as [|x items IH]; intros i; simpl; [tauto|].
  intros [[= <- <-]|Hin]; [eauto|].
  destruct (IH _ Hin) as (j & -> & Hj). exists j. split; [reflexivity | lia].
Qed.

Lemma indexed_functional i items k v :
  In (k, v) (indexed i items) -> obj_get (indexed i items) k = Some v.
Proof.
  revert i. induction items as [|x items IH]; intros i; simpl; [tauto|].
  intros [[= <- <-]|Hin]; [now rewrite String.eqb_refl|].
  destruct (String.eqb_spec (string_of_nat i) k) as [<-|Hne]; [|now apply IH].
  destruct (indexed_keys _ _ _ _ Hin) as (j & Hj & Hle).
  apply string_of_nat_inj in Hj. lia.
Qed.

(** The last of the properties a spread copies under a name is the one
    the value has under it. *)
Lemma obj_get_assign_spread target v k :
  obj_get (assign target (spread v)) k
  = match obj_get (spread v) k with
    | Some x => Some x
    | None => obj_get target k
    end.
Proof.
  rewrite obj_get_assign.
  rewrite (obj_get_rev _ (obj_get (spread v))); [reflexivity|].
  intros k' x Hin. destruct v as [[| | |s|items|fields]|]; simpl in *;
    try contradiction.
  - now apply indexed_functional.
  - now apply indexed_functional.
  - rewrite obj_get_entries. now apply Object_entries_In.
Qed.

Lemma option_or_none {A : Type} (o : option A) :
  match o with Some x => Some x | None => None end = o.
Proof. now destruct o. Qed.

(** [X6] [loadConfig] lays the file over the defaults.  For a file that
    holds an object: a setting other than [profiles], [templates] and
    [aliases] has the value of the file when the file has it, and the
    default otherwise; each of those three is an object in which an entry
    of the file wins over the default entry of the same name, and the
    other default entries stay. *)
Theorem loadConfig_merges rt CONF_FILE DEFAULT_CONFIG m file :
  loadJson rt CONF_FILE (JObj DEFAULT_CONFIG) m = (Ok (JObj file), m) ->
  exists cfg,
    loadConfig rt CONF_FILE DEFAULT_CONFIG m = (Ok (JObj cfg), m)
    /\ (forall k,
          k <> "profiles" -> k <> "templates" -> k <> "aliases" ->
          obj_get cfg k
          = match obj_get file k with
            | Some v => Some v
            | None => obj_get DEFAULT_CONFIG k
            end)
    /\ (forall member,
          In member ["profiles"; "templates"; "aliases"] ->
          exists entries,
            obj_get cfg member = Some (JObj entries)
            /\ forall name,
                 obj_get entries name
                 = match obj_get
                           (spread (Some (or_else (obj_get file member)
                                            (JObj [])))) name with
                   | Some v => Some v
                   | None =>
                       obj_get (spread (obj_get DEFAULT_CONFIG member)) name
                   end).
Proof.
  intros Hload. unfold loadConfig. unfold bind at 1. rewrite Hload.
  unfold merged, lift, bind, ret. cbn [js_prop].
  eexists. split; [reflexivity|]. split.
  - intros k Hp Ht Ha.
    rewrite !obj_get_set_ne by congruence.
    rewrite !obj_get_assign_spread. cbn [spread].
    rewrite !obj_get_entries. cbn [obj_get]. now rewrite option_or_none.
  - intros member Hin.
    assert (Hmember :
              forall target,
                obj_get
                  (assign (assign [] (spread (obj_get DEFAULT_CONFIG member)))
                     (spread (Some (or_else (obj_get file member) (JObj [])))))
                  target
                = match obj_get
                          (spread (Some (or_else (obj_get file member)
                                           (JObj [])))) target with
                  | Some v => Some v
                  | None =>
                      obj_get (spread (obj_get DEFAULT_CONFIG member)) target
                  end).
    { intros target. rewrite !obj_get_assign_spread. cbn [obj_get].
      now rewrite option_or_none. }
    destruct Hin as [<-|[<-|[<-|[]]]]; eexists; (split; [|exact Hmember]).
    + rewrite !obj_get_set_ne by discriminate. apply obj_get_set_eq.
    + rewrite obj_get_set_ne by discriminate. apply obj_get_set_eq.
    + apply obj_get_set_eq.
Qed.

(** [X7] [loadConfig] comes back with an object whatever the file is,
    with one exception: a file that holds [null] makes it throw.  It
    never waits, and it leaves the machine as it was. *)
Theorem loadConfig_outcome rt CONF_FILE DEFAULT_CONFIG m :
  match loadConfig rt CONF_FILE DEFAULT_CONFIG m with
  | (Ok (JObj _), m') => m' = m
  | (Throw _, m') =>
      m' = m
      /\ exists w text,
           fs m !! CONF_FILE = Some (File true w text)
           /\ parse rt text = Some JNull
  | _ => False
  end.
Proof.
  destruct (loadJson_cases rt CONF_FILE (JObj DEFAULT_CONFIG) m)
    as (v & Hload & Hv).
  unfold loadConfig. unfold bind at 1. rewrite Hload.
  unfold merged, lift, bind, ret.
  destruct v; cbn [js_prop]; try reflexivity.
  split; [reflexivity|].
  destruct Hv as [Hv|(w & text & Hfs & Hp)]; [discriminate | eauto].
Qed.

(** ** The commands of the autopilot *)

Lemma maxSteps_set cfg n :
  (1 <= n)%Z ->
  maxSteps (mkConfig (api_key cfg) (auto_yes cfg) (system_prompt cfg)
              (autopilot cfg) n (autopilot_done_tag cfg)) = n.
Proof.
  intros Hn. unfold maxSteps. simpl.
  destruct (Z.eqb_spec n 0); [lia | reflexivity].
Qed.

(** [X8] No [/autopilot] line brings the step budget below one: whatever
    is typed after [/autopilot], a budget of at least one round stays one,
    and [steps N] sets the larger of 1 and [N].  The key, [auto_yes] and
    the sentinel are not touched. *)
Theorem autopilot_command_budget rt input cfg :
  (1 <= maxSteps cfg)%Z ->
  (1 <= maxSteps (autopilot_command rt input cfg))%Z
  /\ api_key (autopilot_command rt input cfg) = api_key cfg
  /\ auto_yes (autopilot_command rt input cfg) = auto_yes cfg
  /\ doneTag (autopilot_command rt input cfg) = doneTag cfg
  /\ (forall val n,
        input = "/autopilot steps " ++ val ->
        val <> "" -> mentions " " val = false ->
        to_number rt (JStr val) = Some n ->
        maxSteps (autopilot_command rt input cfg) = Z.max 1 n).
Proof.
  intros Hbudget.
  assert (Hsteps : forall n,
             (1 <= maxSteps
                     (mkConfig (api_key cfg) (auto_yes cfg) (system_prompt cfg)
                        (autopilot cfg) (Z.max 1 n) (autopilot_done_tag cfg)))%Z).
  { intros n. rewrite maxSteps_set; lia. }
  split; [|split; [|split; [|split]]].
  - unfold autopilot_command.
    destruct (nth_error (split_on " " input) 1) as [cmd|]; [|exact Hbudget].
    destruct ((cmd =? "") || (cmd =? "status")); [exact Hbudget|].
    destruct (cmd =? "on"); [exact Hbudget|].
    destruct (cmd =? "off"); [exact Hbudget|].
    destruct (cmd =? "steps"); [|exact Hbudget].
    destruct (nth_error (split_on " " input) 2) as [val|]; [|exact Hbudget].
    destruct (val =? ""); [exact Hbudget|].
    destruct (to_number rt (JStr val)); [apply Hsteps | exact Hbudget].
  - unfold autopilot_command.
    repeat match goal with
           | |- context [match ?x with _ => _ end] => destruct x
           end; reflexivity.
  - unfold autopilot_command.
    repeat match goal with
           | |- context [match ?x with _ => _ end] => destruct x
           end; reflexivity.
  - unfold autopilot_command.
    repeat match goal with
           | |- context [match ?x with _ => _ end] => destruct x
           end; reflexivity.
  - intros val n -> Hval Hsp Hnum. unfold autopilot_command.
    change ("/autopilot steps " ++ val)
      with ("/autopilot" ++ String " " ("steps" ++ String " " val)).
    rewrite (split_on_word " " "/autopilot") by reflexivity.
    rewrite (split_on_word " " "steps") by reflexivity.
    rewrite (split_on_last " " val Hsp).
    cbn [nth_error]. change ("steps" =? "") with false.
    change ("steps" =? "status") with false.
    change ("steps" =? "on") with false.
    change ("steps" =? "off") with false.
    change ("steps" =? "steps") with true. cbn [orb].
    apply String.eqb_neq in Hval. rewrite Hval, Hnum.
    apply maxSteps_set. lia.
Qed.

Lemma includes_empty t : t <> "" -> includes "" t = false.
Proof. destruct t; [contradiction | reflexivity]. Qed.

Lemma doneTag_not_empty cfg : doneTag cfg <> "".
Proof.
  unfold doneTag. destruct (autopilot_done_tag cfg =? "") eqn:H;
    [discriminate|]. now apply String.eqb_neq.
Qed.

Lemma set_conv_same m : set_conv (conv m) m = m.
Proof. now destruct m. Qed.

(** Without a key no request is made: the exchange gives the empty reply
    and leaves the machine as it was. *)
Lemma sendToAssistant_without_key rt cfg p m :
  api_key cfg = "" -> sendToAssistant rt cfg p m = (Ok EmptyString, m).
Proof.
  intros Hkey. unfold sendToAssistant.
  unfold bind at 1. unfold push at 1, modify at 1.
  unfold try_catch. unfold bind at 1. unfold inspect at 1.
  rewrite inline_converse_turn. unfold bind at 1. unfold bind at 1.
  unfold callApi. rewrite Hkey. cbn [String.eqb]. unfold throw.
  unfold bind, pop, modify, ret. cbn [conv set_conv].
  rewrite removelast_app_one. f_equal. now destruct m.
Qed.

Lemma rounds_of_empty_replies rt cfg force fuel :
  api_key cfg = "" ->
  autopilot cfg || force = true ->
  forall steps next replies m,
    (maxSteps cfg - steps - 1 <= Z.of_nat fuel)%Z ->
    autopilot_rounds (sendToAssistant rt cfg) fuel cfg force steps next
      replies m
    = (Ok (HALTED_LIMIT,
           (replies
              ++ repeat EmptyString
                   (Z.to_nat (Z.max 1 (maxSteps cfg - steps))))%list), m).
Proof.
  intros Hkey Hauto.
  induction fuel as [|fuel IH]; intros steps next replies m Hfuel;
    cbn [autopilot_rounds]; unfold bind at 1;
    rewrite (sendToAssistant_without_key rt cfg next m Hkey);
    rewrite (includes_empty _ (doneTag_not_empty cfg)), Hauto;
    cbn [negb]; unfold ret, lift.
  - destruct (Z.leb_spec (maxSteps cfg) (steps + 1)) as [Hle|Hgt]; [|lia].
    replace (Z.to_nat (Z.max 1 (maxSteps cfg - steps))) with 1%nat by lia.
    reflexivity.
  - destruct (Z.leb_spec (maxSteps cfg) (steps + 1)) as [Hle|Hgt].
    + replace (Z.to_nat (Z.max 1 (maxSteps cfg - steps))) with 1%nat by lia.
      reflexivity.
    + rewrite IH by lia. rewrite <- app_assoc. do 3 f_equal.
      replace (Z.to_nat (Z.max 1 (maxSteps cfg - steps)))
        with (S (Z.to_nat (Z.max 1 (maxSteps cfg - (steps + 1))))) by lia.
      reflexivity.
Qed.

(** [X9] A round that fails does not stop the autopilot.  Without an API
    key every round fails before any request is made; a run that is
    enabled or forced then goes through its whole step budget, each reply
    empty, ends at the limit, and leaves the conversation, the files and
    the endpoint as they were. *)
Theorem autopilot_without_key rt goal cfg force m :
  api_key cfg = "" ->
  autopilot cfg || force = true ->
  runAutopilot rt goal cfg force m
  = (Ok (HALTED_LIMIT,
         repeat EmptyString (Z.to_nat (Z.max 1 (maxSteps cfg)))), m).
Proof.
  intros Hkey Hauto. unfold runAutopilot, runAutopilot_with.
  rewrite (rounds_of_empty_replies rt cfg force _ Hkey Hauto) by lia.
  now rewrite Z.sub_0_r.
Qed.

(** ** The tools, one by one *)

Lemma insert_sorted_Sorted x l :
  Sorted (fun a b => (a <=? b)%string = true) l ->
  Sorted (fun a b => (a <=? b)%string = true) (insert_sorted x l).
Proof.
  induction l as [|y l IH]; intros Hl; simpl.
  - repeat constructor.
  - destruct (x <=? y)%string eqn:Hxy.
    + constructor; [exact Hl | now constructor].
    + inversion Hl as [|? ? Hl' Hhd]; subst.
      constructor; [now apply IH|].
      destruct (String.leb_total x y) as [H|Hyx]; [congruence|].
      destruct l as [|z l]; simpl.
      * now constructor.
      * destruct (x <=? z)%string; constructor; [exact Hyx|].
        now inversion Hhd.
Qed.

Lemma insert_sorted_Permutation x l : Permutation (insert_sorted x l) (x :: l).
Proof.
  induction l as [|y l IH]; simpl; [reflexivity|].
  destruct (x <=? y)%string; [reflexivity|].
  rewrite IH. apply perm_swap.
Qed.

Lemma sort_strings_Sorted l :
  Sorted (fun a b => (a <=? b)%string = true) (sort_strings l).
Proof.
  unfold sort_strings. induction l as [|x l IH]; simpl; [constructor|].
  now apply insert_sorted_Sorted.
Qed.

Lemma sort_strings_Permutation l : Permutation (sort_strings l) l.
Proof.
  unfold sort_strings. induction l as [|x l IH]; simpl; [reflexivity|].
  now rewrite insert_sorted_Permutation, IH.
Qed.

(** [X10] For a directory [listDir] returns one line per entry, each
    entry once, a directory marked by a slash after its name, the lines in
    ascending order of their code units; the machine is left as it was. *)
Theorem listDir_sorted rt tx path m :
  fs m !! resolve rt path = Some Dir ->
  exists entries lines,
    readdirSync rt (resolve rt path) m = (Ok entries, m)
    /\ listDir rt tx (Some (JStr path)) m = (Ok (join nl lines), m)
    /\ Sorted (fun a b => (a <=? b)%string = true) lines
    /\ Permutation lines
         (List.map
            (fun n => match fs m !! path_join rt (resolve rt path) n with
                      | Some Dir => n ++ "/"
                      | _ => n
                      end) entries).
Proof.
  intros Hdir.
  unfold listDir, path_resolve, existsSync, statSync, readdirSync.
  unfold_m. repeat (cbn -[sort_strings join]; rewrite ?Hdir).
  eexists _, _. split; [reflexivity|]. split; [reflexivity|]. split.
  - apply sort_strings_Sorted.
  - apply sort_strings_Permutation.
Qed.


(** [X12] A prompt that nobody answers: the first program takes the
    silence for a yes when its timer runs out and runs the command; the
    other two programs wait for a line and run nothing. *)
Theorem runShell_unanswered rt tx c m :
  decisions m = [] ->
  (exists m',
      runShell rt tx confirm (Some (JStr c)) false m
      = (Ok (shell_output tx (fst (exec rt c (fs m)))), m')
      /\ fs m' = snd (exec rt c (fs m)))
  /\ (exists m',
         runShell rt tx confirm_waiting (Some (JStr c)) false m
         = (Stall, m')
         /\ fs m' = fs m /\ clock m' = clock m).
Proof.
  intros Hd. split.
  - unfold runShell, confirm, log_gate, await_decision, run_exec. unfold_m.
    cbn. rewrite Hd. cbn. destruct (exec rt c (fs m)) as [r f]. cbn.
    eexists. split; [reflexivity | reflexivity].
  - unfold runShell, confirm_waiting, log_gate, await_line. unfold_m.
    cbn. rewrite Hd. cbn. eexists. split; [reflexivity|]. auto.
Qed.

(** [X13] A GET or HEAD request carries no body: whatever [body] the
    arguments hold, [httpRequest] does what it does without it, when the
    method is GET, HEAD or left out. *)
Theorem httpRequest_get_has_no_body rt tx ask fields body auto m :
  match obj_get fields "method" with
  | None => true
  | Some v => is_str v "GET" || is_str v "HEAD"
  end = true ->
  httpRequest rt tx ask (JObj (obj_set fields "body" body)) auto m
  = httpRequest rt tx ask (JObj fields) auto m.
Proof.
  intros Hmethod. unfold httpRequest. unfold_m. cbn [js_prop].
  rewrite !obj_get_set_ne by discriminate. rewrite obj_get_set_eq.
  assert (Hnone :
            forall b,
              (if truthy b
                  && negb (is_str (default_to (obj_get fields "method")
                                     (JStr "GET")) "GET")
                  && negb (is_str (default_to (obj_get fields "method")
                                     (JStr "GET")) "HEAD")
               then Some b else None) = None).
  { intros b. destruct (obj_get fields "method") as [v|]; simpl.
    - apply orb_true_iff in Hmethod as [H|H]; rewrite H; simpl;
        [now rewrite andb_false_r | now rewrite andb_false_r].
    - now rewrite andb_false_r. }
  rewrite !Hnone. reflexivity.
Qed.



(** ** The store under the commands *)

Lemma chat_or_empty_get c name h :
  obj_get c name = Some h -> chat_or_empty c name = h.
Proof. unfold chat_or_empty. now intros ->. Qed.

Lemma start_coherent rt cfg m s m' :
  start rt cfg m = (Ok (Some s), m') -> coherent s.
Proof.
  intros Hstart.
  destruct (start_loaded rt cfg m s m' Hstart) as (_ & Hcur & Hget & _).
  now split.
Qed.

Lemma clear_coherent rt cfg s m s' m' :
  clear rt cfg s m = (Ok s', m') -> coherent s -> coherent s'.
Proof.
  unfold clear, set_messages, saveHistoryState. unfold_m.
  match goal with |- context [saveJson ?r ?f ?d ?mm] =>
    destruct (saveJson_returns r f d mm) as [m1 Hsave]; rewrite Hsave end.
  intros [= <- _] [Hcur Hget]. split; simpl; [exact Hcur|].
  apply obj_get_set_eq.
Qed.

Lemma chat_new_coherent rt cfg name s m s' m' :
  chat_new rt cfg name s m = (Ok s', m') -> coherent s -> coherent s'.
Proof.
  unfold chat_new, set_messages, saveHistoryState. cbv zeta.
  destruct (has_member _ _); unfold_m; [now intros [= <- _]|].
  match goal with |- context [saveJson ?r ?f ?d ?mm] =>
    destruct (saveJson_returns r f d mm) as [m1 Hsave]; rewrite Hsave end.
  intros [= <- _] _. split; simpl; [reflexivity|]. apply obj_get_set_eq.
Qed.

Lemma chat_use_coherent rt cfg name s m s' m' :
  chat_use rt cfg name s m = (Ok s', m') -> coherent s -> coherent s'.
Proof.
  unfold chat_use, set_messages, saveHistoryState. cbv zeta.
  destruct (name =? ""); unfold_m; [now intros [= <- _]|].
  destruct (has_member (chats (historyState s)) name); simpl;
    [|now intros [= <- _]].
  destruct (obj_has (chats (historyState s)) name) eqn:E; simpl;
    [|discriminate].
  match goal with |- context [saveJson ?r ?f ?d ?mm] =>
    destruct (saveJson_returns r f d mm) as [m1 Hsave]; rewrite Hsave end.
  intros [= <- _] _. split; simpl; [reflexivity|].
  unfold chat_or_empty, obj_has in *.
  now destruct (obj_get (chats (historyState s)) name).
Qed.

Lemma chat_delete_coherent rt cfg name s m s' m' :
  chat_delete rt cfg name s m = (Ok s', m') -> coherent s -> coherent s'.
Proof.
  unfold chat_delete, set_messages, saveHistoryState. cbv zeta.
  rewrite has_member_next.
  destruct (name =? "") eqn:Hname; unfold_m; [now intros [= <- _]|].
  destruct (has_member (chats (historyState s)) name); simpl;
    [|now intros [= <- _]].
  intros Hrun [Hcur Hget]. rewrite Hcur in Hrun.
  destruct (String.eqb_spec (currentChat s) name) as [Heq|Hne].
  - match type of Hrun with context [saveJson ?r ?f ?d ?mm] =>
      destruct (saveJson_returns r f d mm) as [m1 Hsave];
      rewrite Hsave in Hrun end.
    injection Hrun as <- _. split; simpl; [reflexivity|].
    set (remaining := obj_delete (chats (historyState s)) name).
    set (next := next_name (Object_keys remaining)).
    destruct (obj_has remaining next) eqn:Hnext.
    + unfold chat_or_empty, obj_has in *.
      now destruct (obj_get remaining next).
    + rewrite obj_get_set_eq. unfold chat_or_empty.
      now rewrite obj_get_set_eq.
  - match type of Hrun with context [saveJson ?r ?f ?d ?mm] =>
      destruct (saveJson_returns r f d mm) as [m1 Hsave];
      rewrite Hsave in Hrun end.
    injection Hrun as <- _. split; simpl; [reflexivity|].
    rewrite obj_get_delete_ne by congruence. exact Hget.
Qed.

Lemma ask_assistant_coherent rt cfg input s m s' m' :
  Sessions.ask_assistant rt cfg input s m = (Ok s', m') ->
  coherent s -> coherent s'.
Proof.
  intros Hrun Hs.
  revert Hrun. unfold Sessions.ask_assistant. unfold bind at 1.
  unfold push at 1, modify at 1. unfold try_catch.
  match goal with
  | |- context [match ?c ?m0 with _ => _ end] =>
      destruct (c m0) as [[s1|e|] m1] eqn:Hbody
  end.
  - intros [= <- <-].
    apply bind_Ok in Hbody as (fuel & m2 & _ & Hbody).
    apply bind_Ok in Hbody as (msg & m3 & _ & Hbody).
    apply bind_Ok in Hbody as (text & m4 & _ & Hbody).
    apply bind_Ok in Hbody as (u & m5 & _ & Hbody).
    apply bind_Ok in Hbody as (msgs & m6 & _ & Hbody).
    apply bind_Ok in Hbody as (h & m7 & _ & Hbody).
    apply bind_Ok in Hbody as (u' & m8 & _ & Hbody).
    injection Hbody as <- _. split; simpl; [reflexivity|].
    apply obj_get_set_eq.
  - unfold bind, pop, modify, ret. now intros [= <- _].
  - discriminate.
Qed.

(** [X15] Each time the main loop is back at its prompt, its variables
    agree with the store.  From startup on, after [/clear], [/chat new],
    [/chat use], [/chat delete], [/export] and rounds with the assistant
    in any number and order, [current] is the chat in use, the store
    holds that chat, and [history] is what it holds under it. *)
Theorem commands_keep_store_coherent rt cfg m s m1 cs s' m' :
  start rt cfg m = (Ok (Some s), m1) ->
  run_commands rt cfg cs s m1 = (Ok s', m') ->
  coherent s' /\ resolves (historyState s') = true.
Proof.
  intros Hstart. apply start_coherent in Hstart.
  revert s m1 Hstart. induction cs as [|c cs IH]; intros s m1 Hs.
  - intros [= <- _]. split; [exact Hs|].
    destruct Hs as [Hcur Hget]. unfold resolves, obj_has.
    now rewrite Hcur, Hget.
  - cbn [run_commands]. intros Hrun.
    apply bind_Ok in Hrun as (s1 & m2 & Hstep & Hrest).
    apply (IH s1 m2); [|exact Hrest].
    destruct c; simpl in Hstep.
    + exact (clear_coherent _ _ _ _ _ _ Hstep Hs).
    + exact (chat_new_coherent _ _ _ _ _ _ _ Hstep Hs).
    + exact (chat_use_coherent _ _ _ _ _ _ _ Hstep Hs).
    + exact (chat_delete_coherent _ _ _ _ _ _ _ Hstep Hs).
    + now rewrite (export_keeps_state _ _ _ _ _ _ Hstep).
    + exact (ask_assistant_coherent _ _ _ _ _ _ _ Hstep Hs).
Qed.

(** ** A new chat, and a file written and read *)

(** [X16] The name [makeChatName] gives a new chat is the first of
    chat-1, chat-2, ... that no chat has: it is free, and every candidate
    before it is taken. *)
Theorem makeChatName_least_free st :
  exists i,
    makeChatName st = "chat-" ++ string_of_nat i
    /\ (1 <= i)%nat
    /\ obj_has (chats st) (makeChatName st) = false
    /\ forall j, (1 <= j < i)%nat ->
         obj_has (chats st) ("chat-" ++ string_of_nat j) = true.
Proof.
  exists (first_free (chats st) (S (List.length (chats st))) 1).
  destruct (first_free_cases (chats st) (S (List.length (chats st))) 1)
    as (_ & Hle & Hbelow).
  split; [reflexivity|]. split; [exact Hle|].
  split; [apply makeChatName_is_free | exact Hbelow].
Qed.

(** ** Writing and reading back *)

Lemma write_steps rt file text m :
  fs m !! dirname rt file = Some Dir ->
  match fs m !! file with
  | None | Some (File true true _) => True
  | _ => False
  end ->
  exists m',
    mkdirSync (dirname rt file) m = (Ok tt, m)
    /\ writeFileSync rt file text m = (Ok tt, m')
    /\ fs m' !! file = Some (File true true text).
Proof.
  intros Hdir Hfile. unfold mkdirSync, writeFileSync. rewrite Hdir.
  destruct (fs m !! file) as [[[] [] old|]|]; try contradiction;
    (eexists; split; [reflexivity|]; split; [reflexivity|]);
    apply lookup_insert_eq.
Qed.

Lemma readFile_reads rt tx path w text m :
  fs m !! resolve rt path = Some (File true w text) ->
  readFile rt tx (Some (JStr path)) m
  = (Ok (if (READ_LIMIT <? String.length text)%nat
         then str_take READ_LIMIT text
                ++ tx_truncated tx (String.length text)
         else text), m).
Proof.
  intros Hfs.
  unfold readFile, path_resolve, existsSync, statSync, readFileSync.
  unfold_m. repeat (cbn -[Nat.ltb str_take]; rewrite ?Hfs). reflexivity.
Qed.

(** [X18] What [writeFile] has written, [readFile] reads back.  With
    [auto_yes] set, for a path in an existing directory that is free or
    holds a file that can be read and written, [writeFile] reports the
    write, and [readFile] of the same path then returns the content
    written, cut at the limit of [readFile] when it is longer. *)
Theorem write_then_read rt tx path text m :
  fs m !! dirname rt (resolve rt path) = Some Dir ->
  match fs m !! resolve rt path with
  | None | Some (File true true _) => True
  | _ => False
  end ->
  exists m',
    writeFile rt tx confirm (Some (JStr path)) (Some (JStr text)) true m
    = (Ok (tx_written tx (resolve rt path) (String.length text)), m')
    /\ readFile rt tx (Some (JStr path)) m'
       = (Ok (if (READ_LIMIT <? String.length text)%nat
              then str_take READ_LIMIT text
                     ++ tx_truncated tx (String.length text)
              else text), m').
Proof.
  intros Hdir Hfile.
  assert (Hout :
            forall m1, fs m1 = fs m ->
              exists m',
                mkdirSync (dirname rt (resolve rt path)) m1 = (Ok tt, m1)
                /\ writeFileSync rt (resolve rt path) text m1 = (Ok tt, m')
                /\ fs m' !! resolve rt path = Some (File true true text)).
  { intros m1 Hm1. apply write_steps; now rewrite Hm1. }
  unfold writeFile, path_resolve, existsSync, readFileSync, diff_input,
    confirm, log_gate.
  unfold_m.
  destruct (fs m !! resolve rt path) as [[[] [] old|]|] eqn:Hfs;
    try contradiction;
    repeat (write_step; rewrite ?Hfs);
    destruct (negb _ && _); repeat (write_step; rewrite ?Hfs);
    match goal with
    | |- context [mkdirSync _ ?m1] =>
        destruct (Hout m1 eq_refl) as (m' & Hmk & Hwr & Hnew)
    end;
    rewrite Hmk, Hwr; exists m'; (split; [reflexivity|]);
    now apply readFile_reads with (w := true).
Qed.

(** ** The history file *)

Lemma history_of_encode st c :
  current st = Some c -> c <> "" -> obj_has (chats st) c = true ->
  history_of (encode st) = Some st.
Proof.
  intros Hcur Hne Hhas. destruct st as [cur chats]. simpl in *. subst cur.
  unfold encode, encode_chats. cbn [current Sessions.chats List.app].
  cbn [history_of obj_get String.eqb Ascii.eqb Bool.eqb].
  unfold chats_member. rewrite typed_chats_encode.
  cbn [current_member]. apply String.eqb_neq in Hne.
  rewrite Hne, (has_member_own _ _ Hhas).
  reflexivity.
Qed.

(** [X19] The store survives a restart.  What [saveHistoryState] writes,
    [loadHistoryState] reads back as the same store, when the history
    file can be written and read, the store names a current chat that it
    holds, and the runtime parses the text it printed. *)
Theorem history_survives_restart rt st c m :
  exportable rt (HIST_FILE rt) m = true ->
  parse rt (stringify rt (encode st)) = Some (encode st) ->
  current st = Some c -> c <> "" -> obj_has (chats st) c = true ->
  exists m',
    saveHistoryState rt st m = (Ok tt, m')
    /\ loadHistoryState rt m' = (Ok (Some st), m').
Proof.
  intros Hexp Hcodec Hcur Hne Hhas.
  assert (Hwrite : exists m' w,
             writeFileSync rt (HIST_FILE rt) (stringify rt (encode st)) m
             = (Ok tt, m')
             /\ fs m' !! HIST_FILE rt
                = Some (File true w (stringify rt (encode st)))).
  { unfold exportable in Hexp. unfold writeFileSync.
    destruct (fs m !! HIST_FILE rt) as [[[] [] old|]|] eqn:Hf;
      try discriminate.
    - eexists. exists true. split; [reflexivity|]. simpl.
      apply lookup_insert_eq.
    - destruct (fs m !! dirname rt (HIST_FILE rt)) as [[|]|];
        try discriminate.
      eexists. exists true. split; [reflexivity|]. simpl.
      apply lookup_insert_eq. }
  destruct Hwrite as (m' & w & Hw & Hfs).
  exists m'. split.
  - unfold saveHistoryState, saveJson, try_catch. now rewrite Hw.
  - assert (Hload : loadJson rt (HIST_FILE rt) (encode fallback) m'
                    = (Ok (encode st), m')).
    { unfold loadJson, try_catch, existsSync, readFileSync. unfold_m.
      rewrite Hfs. cbn -[encode]. rewrite Hfs. cbn -[encode].
      rewrite Hcodec. reflexivity. }
    unfold loadHistoryState. unfold_m. rewrite Hload.
    now rewrite (history_of_encode st c Hcur Hne Hhas).
Qed.

(** ** The conversation under the tools

    No tool handler touches the conversation: what a batch of tool calls
    adds to it is the message with the calls and one answer per call. *)

Create HintDb still discriminated.

Section Still.
Context {A B : Type}.

Lemma still_ret (a : A) : still (ret a).
Proof. intros m. reflexivity. Qed.

Lemma still_throw (e : JsError) : still (@throw A e).
Proof. intros m. reflexivity. Qed.

Lemma still_lift (o : Outcome A) : still (lift o).
Proof. intros m. reflexivity. Qed.

Lemma still_inspect (f : Machine -> A) : still (inspect f).
Proof. intros m. reflexivity. Qed.

Lemma still_bind (c : M A) (k : A -> M B) :
  still c -> (forall a, still (k a)) -> still (bind c k).
Proof.
  intros Hc Hk m. unfold bind. pose proof (Hc m) as H.
  destruct (c m) as [[a|e|] m1]; simpl in *; try exact H.
  now rewrite (Hk a m1).
Qed.

Lemma still_try_catch (c : M A) (h : JsError -> M A) :
  still c -> (forall e, still (h e)) -> still (try_catch c h).
Proof.
  intros Hc Hh m. unfold try_catch. pose proof (Hc m) as H.
  destruct (c m) as [[a|e|] m1]; simpl in *; try exact H.
  now rewrite (Hh e m1).
Qed.
End Still.

Lemma still_modify (f : Machine -> Machine) :
  (forall m, conv (f m) = conv m) -> still (modify f).
Proof. intros H m. apply H. Qed.

#[export] Hint Resolve still_ret still_throw still_lift still_inspect : still.

Ltac still_step :=
  lazymatch goal with
  | |- still (bind _ _) => apply still_bind; [|intros ?]
  | |- still (try_catch _ _) => apply still_try_catch; [|intros ?]
  | |- still (if ?b then _ else _) => destruct b
  | |- still (match ?x with _ => _ end) => destruct x
  | |- still _ => solve [auto with still]
  end.

Ltac still_steps := repeat still_step.

Lemma still_existsSync p : still (existsSync p).
Proof. apply still_inspect. Qed.

Lemma still_statSync p : still (statSync p).
Proof. intros m. unfold statSync. now destruct (fs m !! p). Qed.

Lemma still_readFileSync p : still (readFileSync p).
Proof.
  intros m. unfold readFileSync. now destruct (fs m !! p) as [[[] ? ?|]|].
Qed.

Lemma still_writeFileSync rt p data : still (writeFileSync rt p data).
Proof.
  intros m. unfold writeFileSync.
  destruct (fs m !! p) as [[? [] ?|]|]; try reflexivity.
  now destruct (fs m !! dirname rt p) as [[]|].
Qed.

Lemma still_mkdirSync d : still (mkdirSync d).
Proof. intros m. unfold mkdirSync. now destruct (fs m !! d) as [[]|]. Qed.

Lemma still_readdirSync rt d : still (readdirSync rt d).
Proof. intros m. unfold readdirSync. now destruct (fs m !! d) as [[]|]. Qed.

Lemma still_path_resolve rt p : still (path_resolve rt p).
Proof. unfold path_resolve. destruct p as [[]|]; auto with still. Qed.

Lemma still_log_gate action detail auto : still (log_gate action detail auto).
Proof. apply still_modify. reflexivity. Qed.

Lemma still_await_decision : still await_decision.
Proof.
  intros m. unfold await_decision. now destruct (decisions m) as [|[] ?].
Qed.

Lemma still_run_exec rt cmd : still (run_exec rt cmd).
Proof.
  unfold run_exec. destruct cmd as [[]|]; auto with still.
  intros m. now destruct (exec rt s (fs m)).
Qed.

Lemma still_do_fetch rt req : still (do_fetch rt req).
Proof. intros m. reflexivity. Qed.

#[export] Hint Resolve still_existsSync still_statSync still_readFileSync
  still_writeFileSync still_mkdirSync still_readdirSync still_path_resolve
  still_log_gate still_await_decision still_run_exec still_do_fetch : still.

Lemma still_confirm action detail auto : still (confirm action detail auto).
Proof. unfold confirm. still_steps. Qed.

#[export] Hint Resolve still_confirm : still.

Lemma still_listDir rt tx p : still (listDir rt tx p).
Proof. unfold listDir. still_steps. Qed.

Lemma still_readFile rt tx p : still (readFile rt tx p).
Proof. unfold readFile. still_steps. Qed.

Lemma still_writeFile rt tx p content auto :
  still (writeFile rt tx confirm p content auto).
Proof. unfold writeFile. still_steps. Qed.

Lemma still_runShell rt tx cmd auto : still (runShell rt tx confirm cmd auto).
Proof. unfold runShell. still_steps. Qed.

Lemma still_httpRequest rt tx args auto :
  still (httpRequest rt tx confirm args auto).
Proof. unfold httpRequest. still_steps. Qed.

Lemma still_webSearch rt tx args auto :
  still (webSearch rt tx confirm args auto).
Proof. unfold webSearch. still_steps. Qed.

#[export] Hint Resolve still_listDir still_readFile still_writeFile
  still_runShell still_httpRequest still_webSearch : still.

Lemma still_chain_steps run_tool steps i :
  (forall tool a, still (run_tool tool a)) ->
  still (Sessions.chain_steps run_tool steps i).
Proof.
  intros Hrun. revert i.
  induction steps as [|s rest IH]; intros i; simpl; still_steps.
Qed.

Lemma still_toolChain_with rt run_tool steps :
  (forall tool a, still (run_tool tool a)) ->
  still (Sessions.toolChain_with rt run_tool steps).
Proof.
  intros Hrun. unfold Sessions.toolChain_with.
  destruct steps as [[| | | |[|s rest]|]|]; auto with still.
  apply still_bind; [now apply still_chain_steps | auto with still].
Qed.

Lemma still_executeTool_with rt chain name args cfg :
  (forall steps, still (chain steps cfg)) ->
  still (Sessions.executeTool_with rt chain name args cfg).
Proof.
  intros Hchain. unfold Sessions.executeTool_with. still_steps.
Qed.

Lemma still_executeTool_upto rt n name args cfg :
  still (Sessions.executeTool_upto rt n name args cfg).
Proof.
  revert name args.
  induction n as [|n IH]; intros name args; simpl;
    apply still_executeTool_with; intros steps;
    apply still_toolChain_with; auto with still.
Qed.

Lemma still_executeTool rt name args cfg :
  still (Sessions.executeTool rt name args cfg).
Proof. apply still_executeTool_upto. Qed.

(** One call: its answer is the one message added, under the [id] of the
    call; a call that throws adds nothing. *)
Lemma run_call_answers rt c cfg m :
  match Sessions.run_call rt (Some c) cfg m with
  | (Ok _, m') =>
      exists result,
        conv m' = (conv m ++ [tool_message (prop_or_none c "id") result])%list
  | (Throw _, m') => conv m' = conv m
  | (Stall, _) => False
  end.
Proof.
  unfold Sessions.run_call, bind, lift.
  pose proof (js_prop_opt_settles (Some c) "function") as H1.
  destruct (js_prop_opt (Some c) "function") as [fn|e|] eqn:Hfn;
    [|reflexivity|contradiction].
  assert (Hc : c <> JNull).
  { intros ->. discriminate. }
  pose proof (js_prop_opt_settles fn "name") as H2.
  destruct (js_prop_opt fn "name") as [name|e|]; [|reflexivity|contradiction].
  pose proof (js_prop_opt_settles fn "arguments") as H3.
  destruct (js_prop_opt fn "arguments") as [text|e|];
    [|reflexivity|contradiction].
  pose proof (still_executeTool rt name (decode_arguments rt text) cfg m)
    as Hstill.
  pose proof (quiet_executeTool rt name (decode_arguments rt text) cfg m)
    as [Hq _].
  destruct (Sessions.executeTool rt name (decode_arguments rt text) cfg m)
    as [[result|e|] m1]; simpl in Hstill, Hq;
    [|exact Hstill|contradiction].
  cbn [js_prop_opt]. rewrite (js_prop_not_null c "id" Hc).
  exists result. cbn. now rewrite Hstill.
Qed.

Lemma answers_cons c l r rs :
  answers (c :: l) (r :: rs)
  = tool_message (prop_or_none c "id") r :: answers l rs.
Proof. reflexivity. Qed.

(** The loop over the calls: the answers of the calls it got through, in
    their order. *)
Lemma run_calls_answers rt l cfg count :
  forall i m,
    (i + count = List.length l)%nat ->
    exists results,
      conv (snd (Sessions.run_calls rt (JArr l) count i cfg m))
      = (conv m ++ answers (skipn i l) results)%list
      /\ match fst (Sessions.run_calls rt (JArr l) count i cfg m) with
         | Ok _ => List.length results = count
         | Throw _ => (List.length results < count)%nat
         | Stall => False
         end.
Proof.
  induction count as [|count IH]; intros i m Hlen.
  - exists []. simpl. split; [|reflexivity].
    unfold answers. rewrite combine_nil. simpl. now rewrite app_nil_r.
  - assert (Hi : (i < List.length l)%nat) by lia.
    destruct (nth_error l i) as [c|] eqn:Hc;
      [|apply nth_error_None in Hc; lia].
    assert (Hskip : skipn i l = c :: skipn (S i) l).
    { clear -Hc. revert l Hc. induction i as [|i IHi]; intros [|x l] Hc;
        try discriminate; simpl in *.
      - now injection Hc as ->.
      - now apply IHi. }
    cbn [Sessions.run_calls]. unfold bind at 1 2. cbn [js_item]. rewrite Hc.
    pose proof (run_call_answers rt c cfg m) as Hcall.
    destruct (Sessions.run_call rt (Some c) cfg m) as [[[]|e|] m1];
      [| |contradiction].
    + destruct Hcall as (result & Hconv).
      destruct (IH (S i) m1 ltac:(lia)) as (results & Hrest & Hout).
      exists (result :: results). rewrite Hskip, answers_cons. split.
      * rewrite Hrest, Hconv. now rewrite <- app_assoc.
      * destruct (fst (Sessions.run_calls rt (JArr l) count (S i) cfg m1));
          simpl; [now rewrite Hout | lia | exact Hout].
    + exists []. simpl. split; [|lia].
      unfold answers. rewrite combine_nil. simpl.
      now rewrite app_nil_r.
Qed.

(** [X20] Every tool call of a message is answered, in order.  For a
    message with a list of one or more calls, [handleTools] adds to the
    conversation the message and then one tool message per call, each
    under the [id] of its call, and returns [true]; it never waits.  When
    a call throws, the conversation holds the message and the answers of
    the calls before it. *)
Theorem handleTools_answers_in_order rt msg c calls cfg m :
  js_prop msg "tool_calls" = Ok (Some (JArr (c :: calls))) ->
  exists results,
    conv (snd (Sessions.handleTools rt (Some msg) cfg m))
    = (conv m ++ msg :: answers (c :: calls) results)%list
    /\ match fst (Sessions.handleTools rt (Some msg) cfg m) with
       | Ok b => b = true /\ List.length results = S (List.length calls)
       | Throw _ => (List.length results <= List.length calls)%nat
       | Stall => False
       end.
Proof.
  intros Hcalls.
  set (m0 := set_conv (conv m ++ [msg]) m).
  assert (Hrun :
            Sessions.handleTools rt (Some msg) cfg m
            = match Sessions.run_calls rt (JArr (c :: calls))
                      (S (List.length calls)) 0 cfg m0 with
              | (Ok _, m') => (Ok true, m')
              | (Throw e, m') => (Throw e, m')
              | (Stall, m') => (Stall, m')
              end).
  { unfold Sessions.handleTools. unfold bind at 1, lift at 1.
    cbn [js_prop_opt]. rewrite Hcalls.
    cbn [truthy negb js_length List.length].
    rewrite Nat2Z.inj_succ. unfold Z.succ.
    destruct (Z.of_nat (List.length calls) + 1)%Z eqn:Hz; try lia.
    unfold loop_count. cbn [js_length List.length].
    rewrite Nat2Z.id. reflexivity. }
  rewrite Hrun.
  destruct (run_calls_answers rt (c :: calls) cfg (S (List.length calls))
              0%nat m0 eq_refl) as (results & Hconv & Hout).
  exists results.
  destruct (Sessions.run_calls rt (JArr (c :: calls))
              (S (List.length calls)) 0 cfg m0) as [[[]|e|] m1];
    simpl in *.
  - split; [|split; [reflexivity | exact Hout]].
    rewrite Hconv. now rewrite <- app_assoc.
  - split; [|lia]. rewrite Hconv. now rewrite <- app_assoc.
  - contradiction.
Qed.

(** ** The store across a restart

    Every command that changes the store saves it, so what [main] reads
    when the program is started again is the session it was left in. *)

Lemma loadHistoryState_frame rt m m' r :
  fs m' !! HIST_FILE rt = fs m !! HIST_FILE rt ->
  loadHistoryState rt m = (Ok r, m) ->
  loadHistoryState rt m' = (Ok r, m').
Proof.
  intros Hfs. unfold loadHistoryState, loadJson, try_catch, existsSync,
    readFileSync. unfold_m. rewrite Hfs.
  destruct (fs m !! HIST_FILE rt) as [[[] w text|]|] eqn:Hm; cbn;
    rewrite ?Hfs, ?Hm; cbn; try (intros [= <-]; reflexivity).
  destruct (parse rt text); cbn; intros [= <-]; reflexivity.
Qed.

Lemma load_on_disk rt st c m :
  on_disk rt st m ->
  parse rt (stringify rt (encode st)) = Some (encode st) ->
  current st = Some c -> c <> "" -> obj_has (chats st) c = true ->
  loadHistoryState rt m = (Ok (Some st), m).
Proof.
  intros Hfs Hcodec Hcur Hne Hhas. unfold on_disk in Hfs.
  assert (Hload : loadJson rt (HIST_FILE rt) (encode fallback) m
                  = (Ok (encode st), m)).
  { unfold loadJson, try_catch, existsSync, readFileSync. unfold_m.
    rewrite Hfs. cbn -[encode]. rewrite Hfs. cbn -[encode].
    rewrite Hcodec. reflexivity. }
  unfold loadHistoryState. unfold_m. rewrite Hload.
  now rewrite (history_of_encode st c Hcur Hne Hhas).
Qed.

Lemma save_on_disk rt st m :
  exportable rt (HIST_FILE rt) m = true ->
  exists m',
    saveHistoryState rt st m = (Ok tt, m')
    /\ on_disk rt st m'
    /\ exportable rt (HIST_FILE rt) m' = true.
Proof.
  intros Hexp. unfold saveHistoryState, saveJson, try_catch, writeFileSync.
  unfold exportable in Hexp.
  destruct (fs m !! HIST_FILE rt) as [[[] [] old|]|] eqn:Hf;
    try discriminate.
  - eexists. split; [reflexivity|].
    unfold on_disk, exportable. cbn. rewrite lookup_insert_eq. auto.
  - destruct (fs m !! dirname rt (HIST_FILE rt)) as [[|]|];
      try discriminate.
    eexists. split; [reflexivity|].
    unfold on_disk, exportable. cbn. rewrite lookup_insert_eq. auto.
Qed.

Lemma history_of_named data st :
  history_of data = Some st ->
  exists c, current st = Some c /\ c <> "".
Proof.
  unfold history_of. destruct data as [| | | |msgs|fields].
  1-4: intros [= <-]; exists "default"; split; [reflexivity|discriminate].
  - intros [= <-]. exists "default". split; [reflexivity|discriminate].
  - destruct (chats_member (obj_get fields "chats")) as [c|]; [|discriminate].
    destruct (current_member (obj_get fields "current")) as [cur|] eqn:Hcur;
      [|discriminate].
    intros [= <-]. exists cur. split; [reflexivity|].
    unfold current_member in Hcur.
    destruct (obj_get fields "current") as [[| | |s| |]|];
      try (injection Hcur as <-; discriminate);
      try (simpl in Hcur; discriminate).
    + simpl in Hcur.
      match type of Hcur with (if ?b then _ else _) = _ => destruct b end;
        [discriminate | injection Hcur as <-; discriminate].
    + simpl in Hcur.
      match type of Hcur with (if ?b then _ else _) = _ => destruct b end;
        [discriminate | injection Hcur as <-; discriminate].
    + injection Hcur as <-. destruct (String.eqb_spec s ""); [discriminate|].
      assumption.
Qed.

Lemma start_durable rt cfg m s m1 :
  start rt cfg m = (Ok (Some s), m1) ->
  exportable rt (HIST_FILE rt) m = true ->
  durable rt s m1.
Proof.
  intros Hstart Hexp.
  destruct (start_loaded rt cfg m s m1 Hstart) as (Hload & Hcur & Hget & ->).
  destruct (loadHistoryState_returns rt m) as (data & Hdata).
  rewrite Hload in Hdata. injection Hdata as Hdata. symmetry in Hdata.
  destruct (history_of_named data _ Hdata) as (c & Hc & Hne).
  rewrite Hcur in Hc. injection Hc as <-.
  split; [exact Hexp|]. split; [exact Hne|]. split; [now split|].
  left. now apply (loadHistoryState_frame rt m).
Qed.

Lemma durable_saved rt st name h m :
  exportable rt (HIST_FILE rt) m = true ->
  name <> "" ->
  current st = Some name ->
  obj_get (chats st) name = Some h ->
  exists m',
    saveHistoryState rt st m = (Ok tt, m')
    /\ durable rt (mkSession st name h) m'.
Proof.
  intros Hexp Hne Hcur Hget.
  destruct (save_on_disk rt st m Hexp) as (m' & Hsave & Hdisk & Hexp').
  exists m'. split; [exact Hsave|].
  split; [exact Hexp'|]. split; [exact Hne|].
  split; [split; assumption|]. now right.
Qed.

Lemma next_name_named ks : next_name ks <> "".
Proof.
  unfold next_name. destruct ks as [|k ks]; [discriminate|].
  destruct (String.eqb_spec k ""); [discriminate | assumption].
Qed.

Lemma clear_durable rt cfg s m :
  durable rt s m ->
  exists s' m', clear rt cfg s m = (Ok s', m') /\ durable rt s' m'.
Proof.
  intros (Hexp & Hne & [Hcur Hget] & _).
  unfold clear, set_messages. unfold bind at 1. unfold modify at 1.
  destruct (durable_saved rt
              (mkState (current (historyState s))
                 (obj_set (chats (historyState s)) (currentChat s) []))
              (currentChat s) [] (set_conv [system_message cfg] m))
    as (m' & Hsave & Hd);
    [exact Hexp | exact Hne | exact Hcur | apply obj_get_set_eq |].
  unfold bind, ret. rewrite Hsave. eauto.
Qed.

Lemma chat_new_durable rt cfg name s m :
  durable rt s m ->
  exists s' m', chat_new rt cfg name s m = (Ok s', m') /\ durable rt s' m'.
Proof.
  intros Hd. pose proof Hd as (Hexp & _). unfold chat_new. cbv zeta.
  set (newName := if name =? "" then makeChatName (historyState s) else name).
  assert (Hnew : newName <> "").
  { unfold newName. destruct (String.eqb_spec name ""); [|assumption].
    unfold makeChatName. discriminate. }
  destruct (has_member (chats (historyState s)) newName);
    [exists s, m; split; [reflexivity | exact Hd]|].
  unfold set_messages. unfold bind at 1. unfold modify at 1.
  destruct (durable_saved rt
              (mkState (Some newName)
                 (obj_set (chats (historyState s)) newName []))
              newName [] (set_conv [system_message cfg] m))
    as (m' & Hsave & Hd');
    [exact Hexp | exact Hnew | reflexivity | apply obj_get_set_eq |].
  unfold bind, ret. rewrite Hsave. eauto.
Qed.

Lemma chat_use_durable rt cfg name s m :
  inherited name = false ->
  durable rt s m ->
  exists s' m', chat_use rt cfg name s m = (Ok s', m') /\ durable rt s' m'.
Proof.
  intros Hplain Hd. pose proof Hd as (Hexp & _). unfold chat_use. cbv zeta.
  rewrite (has_member_plain _ _ Hplain).
  destruct (String.eqb_spec name "") as [|Hname];
    [exists s, m; split; [reflexivity | exact Hd]|].
  destruct (obj_has (chats (historyState s)) name) eqn:Hhas; cbn [negb];
    [|exists s, m; split; [reflexivity | exact Hd]].
  unfold set_messages. unfold bind at 1. unfold modify at 1.
  destruct (durable_saved rt (mkState (Some name) (chats (historyState s)))
              name (chat_or_empty (chats (historyState s)) name)
              (set_conv (system_message cfg
                           :: chat_or_empty (chats (historyState s)) name) m))
    as (m' & Hsave & Hd');
    [exact Hexp | exact Hname | reflexivity | |].
  { unfold chat_or_empty, obj_has in *. cbn [chats].
    now destruct (obj_get (chats (historyState s)) name). }
  unfold bind, ret. rewrite Hsave. eauto.
Qed.

Lemma chat_delete_durable rt cfg name s m :
  durable rt s m ->
  exists s' m', chat_delete rt cfg name s m = (Ok s', m') /\ durable rt s' m'.
Proof.
  intros Hd. pose proof Hd as (Hexp & Hne & [Hcur Hget] & _).
  unfold chat_delete. cbv zeta. rewrite has_member_next.
  destruct (String.eqb_spec name "") as [|Hname];
    [exists s, m; split; [reflexivity | exact Hd]|].
  destruct (has_member (chats (historyState s)) name) eqn:Hhas; cbn [negb];
    [|exists s, m; split; [reflexivity | exact Hd]].
  rewrite Hcur.
  set (remaining := obj_delete (chats (historyState s)) name).
  destruct (String.eqb_spec (currentChat s) name) as [Heq|Hother].
  - set (next := next_name (Object_keys remaining)).
    set (c := if obj_has remaining next then remaining
              else obj_set remaining next []).
    unfold set_messages. unfold bind at 1. unfold modify at 1.
    destruct (durable_saved rt (mkState (Some next) c) next
                (chat_or_empty c next)
                (set_conv (system_message cfg :: chat_or_empty c next) m))
      as (m' & Hsave & Hd');
      [exact Hexp | apply next_name_named | reflexivity | |].
    { cbn [chats]. unfold c, chat_or_empty.
      destruct (obj_has remaining next) eqn:Hnext.
      - unfold obj_has in Hnext. now destruct (obj_get remaining next).
      - now rewrite obj_get_set_eq. }
    unfold bind, ret. rewrite Hsave. eauto.
  - destruct (durable_saved rt (mkState (Some (currentChat s)) remaining)
                (currentChat s) (history s) m)
      as (m' & Hsave & Hd');
      [exact Hexp | exact Hne | reflexivity | |].
    { cbn [chats]. unfold remaining.
      rewrite obj_get_delete_ne by congruence. exact Hget. }
    unfold bind, ret. rewrite Hsave. eauto.
Qed.

Lemma writeFileSync_effect rt p data m :
  (exists node,
      writeFileSync rt p data m = (Ok tt, set_fs (<[p := node]> (fs m)) m)
      /\ fs m !! p <> Some Dir)
  \/ (exists e, writeFileSync rt p data m = (Throw e, m)).
Proof.
  unfold writeFileSync.
  destruct (fs m !! p) as [[r [] c|]|].
  - left. eexists. split; [reflexivity | discriminate].
  - right. eauto.
  - right. eauto.
  - destruct (fs m !! dirname rt p) as [[r w c|]|].
    + right. eauto.
    + left. eexists. split; [reflexivity | discriminate].
    + right. eauto.
Qed.

Lemma export_durable rt file s m :
  durable rt s m ->
  exists s' m', export rt file s m = (Ok s', m') /\ durable rt s' m'.
Proof.
  intros Hd. pose proof Hd as (Hexp & Hne & Hco & Hfile).
  unfold export.
  destruct (String.eqb_spec file "") as [|Hname];
    [exists s, m; split; [reflexivity | exact Hd]|].
  destruct (String.eqb_spec file (HIST_FILE rt)) as [->|Hother].
  - destruct (save_on_disk rt (historyState s) m Hexp)
      as (m' & Hsave & Hdisk & Hexp').
    unfold saveHistoryState, saveJson in Hsave.
    unfold bind. rewrite Hsave. exists s, m'.
    split; [reflexivity|]. repeat split; try assumption; try apply Hco.
    now right.
  - unfold bind, ret, try_catch.
    destruct (writeFileSync_effect rt file
                (stringify rt (encode (historyState s))) m)
      as [(node & Hw & Hdir)|(e & Hw)]; rewrite Hw;
      [|exists s, m; split; [reflexivity | exact Hd]].
    exists s. eexists. split; [reflexivity|].
    assert (Hsame : fs (set_fs (<[file := node]> (fs m)) m) !! HIST_FILE rt
                    = fs m !! HIST_FILE rt).
    { cbn. now rewrite lookup_insert_ne. }
    split; [|split; [exact Hne|split; [exact Hco|]]].
    + unfold exportable in *. rewrite Hsame.
      destruct (fs m !! HIST_FILE rt) as [n|]; [exact Hexp|].
      cbn. destruct (String.eqb_spec file (dirname rt (HIST_FILE rt)))
        as [->|Hd'].
      * destruct (fs m !! dirname rt (HIST_FILE rt)) as [[]|];
          try discriminate. now contradiction Hdir.
      * now rewrite lookup_insert_ne.
    + destruct Hfile as [Hload|Hdisk].
      * left. now apply (loadHistoryState_frame rt m).
      * right. unfold on_disk in *. now rewrite Hsame.
Qed.

Lemma commands_durable rt cfg cs :
  forallb store_command cs = true ->
  forall s m,
    durable rt s m ->
    exists s' m', run_commands rt cfg cs s m = (Ok s', m') /\ durable rt s' m'.
Proof.
  induction cs as [|c cs IH]; intros Hcs s m Hd.
  - exists s, m. split; [reflexivity | exact Hd].
  - cbn [forallb] in Hcs. apply andb_true_iff in Hcs as [Hc Hcs].
    assert (Hstep : exists s1 m1,
               run_command rt cfg c s m = (Ok s1, m1) /\ durable rt s1 m1).
    { destruct c; simpl in *; try discriminate.
      - now apply clear_durable.
      - now apply chat_new_durable.
      - apply chat_use_durable; [|exact Hd].
        now destruct (inherited name).
      - now apply chat_delete_durable.
      - now apply export_durable. }
    destruct Hstep as (s1 & m1 & Hrun & Hd1).
    destruct (IH Hcs s1 m1 Hd1) as (s' & m' & Hrest & Hd').
    exists s', m'. split; [|exact Hd'].
    cbn [run_commands]. unfold bind. now rewrite Hrun.
Qed.

Lemma start_of_load rt cfg s m :
  coherent s ->
  loadHistoryState rt m = (Ok (Some (historyState s)), m) ->
  start rt cfg m
  = (Ok (Some s), set_conv (system_message cfg :: history s) m).
Proof.
  intros [Hcur Hget] Hload. unfold start. unfold bind at 1. rewrite Hload.
  unfold current_key. rewrite Hcur.
  assert (Hhas : obj_has (chats (historyState s)) (currentChat s) = true).
  { unfold obj_has. now rewrite Hget. }
  rewrite (has_member_own _ _ Hhas), Hhas. cbn [negb].
  unfold chat_or_empty. rewrite Hget.
  unfold set_messages. unfold_m. rewrite <- Hcur.
  now destruct s as [[cur chats] name h].
Qed.

(** [X21] Leaving and starting again resumes the session.  From startup
    on, with a history file that can be written, [/clear], [/chat new],
    [/chat use], [/chat delete] and [/export] in any number and order
    all return, where no [/chat use] names a member that every object
    inherits; and what [main] reads at the next start is the store, the
    current chat and the history the program was left with, provided the
    runtime parses the text it printed for that store. *)
Theorem restart_resumes rt cfg m s m1 cs :
  start rt cfg m = (Ok (Some s), m1) ->
  exportable rt (HIST_FILE rt) m = true ->
  forallb store_command cs = true ->
  exists s' m',
    run_commands rt cfg cs s m1 = (Ok s', m')
    /\ (parse rt (stringify rt (encode (historyState s')))
        = Some (encode (historyState s')) ->
        start rt cfg m'
        = (Ok (Some s'), set_conv (system_message cfg :: history s') m')).
Proof.
  intros Hstart Hexp Hcs.
  destruct (commands_durable rt cfg cs Hcs s m1
              (start_durable rt cfg m s m1 Hstart Hexp))
    as (s' & m' & Hrun & Hexp' & Hne & Hco & Hfile).
  exists s', m'. split; [exact Hrun|]. intros Hcodec.
  apply start_of_load; [exact Hco|].
  destruct Hfile as [Hload|Hdisk]; [exact Hload|].
  destruct Hco as [Hcur Hget].
  apply (load_on_disk rt (historyState s') (currentChat s') m');
    try assumption.
  unfold obj_has. now rewrite Hget.
Qed.

(** ** Worked instances *)

Lemma applyAliases_expands_witness :
  applyAliases "/ls src" default_aliases = "/list src".
Proof.
  apply (applyAliases_expands default_aliases "/ls" "/list" " src"
           [("/h", JStr "/help"); ("/q", JStr "/exit"); ("/m", JStr "/model");
            ("/p", JStr "/profile")]
           [("/cat", JStr "/read"); ("/run", JStr "/shell")]);
    reflexivity.
Defined.

Lemma parseKv_round_trip_witness :
  parseKv "file:a.js mode:fast" = [("file", "a.js"); ("mode", "fast")].
Proof.
  apply (parseKv_round_trip [("file", "a.js"); ("mode", "fast")]).
  - reflexivity.
  - apply List.NoDup_cons; [simpl; intros [H|[]]; discriminate|].
    apply List.NoDup_cons; [simpl; intros []|]. apply List.NoDup_nil.
Defined.

Lemma template_command_fills_witness :
  template_command default_templates "/template explain context:main.js"
  = Ok (Some (Text (JStr "Объясни, что делает этот код: main.js."))).
Proof.
  apply (template_command_fills default_templates "explain" "context"
           "main.js" "Объясни, что делает этот код: " ".");
    reflexivity.
Defined.

Lemma template_command_dollar_witness :
  template_command default_templates "/template explain context:old-$&"
  = Ok (Some (Text (JStr "Объясни, что делает этот код: old-{context}."))).
Proof.
  apply (template_command_dollar default_templates "explain" "context"
           "old-" EmptyString "Объясни, что делает этот код: " ".");
    reflexivity.
Defined.

Lemma template_lines_are_taken_for_temperature_witness :
  handler_of "/template explain context:main.js" = AtTemp.
Proof.
  apply (template_lines_are_taken_for_temperature
           "/template explain context:main.js").
  reflexivity.
Defined.

Lemma loadConfig_merges_witness :
  exists cfg,
    loadConfig Demo.runtime "/home/meow/.meowcli.json" Cases.defaults
      Cases.with_settings = (Ok (JObj cfg), Cases.with_settings)
    /\ obj_get cfg "model" = Some (JStr "local")
    /\ obj_get cfg "profile" = Some (JStr "default")
    /\ exists aliases,
         obj_get cfg "aliases" = Some (JObj aliases)
         /\ obj_get aliases "/h" = Some (JStr "/halt")
         /\ obj_get aliases "/q" = Some (JStr "/exit").
Proof.
  destruct (loadConfig_merges Demo.runtime "/home/meow/.meowcli.json"
              Cases.defaults Cases.with_settings Cases.settings)
    as (cfg & Hrun & Hplain & Hmember); [reflexivity|].
  exists cfg. split; [exact Hrun|].
  split; [rewrite Hplain by discriminate; reflexivity|].
  split; [rewrite Hplain by discriminate; reflexivity|].
  destruct (Hmember "aliases") as (aliases & Hget & Hentries);
    [simpl; auto|].
  exists aliases. split; [exact Hget|].
  split; rewrite Hentries; reflexivity.
Defined.

Lemma autopilot_command_budget_witness :
  maxSteps (autopilot_command Cases.numerate "/autopilot steps 0" Demo.config)
  = 1%Z
  /\ maxSteps (autopilot_command Cases.numerate "/autopilot steps 12"
                 Demo.config) = 12%Z.
Proof.
  split.
  - destruct (autopilot_command_budget Cases.numerate "/autopilot steps 0"
                Demo.config) as (_ & _ & _ & _ & Hsteps);
      [vm_compute; discriminate|].
    apply (Hsteps "0" 0%Z); [reflexivity | discriminate | reflexivity
                            | reflexivity].
  - destruct (autopilot_command_budget Cases.numerate "/autopilot steps 12"
                Demo.config) as (_ & _ & _ & _ & Hsteps);
      [vm_compute; discriminate|].
    apply (Hsteps "12" 12%Z); [reflexivity | discriminate | reflexivity
                              | reflexivity].
Defined.

Lemma autopilot_without_key_witness :
  runAutopilot Demo.runtime "tidy up" Cases.keyless true (Demo.machine [])
  = (Ok (HALTED_LIMIT, [EmptyString; EmptyString; EmptyString]),
     Demo.machine []).
Proof.
  apply (autopilot_without_key Demo.runtime "tidy up" Cases.keyless true
           (Demo.machine [])); reflexivity.
Defined.

Lemma listDir_sorted_witness :
  exists entries lines,
    readdirSync Demo.runtime "/tmp" Cases.tmp_files
    = (Ok entries, Cases.tmp_files)
    /\ listDir Demo.runtime Sessions.texts (Some (JStr "/tmp")) Cases.tmp_files
       = (Ok (join nl lines), Cases.tmp_files)
    /\ Sorted (fun a b => (a <=? b)%string = true) lines
    /\ Permutation lines
         (List.map
            (fun n => match fs Cases.tmp_files !! ("/tmp" ++ "/" ++ n) with
                      | Some Dir => n ++ "/"
                      | _ => n
                      end) entries).
Proof.
  apply (listDir_sorted Demo.runtime Sessions.texts "/tmp" Cases.tmp_files).
  vm_compute. reflexivity.
Defined.


Lemma runShell_unanswered_witness :
  (exists m',
      runShell Demo.runtime Sessions.texts confirm (Some (JStr "make clean"))
        false (Demo.machine [])
      = (Ok (shell_output Sessions.texts
               (mkExec "ran make clean" EmptyString None)), m')
      /\ fs m' = fs (Demo.machine []))
  /\ (exists m',
         runShell Demo.runtime Sessions.texts confirm_waiting
           (Some (JStr "make clean")) false (Demo.machine [])
         = (Stall, m')
         /\ fs m' = fs (Demo.machine [])
         /\ clock m' = clock (Demo.machine [])).
Proof.
  apply (runShell_unanswered Demo.runtime Sessions.texts "make clean"
           (Demo.machine [])); reflexivity.
Defined.

Lemma httpRequest_get_has_no_body_witness :
  httpRequest Demo.runtime Sessions.texts confirm
    (JObj [("url", JStr "http://localhost/"); ("body", JStr "x=1")]) true
    (Demo.machine [])
  = httpRequest Demo.runtime Sessions.texts confirm
      (JObj [("url", JStr "http://localhost/")]) true (Demo.machine []).
Proof.
  apply (httpRequest_get_has_no_body Demo.runtime Sessions.texts confirm
           [("url", JStr "http://localhost/")] (JStr "x=1") true
           (Demo.machine [])); reflexivity.
Defined.

Lemma commands_keep_store_coherent_witness :
  coherent
    (mkSession
       (mkState (Some "chat-1")
          [("chat-1", [user_message "hello"; Cases.final_answer])])
       "chat-1" [user_message "hello"; Cases.final_answer])
  /\ resolves
       (mkState (Some "chat-1")
          [("chat-1", [user_message "hello"; Cases.final_answer])])
     = true.
Proof.
  apply (commands_keep_store_coherent Demo.runtime Demo.config
           (Cases.machine [] [Cases.reply Cases.final_answer] [])
           Cases.fresh_session
           (set_conv [system_message Demo.config]
              (Cases.machine [] [Cases.reply Cases.final_answer] []))
           [ChatNew EmptyString; ChatDelete "default"; Say "hello"]
           (mkSession
              (mkState (Some "chat-1")
                 [("chat-1", [user_message "hello"; Cases.final_answer])])
              "chat-1" [user_message "hello"; Cases.final_answer])
           (snd (run_commands Demo.runtime Demo.config
                   [ChatNew EmptyString; ChatDelete "default"; Say "hello"]
                   Cases.fresh_session
                   (set_conv [system_message Demo.config]
                      (Cases.machine [] [Cases.reply Cases.final_answer]
                         []))))).
  - vm_compute. reflexivity.
  - vm_compute. reflexivity.
Defined.

Lemma write_then_read_witness :
  exists m',
    writeFile Demo.runtime Sessions.texts confirm (Some (JStr "/tmp/a.txt"))
      (Some (JStr "hello")) true (Demo.machine [("/tmp", Dir)])
    = (Ok (tx_written Sessions.texts "/tmp/a.txt" 5), m')
    /\ readFile Demo.runtime Sessions.texts (Some (JStr "/tmp/a.txt")) m'
       = (Ok (if (READ_LIMIT <? 5)%nat
              then str_take READ_LIMIT "hello"
                     ++ tx_truncated Sessions.texts 5
              else "hello"), m').
Proof.
  apply (write_then_read Demo.runtime Sessions.texts "/tmp/a.txt" "hello"
           (Demo.machine [("/tmp", Dir)])).
  - vm_compute. reflexivity.
  - vm_compute. exact I.
Defined.

Lemma history_survives_restart_witness :
  exists m',
    saveHistoryState Demo.runtime (historyState Cases.three_chats)
      (Demo.machine [("/home/meow", Dir)]) = (Ok tt, m')
    /\ loadHistoryState Demo.runtime m'
       = (Ok (Some (historyState Cases.three_chats)), m').
Proof.
  apply (history_survives_restart Demo.runtime
           (historyState Cases.three_chats) "zeta"
           (Demo.machine [("/home/meow", Dir)]));
    [vm_compute; reflexivity | vm_compute; reflexivity | reflexivity
    | discriminate | reflexivity].
Defined.

Lemma handleTools_answers_in_order_witness :
  exists results,
    conv (snd (Sessions.handleTools Demo.runtime (Some Cases.two_calls)
                 Demo.config Cases.tmp_files))
    = (conv Cases.tmp_files
         ++ Cases.two_calls
            :: answers
                 [Cases.tool_call "call_1" "list_dir"
                    (Demo.print (JObj [("path", JStr "/tmp")]));
                  Cases.tool_call "call_2" "read_file"
                    (Demo.print (JObj [("path", JStr "/tmp/notes.txt")]))]
                 results)%list
    /\ match fst (Sessions.handleTools Demo.runtime (Some Cases.two_calls)
                    Demo.config Cases.tmp_files) with
       | Ok b => b = true /\ List.length results = 2%nat
       | Throw _ => (List.length results <= 1)%nat
       | Stall => False
       end.
Proof.
  apply (handleTools_answers_in_order Demo.runtime Cases.two_calls
           (Cases.tool_call "call_1" "list_dir"
              (Demo.print (JObj [("path", JStr "/tmp")])))
           [Cases.tool_call "call_2" "read_file"
              (Demo.print (JObj [("path", JStr "/tmp/notes.txt")]))]
           Demo.config Cases.tmp_files).
  reflexivity.
Defined.

Lemma restart_resumes_witness :
  exists m',
    run_commands Demo.runtime Demo.config
      [ChatNew EmptyString; ChatNew "work"; ChatUse "chat-1";
       ChatDelete "default"; Clear; Export "/home/meow/backup.json"]
      Cases.fresh_session
      (set_conv [system_message Demo.config]
         (Demo.machine [("/home/meow", Dir)]))
    = (Ok (mkSession (mkState (Some "chat-1") [("chat-1", []); ("work", [])])
             "chat-1" []), m')
    /\ start Demo.runtime Demo.config m'
       = (Ok (Some (mkSession
                      (mkState (Some "chat-1") [("chat-1", []); ("work", [])])
                      "chat-1" [])),
          set_conv [system_message Demo.config] m').
Proof.
  destruct (restart_resumes Demo.runtime Demo.config
              (Demo.machine [("/home/meow", Dir)]) Cases.fresh_session
              (set_conv [system_message Demo.config]
                 (Demo.machine [("/home/meow", Dir)]))
              [ChatNew EmptyString; ChatNew "work"; ChatUse "chat-1";
               ChatDelete "default"; Clear;
               Export "/home/meow/backup.json"])
    as (s' & m' & Hrun & Hres);
    [vm_compute; reflexivity | reflexivity | reflexivity |].
  assert (Hs : s' = mkSession
                      (mkState (Some "chat-1") [("chat-1", []); ("work", [])])
                      "chat-1" []).
  { revert Hrun. vm_compute. now intros [= <- _]. }
  subst s'. exists m'. split; [exact Hrun|].
  apply Hres. vm_compute. reflexivity.
Defined.
